(** * Correlation_Matrix.py: windowed normalisation and correlation matrices

    A shallow embedding of [src/Correlation_Matrix.py]:

    - [calculate_normalized_returns_zero_mean] (the Window Normalizer),
    - [calculate_correlation_matrices_per_window] (the Windowed Correlation
      Engine),
    - the return computation of the main script (the Return Series Builder),

    together with the NumPy / SciPy routines these call
    ([np.array_split], [np.mean], [np.std], [np.corrcoef], [stats.zscore]).

    Numbers are IEEE-754 binary64 values: NumPy's [float64] is Rocq's
    primitive [float].  Python exceptions are values of [exn], carried by the
    [result] monad. *)

From Stdlib Require Import Ascii String List ZArith Lia Bool Floats.
From Stdlib Require Import DecimalString.
From Stdlib Require DecimalNat.
From Stdlib Require Uint63.
From Stdlib Require Reals Lra.
Import ListNotations.

(** ** Python exceptions as results *)

Inductive exn : Type :=
| IndexError
| ValueError
| ZeroDivisionError
| KeyError.

Inductive result (A : Type) : Type :=
| Ok (a : A)
| Raise (e : exn).

Arguments Ok {A} a.
Arguments Raise {A} e.

Definition bind {A B : Type} (r : result A) (k : A -> result B) : result B :=
  match r with
  | Ok a => k a
  | Raise e => Raise e
  end.

Notation "x <- r ;; k" := (bind r (fun x => k))
  (at level 61, r at next level, right associativity).

(** A [for] loop over [l] that threads the loop state [b] and stops at the
    first exception. *)
Fixpoint for_each {A B : Type} (l : list A) (body : B -> A -> result B) (b : B)
  : result B :=
  match l with
  | [] => Ok b
  | a :: l' => b' <- body b a ;; for_each l' body b'
  end.

(** [range(n)] and [range(a, b)] for Python integers. *)
Definition range (n : Z) : list nat := seq 0 (Z.to_nat n).
Definition range2 (a b : nat) : list nat := seq a (b - a).

(** [l[i]] on a Python list, for a non-negative index. *)
Definition list_index {A : Type} (l : list A) (i : nat) : result A :=
  match nth_error l i with
  | Some a => Ok a
  | None => Raise IndexError
  end.

(** [a // b] on Python integers: floor division, [ZeroDivisionError] on 0. *)
Definition floordiv (a b : Z) : result Z :=
  if (b =? 0)%Z then Raise ZeroDivisionError else Ok (a / b)%Z.

(** ** NumPy and SciPy routines *)

Module np.

Section ArraySplit.
Context {A : Type}.

(** [ary[st:end]] for [0 <= st <= end]. *)
Definition slice (ary : list A) (st en : nat) : list A :=
  firstn (en - st) (skipn st ary).

(** [np.cumsum] with the running total made explicit. *)
Fixpoint cumsum_from (acc : nat) (l : list nat) : list nat :=
  match l with
  | [] => []
  | x :: l' => (acc + x) :: cumsum_from (acc + x) l'
  end.

Definition cumsum (l : list nat) : list nat := cumsum_from 0 l.

(** The sizes NumPy gives the sections, behind a leading 0:
    [[0] + extras * [Neach_section+1] + (Nsections-extras) * [Neach_section]]. *)
Definition section_sizes (Ntotal Nsections : nat) : list nat :=
  let Neach_section := Ntotal / Nsections in
  let extras := Ntotal mod Nsections in
  [0] ++ repeat (Neach_section + 1) extras
      ++ repeat Neach_section (Nsections - extras).

(** [np.array_split(ary, indices_or_sections)] for an integer number of
    sections: [ValueError] unless it is positive, else the slices between
    consecutive division points. *)
Definition array_split (ary : list A) (indices_or_sections : Z)
  : result (list (list A)) :=
  if (indices_or_sections <=? 0)%Z then Raise ValueError
  else
    let Nsections := Z.to_nat indices_or_sections in
    let Ntotal := length ary in
    let div_points := cumsum (section_sizes Ntotal Nsections) in
    Ok (map (fun i => slice ary (nth i div_points 0) (nth (S i) div_points 0))
            (seq 0 Nsections)).

End ArraySplit.

Local Open Scope float_scope.

(** An array length as a [float64] (exact below [2^53]). *)
Definition float_of_nat (n : nat) : float :=
  of_uint63 (Uint63.of_Z (Z.of_nat n)).

(** [np.add.reduce]: the running sum starts at 0 and takes the elements in
    order (what NumPy does for fewer than 8 elements; beyond, it sums blocks
    pairwise, which can change the last bits of the sum). *)
Definition add_reduce (a : list float) : float := fold_left add a 0.

(** [np.mean(a)]: the sum divided by the number of elements. *)
Definition mean (a : list float) : float :=
  add_reduce a / float_of_nat (length a).

(** [np.var(a)] with the default [ddof=0]: the mean of the squared deviations
    from [np.mean(a)], the divisor being the number of elements. *)
Definition var (a : list float) : float :=
  let arrmean := mean a in
  let x := map (fun v => v - arrmean) a in
  let x := map (fun v => v * v) x in
  add_reduce x / float_of_nat (length a).

(** [np.std(a)]. *)
Definition std (a : list float) : float := sqrt (var a).

(** [np.dot] of two vectors. *)
Definition dot (x y : list float) : float :=
  add_reduce (map (fun p => fst p * snd p) (combine x y)).

(** [np.maximum], [np.minimum] and [np.clip] on scalars; a NaN first argument
    is returned as it is. *)
Definition maximum (a b : float) : float :=
  if (b <=? a) || is_nan a then a else b.

Definition minimum (a b : float) : float :=
  if (a <=? b) || is_nan a then a else b.

Definition clip (x lo hi : float) : float := minimum (maximum x lo) hi.

(** One entry of [np.cov(x, y)] (default [ddof=1]): rows are centred on their
    means, multiplied, and the product scaled by [1 / (n - 1)]. *)
Definition cov_entry (x y : list float) : float :=
  let n := length x in
  let fact := if (n <=? 1)%nat then 0 else float_of_nat (n - 1) in
  let xc := map (fun v => v - mean x) x in
  let yc := map (fun v => v - mean y) y in
  dot xc yc * (1 / fact).

(** [np.corrcoef(x, y)[0][1]].  Stacking two rows of different lengths raises
    [ValueError]; otherwise the covariance is divided by the two standard
    deviations, one after the other, and clipped to [[-1, 1]]. *)
Definition corrcoef01 (x y : list float) : result float :=
  if (length x =? length y)%nat then
    let c01 := cov_entry x y in
    let stddev0 := sqrt (cov_entry x x) in
    let stddev1 := sqrt (cov_entry y y) in
    Ok (clip ((c01 / stddev0) / stddev1) (-1) 1)
  else Raise ValueError.

End np.

Module stats.

Local Open Scope float_scope.

(** [scipy.stats.zscore(a)] with its defaults ([ddof=0], NaN propagated), as
    SciPy documents it: every value minus the mean, over the population
    standard deviation.  (On an input whose values are all equal, recent
    SciPy versions return NaN without dividing.) *)
Definition zscore (a : list float) : list float :=
  let mn := np.mean a in
  let std := np.std a in
  map (fun v => (v - mn) / std) a.

End stats.

(** ** The Window Normalizer *)

(** [calculate_normalized_returns_zero_mean(returns, window_size=13)].
    [normalized_returns] is the list the two nested loops append to. *)
Definition calculate_normalized_returns_zero_mean
  (returns : list float) (window_size : Z) : result (list float) :=
  windows <- np.array_split returns window_size ;;
  let normalized_returns :=
    fold_left (fun normalized_returns window =>
      fold_left (fun normalized_returns ret =>
        let r_star_window := ((ret - np.mean window) / np.std window)%float in
        normalized_returns ++ [r_star_window])
        window normalized_returns)
      windows [] in
  Ok (stats.zscore normalized_returns).

(** ** Data frames *)

(** The frame [extract_data] builds for one company. *)
Record PriceFrame : Type := {
  Date : list string;
  Open : list float;
  Close : list float
}.

(** The frame after the main script has added its two columns. *)
Record DataFrame : Type := {
  prices : PriceFrame;
  Return : list float;
  Normalized_Return : list float
}.

(** [len(df)]: the number of rows, which every column of a frame shares. *)
Definition len (df : DataFrame) : nat := length (Normalized_Return df).

(** A Python [dict] with string keys, in insertion order. *)
Definition dict (V : Type) : Type := list (string * V).

Definition keys {V : Type} (d : dict V) : list string := map fst d.

Fixpoint dict_get {V : Type} (d : dict V) (k : string) : result V :=
  match d with
  | [] => Raise KeyError
  | (k', v) :: d' => if String.eqb k' k then Ok v else dict_get d' k
  end.

(** ** The Return Series Builder *)

Definition series_binop (f : float -> float -> float) (a b : list float)
  : list float :=
  map (fun p => f (fst p) (snd p)) (combine a b).

(** [(df['Close'] - df['Open']) / df['Open']]. *)
Definition return_series (df : PriceFrame) : list float :=
  series_binop div (series_binop sub (Close df) (Open df)) (Open df).

(** ** The Windowed Correlation Engine *)

Definition matrix : Type := list (list float).

(** [np.zeros((n, m))]. *)
Definition zeros (n m : nat) : matrix := repeat (repeat 0%float m) n.

Fixpoint list_set {A : Type} (l : list A) (i : nat) (v : A) : list A :=
  match l, i with
  | [], _ => []
  | _ :: l', O => v :: l'
  | x :: l', S i' => x :: list_set l' i' v
  end.

(** [m[i, j] = v]; NumPy raises [IndexError] outside the matrix. *)
Definition set_item (m : matrix) (i j : nat) (v : float) : result matrix :=
  match nth_error m i with
  | Some row =>
      if (j <? length row)%nat then Ok (list_set m i (list_set row j v))
      else Raise IndexError
  | None => Raise IndexError
  end.

(** [m[i][j]], for reading the result. *)
Definition get_item (m : matrix) (i j : nat) : option float :=
  match nth_error m i with
  | Some row => nth_error row j
  | None => None
  end.

(** [pd.DataFrame(correlation_matrix, index=..., columns=...)]. *)
Record CorrelationFrame : Type := {
  values : matrix;
  index : list string;
  columns : list string
}.

(** The body of the two inner loops up to the value written: lines 109-118. *)
Definition Cij_num_win (stock_data : dict DataFrame) (company_names : list string)
  (window_size : Z) (win_num i j : nat) : result float :=
  name_i <- list_index company_names i ;;
  df_i <- dict_get stock_data name_i ;;
  name_j <- list_index company_names j ;;
  df_j <- dict_get stock_data name_j ;;
  sections_i <- floordiv (Z.of_nat (len df_i)) window_size ;;
  window_i <- np.array_split (Normalized_Return df_i) sections_i ;;
  sections_j <- floordiv (Z.of_nat (len df_j)) window_size ;;
  window_j <- np.array_split (Normalized_Return df_j) sections_j ;;
  chunk_i <- list_index window_i win_num ;;
  if (1 <? length chunk_i)%nat then
    chunk_j <- list_index window_j win_num ;;
    if (1 <? length chunk_j)%nat then np.corrcoef01 chunk_i chunk_j
    else Ok nan
  else Ok nan.

(** One pass of the [j] loop: the value goes into both cells. *)
Definition fill_cell (stock_data : dict DataFrame) (company_names : list string)
  (window_size : Z) (win_num i : nat) (correlation_matrix : matrix) (j : nat)
  : result matrix :=
  v <- Cij_num_win stock_data company_names window_size win_num i j ;;
  m1 <- set_item correlation_matrix i j v ;;
  set_item m1 j i v.

(** One pass of the [i] loop: [for j in range(i, num_companies)]. *)
Definition fill_row (stock_data : dict DataFrame) (company_names : list string)
  (window_size : Z) (win_num num_companies : nat) (correlation_matrix : matrix)
  (i : nat) : result matrix :=
  for_each (range2 i num_companies)
    (fill_cell stock_data company_names window_size win_num i)
    correlation_matrix.

(** The matrix of one window. *)
Definition window_matrix (stock_data : dict DataFrame) (company_names : list string)
  (window_size : Z) (num_companies win_num : nat) : result matrix :=
  for_each (range2 0 num_companies)
    (fill_row stock_data company_names window_size win_num num_companies)
    (zeros num_companies num_companies).

(** [calculate_correlation_matrices_per_window(stock_data, window_size=44)]. *)
Definition calculate_correlation_matrices_per_window
  (stock_data : dict DataFrame) (window_size : Z)
  : result (list CorrelationFrame) :=
  let company_names := keys stock_data in
  let num_companies := length company_names in
  first_company <- list_index company_names 0 ;;
  df_first <- dict_get stock_data first_company ;;
  windows_count <-
    floordiv (Z.of_nat (length (Normalized_Return df_first))) window_size ;;
  for_each (range windows_count)
    (fun correlation_matrices win_num =>
       correlation_matrix <-
         window_matrix stock_data company_names window_size num_companies win_num ;;
       Ok (correlation_matrices
             ++ [ {| values := correlation_matrix;
                     index := company_names;
                     columns := company_names |} ]))
    [].

(** ** The main script *)

Definition window_size_normalize : Z := 13.
Definition window_size_correlation : Z := 44.

(** The body of the loop over [stock_data.items()]. *)
Definition add_return_columns (df : PriceFrame) : result DataFrame :=
  let ret := return_series df in
  normalized <- calculate_normalized_returns_zero_mean ret window_size_normalize ;;
  Ok {| prices := df; Return := ret; Normalized_Return := normalized |}.

Fixpoint add_return_columns_all (stock_data : dict PriceFrame)
  : result (dict DataFrame) :=
  match stock_data with
  | [] => Ok []
  | (company, df) :: rest =>
      df' <- add_return_columns df ;;
      rest' <- add_return_columns_all rest ;;
      Ok ((company, df') :: rest')
  end.

Definition correlation_results (stock_data : dict PriceFrame)
  : result (list CorrelationFrame) :=
  stock_data' <- add_return_columns_all stock_data ;;
  calculate_correlation_matrices_per_window stock_data' window_size_correlation.

(** ** Reading the data: [extract_data] *)

(** [d[k] = v] on a Python [dict]: a key already there keeps its place and
    takes the new value, a new key goes to the end. *)
Fixpoint dict_set {V : Type} (d : dict V) (k : string) (v : V) : dict V :=
  match d with
  | [] => [(k, v)]
  | (k', v') :: d' =>
      if String.eqb k' k then (k', v) :: d' else (k', v') :: dict_set d' k v
  end.

(** [s.endswith(suffix)]: some tail of [s] is [suffix]. *)
Fixpoint endswith (s suffix : string) : bool :=
  String.eqb s suffix
  || match s with
     | EmptyString => false
     | String _ s' => endswith s' suffix
     end.

(** [s.split('.')[0]]: the characters before the first dot. *)
Fixpoint before_dot (s : string) : string :=
  match s with
  | EmptyString => EmptyString
  | String c s' =>
      if Ascii.eqb c "."%char then EmptyString else String c (before_dot s')
  end.

(** What a path of the folder tree names: a file with its text, or a
    directory with its entries in the order [os.listdir] gives them. *)
#[warnings="-register-all"]
Inductive node : Type :=
| File (content : string)
| Dir (entries : list (string * node)).

(** [os.path.isdir]. *)
Definition isdir (n : node) : bool :=
  match n with
  | Dir _ => true
  | File _ => false
  end.

(** [os.listdir] of a directory. *)
Definition listdir (n : node) : list (string * node) :=
  match n with
  | Dir entries => entries
  | File _ => []
  end.

Section ExtractData.

(** The exceptions of pandas, and [pd.read_csv(path)] followed by
    [df[['Date', 'Open', 'Close']]] on what [path] names. *)
Variable E : Type.
Variable load_frame : node -> E + PriceFrame.

(** The body of the inner loop. *)
Definition extract_file (stock_data : dict PriceFrame) (company_file : string * node)
  : E + dict PriceFrame :=
  if endswith (fst company_file) ".csv"%string then
    let company_name := before_dot (fst company_file) in
    match load_frame (snd company_file) with
    | inr df => inr (dict_set stock_data company_name df)
    | inl e => inl e
    end
  else inr stock_data.

(** A [for] loop that stops at the first exception of pandas. *)
Fixpoint for_each_file {A : Type} (l : list A)
  (body : dict PriceFrame -> A -> E + dict PriceFrame) (stock_data : dict PriceFrame)
  : E + dict PriceFrame :=
  match l with
  | [] => inr stock_data
  | a :: l' =>
      match body stock_data a with
      | inr stock_data' => for_each_file l' body stock_data'
      | inl e => inl e
      end
  end.

(** [extract_data(main_folder)], on the entries of the main folder. *)
Definition extract_data (main_folder : list (string * node)) : E + dict PriceFrame :=
  let dirs := filter (fun d => isdir (snd d)) main_folder in
  for_each_file dirs
    (fun stock_data category =>
       for_each_file (listdir (snd category)) extract_file stock_data)
    [].

End ExtractData.

(** ** Drawing the matrices: [heat_map] *)

(** The calls [heat_map] makes to [matplotlib.pyplot], with their arguments. *)
Inductive plt_call : Type :=
| imshow (X : matrix) (cmap : string) (vmin vmax : float)
| colorbar
| title (label : string)
| xlabel (label : string)
| ylabel (label : string)
| xticks (ticks labels : list float)
| yticks (ticks labels : list float)
| savefig (fname : string) (dpi : Z)
| show.

(** [str(num)] for a non-negative integer, as an f-string prints it. *)
Definition str (num : nat) : string := NilEmpty.string_of_uint (Nat.to_uint num).

(** The body of the loop, for item [num] of [enumerate]. *)
Definition heat_map_window (num : nat) (window : CorrelationFrame) : list plt_call :=
  [ imshow (values window) "Blues"%string (-1)%float 1%float;
    colorbar;
    title ("Window " ++ str num)%string;
    xlabel "Company"%string;
    ylabel "Company"%string;
    xticks [] [];
    yticks [] [];
    savefig ("Window_" ++ str num ++ ".png")%string 300%Z;
    show ].

(** [heat_map(correlation_matrices, stock_data)]: the calls it makes, in
    order. *)
Definition heat_map (correlation_matrices : list CorrelationFrame)
  (stock_data : dict DataFrame) : list plt_call :=
  flat_map (fun item => heat_map_window (fst item) (snd item))
           (combine (seq 0 (length correlation_matrices)) correlation_matrices).

(** ** Reference definitions used to state the properties *)

(** A partition cut off the front of the array, one section at a time. *)
Fixpoint split_by {A : Type} (sizes : list nat) (ary : list A) : list (list A) :=
  match sizes with
  | [] => []
  | s :: sizes' => firstn s ary :: split_by sizes' (skipn s ary)
  end.

(** The near-equal sizes: the first [Ntotal mod Nsections] sections take one
    element more than [Ntotal / Nsections]. *)
Definition chunk_size (Ntotal Nsections k : nat) : nat :=
  Ntotal / Nsections + (if (k <? Ntotal mod Nsections)%nat then 1 else 0).

Definition chunk_sizes (Ntotal Nsections : nat) : list nat :=
  repeat (Ntotal / Nsections + 1) (Ntotal mod Nsections)
    ++ repeat (Ntotal / Nsections) (Nsections - Ntotal mod Nsections).

(** Start offset of section [k]. *)
Definition chunk_start (Ntotal Nsections k : nat) : nat :=
  list_sum (firstn k (chunk_sizes Ntotal Nsections)).

(** The z-score of every value of a chunk within that chunk. *)
Definition per_chunk_normalized (chunk : list float) : list float :=
  map (fun v => ((v - np.mean chunk) / np.std chunk)%float) chunk.

(** Chunk [win_num] of instrument number [i]: its own series, split in
    [len(df) // window_size] sections. *)
Definition instrument_chunk (stock_data : dict DataFrame) (window_size : Z)
  (win_num i : nat) : result (list float) :=
  name <- list_index (keys stock_data) i ;;
  df <- dict_get stock_data name ;;
  sections <- floordiv (Z.of_nat (len df)) window_size ;;
  windows <- np.array_split (Normalized_Return df) sections ;;
  list_index windows win_num.

(** The value lines 115-118 give a pair of chunks. *)
Definition pair_value (chunk_i chunk_j : list float) : result float :=
  if (1 <? length chunk_i)%nat && (1 <? length chunk_j)%nat
  then np.corrcoef01 chunk_i chunk_j
  else Ok nan.

(** [np.corrcoef(x, x)[0][1]]: the variance [c] that [np.cov] gives [x],
    divided twice by its square root, and clipped. *)
Definition self_correlation (x : list float) : float :=
  let c := np.cov_entry x x in
  np.clip ((c / sqrt c) / sqrt c)%float (-1)%float 1%float.

(** Finite values and zeros among the specification-level floats. *)
Definition SF_finite (x : spec_float) : bool :=
  match x with
  | S754_zero _ | S754_finite _ _ _ => true
  | S754_infinity _ | S754_nan => false
  end.

Definition SF_zero (x : spec_float) : bool :=
  match x with
  | S754_zero _ => true
  | _ => false
  end.

(** An [n] by [n] matrix. *)
Definition square (n : nat) (m : matrix) : Prop :=
  length m = n /\ forall a row, nth_error m a = Some row -> length row = n.

Definition symmetric (m : matrix) : Prop :=
  forall a b, get_item m a b = get_item m b a.

(** The frame returned for one window. *)
Definition frame_of (company_names : list string) (m : matrix) : CorrelationFrame :=
  {| values := m; index := company_names; columns := company_names |}.

(** Cell [(a, b)] of the matrix of window [win_num] and its mirror hold the
    value of the pair [(a, b)]. *)
Definition cell_ok (stock_data : dict DataFrame) (window_size : Z) (win_num : nat)
  (m : matrix) (a b : nat) : Prop :=
  exists v,
    Cij_num_win stock_data (keys stock_data) window_size win_num a b = Ok v /\
    get_item m a b = Some v /\ get_item m b a = Some v.

(** Rows before [i] are written, and row [i] up to column [j0]. *)
Definition filled (stock_data : dict DataFrame) (window_size : Z) (win_num n : nat)
  (i j0 : nat) (m : matrix) : Prop :=
  square n m /\
  forall a b, a <= b -> b < n -> a < i \/ (a = i /\ b < j0) ->
              cell_ok stock_data window_size win_num m a b.

(** The files [extract_data] loads, in the order its loops meet them, each
    with the key it is stored under: the entries named [*.csv] of the
    directories of the main folder. *)
Definition visited_files (main_folder : list (string * node))
  : list (string * node) :=
  flat_map
    (fun category =>
       map (fun company_file => (before_dot (fst company_file), snd company_file))
           (filter (fun company_file => endswith (fst company_file) ".csv"%string)
                   (listdir (snd category))))
    (filter (fun d => isdir (snd d)) main_folder).

Section LoadAll.
Variable E : Type.
Variable load_frame : node -> E + PriceFrame.

(** The visited files loaded one after the other, each stored under its
    key. *)
Fixpoint load_all (files : list (string * node)) (stock_data : dict PriceFrame)
  : E + dict PriceFrame :=
  match files with
  | [] => inr stock_data
  | (company_name, n) :: files' =>
      match load_frame n with
      | inr df => load_all files' (dict_set stock_data company_name df)
      | inl e => inl e
      end
  end.

End LoadAll.

(** The files a sequence of calls saves, and the images it draws with their
    colour scales. *)
Definition saved_files (calls : list plt_call) : list string :=
  flat_map (fun c => match c with savefig fname _ => [fname] | _ => [] end) calls.

Definition drawn_images (calls : list plt_call) : list (matrix * float * float) :=
  flat_map (fun c => match c with
                     | imshow X _ vmin vmax => [(X, vmin, vmax)]
                     | _ => []
                     end) calls.

(** A value the colour scale [[-1, 1]] of the heat maps shows as it is: NaN,
    or a number from -1 to 1. *)
Definition in_scale (v : float) : bool :=
  is_nan v || ((-1 <=? v) && (v <=? 1))%float.

(** The real number [m * 2^e] that a finite float of significand [m] and
    exponent [e] stands for. *)
Definition F2R (m e : Z) : Rdefinitions.R :=
  Rdefinitions.Rmult (Rdefinitions.IZR m)
    (Rfunctions.powerRZ (Rdefinitions.IZR 2) e).

(** ** Sample inputs *)

(** A frame of [length normalized] rows with the given normalized returns
    (flat prices, so that every return is 0). *)
Definition sample_frame (normalized : list float) : DataFrame :=
  let rows := length normalized in
  {| prices := {| Date := repeat ""%string rows;
                  Open := repeat 1%float rows;
                  Close := repeat 1%float rows |};
     Return := repeat 0%float rows;
     Normalized_Return := normalized |}.

(** Two companies, four rows each. *)
Definition sample_stock_data : dict DataFrame :=
  [("A"%string, sample_frame [0; 2; 1; 5]%float);
   ("B"%string, sample_frame [1; 2; 4; 3]%float)].

(** The first company moves between [2^600] and [-2^600]: the squares of its
    deviations overflow. *)
Definition sample_large_stock_data : dict DataFrame :=
  [("A"%string, sample_frame [0x1p+600; -0x1p+600; 1; 5]%float);
   ("B"%string, sample_frame [1; 2; 4; 3]%float)].

(** The second company has fewer rows than the first: two against four. *)
Definition sample_short_stock_data : dict DataFrame :=
  [("A"%string, sample_frame [0; 2; 1; 5]%float);
   ("B"%string, sample_frame [1; 2]%float)].

(** The second company has five rows against four: with a window of 2 its
    sections are [0:3] and [3:5], the first company's [0:2] and [2:4]. *)
Definition sample_drift_stock_data : dict DataFrame :=
  [("A"%string, sample_frame [0; 2; 1; 5]%float);
   ("B"%string, sample_frame [1; 2; 3; 4; 5]%float)].

(** The second company has six rows against four. *)
Definition sample_long_stock_data : dict DataFrame :=
  [("A"%string, sample_frame [0; 2; 1; 5]%float);
   ("B"%string, sample_frame [1; 2; 4; 3; 7; 9]%float)].

(** The first company has a NaN in its second window. *)
Definition sample_nan_stock_data : dict DataFrame :=
  [("A"%string, sample_frame [0; 2; nan; 5]%float);
   ("B"%string, sample_frame [1; 2; 4; 3]%float)].

(** A return series whose first three values are the [float64] nearest to
    0.1. *)
Definition sample_returns : list float :=
  [0x1.999999999999ap-4; 0x1.999999999999ap-4; 0x1.999999999999ap-4; 1; 2; 3]%float.

(** Three days of prices, the second with an opening price of 0. *)
Definition sample_prices : PriceFrame :=
  {| Date := ["2020-01-02"; "2020-01-03"; "2020-01-06"]%string;
     Open := [1; 0; 2]%float;
     Close := [2; 1; 2]%float |}.

(** Two companies with three days of prices each. *)
Definition sample_price_data : dict PriceFrame :=
  [("A"%string, sample_prices);
   ("B"%string,
    {| Date := ["2020-01-02"; "2020-01-03"; "2020-01-06"]%string;
       Open := [1; 2; 4]%float;
       Close := [2; 2; 3]%float |})].

(** A loader for the samples: a file with text loads as a frame of one row
    dated with that text, an empty file or a directory raises. *)
Definition sample_load_frame (n : node) : string + PriceFrame :=
  match n with
  | File EmptyString => inl "EmptyDataError"%string
  | File day => inr {| Date := [day]; Open := [1]%float; Close := [2]%float |}
  | Dir _ => inl "IsADirectoryError"%string
  end.

(** A main folder with two categories and a file of its own. *)
Definition sample_main_folder : list (string * node) :=
  [("tech"%string, Dir [("AAPL.csv"%string, File "2020-01-02"%string);
                       ("notes.txt"%string, File "x"%string)]);
   ("README.csv"%string, File "x"%string);
   ("energy"%string, Dir [("XOM.csv"%string, File "2020-01-03"%string);
                         ("AAPL.old.csv"%string, File "2019-12-31"%string)])].

(** Forty-four days of prices, the first of them with an opening price
    of 0. *)
Definition sample_zero_open_prices : PriceFrame :=
  {| Date := repeat "d"%string 44;
     Open := 0%float :: map np.float_of_nat (seq 1 43);
     Close := map np.float_of_nat (seq 2 44) |}.

(** Two companies with 44 days of prices. *)
Definition sample_long_price_data : dict PriceFrame :=
  [("A"%string, sample_zero_open_prices);
   ("B"%string,
    {| Date := repeat "d"%string 44;
       Open := map np.float_of_nat (seq 1 44);
       Close := map (fun n => np.float_of_nat (n * n)) (seq 1 44) |})].

(** ** Proof automation *)

(** Case analysis on the specification-level value of a float. *)
Ltac float_cases x :=
  let H := fresh "Hvalid" in
  pose proof (Prim2SF_valid x) as H;
  destruct (Prim2SF x) as [[|]|[|]| |[|] ? ?].

(** * Properties *)

(** ** The result monad and loops *)

Lemma bind_Ok_inv {A B : Type} (r : result A) (k : A -> result B) (b : B) :
  bind r k = Ok b -> exists a, r = Ok a /\ k a = Ok b.
Proof.
  destruct r as [a|e]; simpl; intros H; [eauto | discriminate].
Qed.

(** A loop invariant kept by every pass holds when the loop returns. *)
Lemma for_each_invariant {A B : Type} (P : B -> Prop) (body : B -> A -> result B) :
  (forall b a b', P b -> body b a = Ok b' -> P b') ->
  forall l b b', P b -> for_each l body b = Ok b' -> P b'.
Proof.
  intros step; induction l as [|a l IH]; simpl; intros b b' Hb H.
  - injection H as <-; exact Hb.
  - apply bind_Ok_inv in H as (b1 & H1 & H2); eauto.
Qed.

(** ** np.array_split *)

Section ArraySplitFacts.
Context {A : Type}.

Lemma split_by_length (sizes : list nat) (ary : list A) :
  length (split_by sizes ary) = length sizes.
Proof.
  revert ary; induction sizes as [|s sizes IH]; intros ary; simpl; auto.
Qed.

Lemma split_by_concat (sizes : list nat) (ary : list A) :
  concat (split_by sizes ary) = firstn (list_sum sizes) ary.
Proof.
  revert ary; induction sizes as [|s sizes IH]; intros ary; simpl; [reflexivity|].
  rewrite IH, <- (firstn_skipn s (firstn (s + list_sum sizes) ary)).
  f_equal.
  - rewrite firstn_firstn; f_equal; lia.
  - rewrite skipn_firstn_comm; f_equal; lia.
Qed.

Lemma split_by_nth (sizes : list nat) (ary : list A) (k : nat) :
  k < length sizes ->
  nth_error (split_by sizes ary) k =
  Some (firstn (nth k sizes 0) (skipn (list_sum (firstn k sizes)) ary)).
Proof.
  revert ary k; induction sizes as [|s sizes IH]; intros ary k Hk; simpl in Hk; [lia|].
  destruct k as [|k]; simpl; [reflexivity|].
  rewrite IH by lia. rewrite skipn_skipn. do 3 f_equal; lia.
Qed.

Lemma slices_split_by (sizes : list nat) (a : nat) (ary : list A) :
  map (fun i => np.slice ary (nth i (a :: np.cumsum_from a sizes) 0)
                            (nth (S i) (a :: np.cumsum_from a sizes) 0))
      (seq 0 (length sizes))
  = split_by sizes (skipn a ary).
Proof.
  revert a; induction sizes as [|s sizes IH]; intros a; [reflexivity|].
  cbn [length seq map split_by np.cumsum_from nth]. f_equal.
  - unfold np.slice. f_equal; lia.
  - rewrite <- seq_shift, map_map, skipn_skipn, (Nat.add_comm s a), <- IH.
    apply map_ext; intros i; reflexivity.
Qed.

Lemma chunk_sizes_length (N n : nat) :
  0 < n -> length (chunk_sizes N n) = n.
Proof.
  intros Hn. unfold chunk_sizes. rewrite length_app, !repeat_length.
  pose proof (Nat.mod_upper_bound N n). lia.
Qed.

Lemma list_sum_repeat (a k : nat) : list_sum (repeat a k) = k * a.
Proof.
  induction k as [|k IH]; simpl; [reflexivity | rewrite IH; reflexivity].
Qed.

Lemma chunk_sizes_sum (N n : nat) :
  0 < n -> list_sum (chunk_sizes N n) = N.
Proof.
  intros Hn. unfold chunk_sizes. rewrite list_sum_app, !list_sum_repeat.
  pose proof (Nat.mod_upper_bound N n ltac:(lia)) as Hlt.
  pose proof (Nat.div_mod_eq N n) as Hdm. nia.
Qed.

Lemma chunk_sizes_nth (N n k : nat) :
  k < n -> nth k (chunk_sizes N n) 0 = chunk_size N n k.
Proof.
  intros Hk. unfold chunk_sizes, chunk_size.
  pose proof (Nat.mod_upper_bound N n ltac:(lia)) as Hlt.
  destruct (Nat.ltb_spec k (N mod n)) as [H|H].
  - rewrite app_nth1 by (rewrite repeat_length; lia). apply nth_repeat_lt; lia.
  - rewrite app_nth2 by (rewrite repeat_length; lia). rewrite repeat_length.
    rewrite nth_repeat_lt by lia. lia.
Qed.

(** [np.array_split] with a positive number of sections is the partition by
    the near-equal sizes. *)
Lemma array_split_split_by (ary : list A) (n : Z) :
  (0 < n)%Z ->
  np.array_split ary n = Ok (split_by (chunk_sizes (length ary) (Z.to_nat n)) ary).
Proof.
  intros Hn. unfold np.array_split.
  destruct (Z.leb_spec n 0) as [H|_]; [lia|]. f_equal.
  assert (Hpos : 0 < Z.to_nat n) by lia.
  pose proof (slices_split_by (chunk_sizes (length ary) (Z.to_nat n)) 0 ary) as E.
  rewrite chunk_sizes_length in E by exact Hpos. exact E.
Qed.

Lemma array_split_nonpositive (ary : list A) (n : Z) :
  (n <= 0)%Z -> np.array_split ary n = Raise ValueError.
Proof.
  intros Hn. unfold np.array_split.
  destruct (Z.leb_spec n 0) as [_|H]; [reflexivity | lia].
Qed.

Lemma list_sum_firstn_le (l : list nat) (k : nat) :
  list_sum (firstn k l) <= list_sum l.
Proof.
  revert k; induction l as [|x l IH]; intros [|k]; simpl; try lia.
  specialize (IH k); lia.
Qed.

Lemma list_sum_firstn_S (l : list nat) (k : nat) :
  list_sum (firstn (S k) l) = list_sum (firstn k l) + nth k l 0.
Proof.
  revert k; induction l as [|x l IH]; intros [|k]; simpl; try lia.
  specialize (IH k). simpl in IH. lia.
Qed.

(** Section [k] of the split: where it starts and how long it is. *)
Lemma array_split_nth (ary : list A) (n : Z) (k : nat) :
  (0 < n)%Z -> k < Z.to_nat n ->
  exists windows,
    np.array_split ary n = Ok windows /\
    nth_error windows k =
      Some (firstn (chunk_size (length ary) (Z.to_nat n) k)
                   (skipn (chunk_start (length ary) (Z.to_nat n) k) ary)) /\
    chunk_start (length ary) (Z.to_nat n) k
      + chunk_size (length ary) (Z.to_nat n) k <= length ary.
Proof.
  intros Hn Hk. eexists. split; [apply array_split_split_by; exact Hn|].
  split.
  - rewrite split_by_nth by (rewrite chunk_sizes_length; lia).
    rewrite chunk_sizes_nth by exact Hk. reflexivity.
  - unfold chunk_start. rewrite <- chunk_sizes_nth by exact Hk.
    rewrite <- list_sum_firstn_S.
    etransitivity; [apply list_sum_firstn_le|].
    rewrite chunk_sizes_sum by lia. lia.
Qed.

End ArraySplitFacts.

(** C2: for every sequence of length N and every positive window size W, the
    normalizer's [np.array_split] call returns exactly W contiguous chunks
    (their concatenation is the input), chunk [k] has [N / W] elements plus one
    when [k < N mod W]; a sequence of 10 elements cut in 3 gives sizes
    [4; 3; 3]. *)
Theorem array_split_near_equal {A : Type} (returns : list A) (window_size : Z) :
  (0 < window_size)%Z ->
  exists windows,
    np.array_split returns window_size = Ok windows /\
    length windows = Z.to_nat window_size /\
    concat windows = returns /\
    (forall k window, nth_error windows k = Some window ->
       length window =
         length returns / Z.to_nat window_size
         + (if (k <? length returns mod Z.to_nat window_size)%nat then 1 else 0)) /\
    (length returns = 10 -> window_size = 3%Z -> map (@length A) windows = [4; 3; 3]).
Proof.
  intros HW.
  assert (Hn : 0 < Z.to_nat window_size) by lia.
  exists (split_by (chunk_sizes (length returns) (Z.to_nat window_size)) returns).
  split; [apply array_split_split_by; exact HW|].
  assert (Hlen : length (split_by (chunk_sizes (length returns) (Z.to_nat window_size))
                                  returns) = Z.to_nat window_size)
    by (rewrite split_by_length; apply chunk_sizes_length; exact Hn).
  assert (Hsz : forall k window,
             nth_error (split_by (chunk_sizes (length returns) (Z.to_nat window_size))
                                 returns) k = Some window ->
             length window = chunk_size (length returns) (Z.to_nat window_size) k).
  { intros k window Hk.
    assert (Hlt : k < Z.to_nat window_size)
      by (rewrite <- Hlen; apply nth_error_Some; congruence).
    destruct (array_split_nth returns _ _ HW Hlt) as (ws & E1 & E2 & Hb).
    rewrite array_split_split_by in E1 by exact HW. injection E1 as <-.
    rewrite E2 in Hk. injection Hk as <-.
    rewrite length_firstn, length_skipn. lia. }
  repeat split.
  - exact Hlen.
  - rewrite split_by_concat, chunk_sizes_sum by exact Hn. apply firstn_all.
  - exact Hsz.
  - intros H10 H3. subst window_size.
    change (Z.to_nat 3) with 3 in *.
    remember (split_by (chunk_sizes (length returns) 3) returns) as ws eqn:Ews.
    destruct ws as [|w0 [|w1 [|w2 [|w3 ws]]]]; simpl in Hlen; try discriminate.
    simpl. rewrite (Hsz 0 w0 eq_refl), (Hsz 1 w1 eq_refl), (Hsz 2 w2 eq_refl).
    rewrite H10. reflexivity.
Qed.

Lemma array_split_near_equal_witness :
  exists windows,
    np.array_split [1; 2; 3; 4; 5; 6; 7; 8; 9; 10] 3 = Ok windows /\
    length windows = 3 /\
    map (@length nat) windows = [4; 3; 3].
Proof.
  destruct (array_split_near_equal [1; 2; 3; 4; 5; 6; 7; 8; 9; 10] 3 ltac:(lia))
    as (ws & E & Hl & _ & _ & H).
  exists ws. repeat split; [exact E | exact Hl | apply H; reflexivity].
Defined.

(** ** The Window Normalizer *)

Lemma fold_left_append_map {A B : Type} (f : A -> B) (l : list A) (acc : list B) :
  fold_left (fun acc a => acc ++ [f a]) l acc = acc ++ map f l.
Proof.
  revert acc; induction l as [|a l IH]; intros acc; simpl.
  - symmetry; apply app_nil_r.
  - rewrite IH, <- app_assoc. reflexivity.
Qed.

(** The two nested loops append, chunk after chunk, the values of
    [per_chunk_normalized]. *)
Lemma normalized_returns_loops_from (windows : list (list float)) (acc : list float) :
  fold_left (fun normalized_returns window =>
      fold_left (fun normalized_returns ret =>
          normalized_returns
            ++ [((ret - np.mean window) / np.std window)%float])
        window normalized_returns)
    windows acc
  = acc ++ concat (map per_chunk_normalized windows).
Proof.
  revert acc; induction windows as [|w ws IH]; intros acc; simpl.
  - symmetry; apply app_nil_r.
  - rewrite fold_left_append_map, IH, <- app_assoc. reflexivity.
Qed.

Lemma normalized_returns_loops (windows : list (list float)) :
  fold_left (fun normalized_returns window =>
      fold_left (fun normalized_returns ret =>
          normalized_returns
            ++ [((ret - np.mean window) / np.std window)%float])
        window normalized_returns)
    windows []
  = concat (map per_chunk_normalized windows).
Proof.
  apply normalized_returns_loops_from.
Qed.

Lemma length_concat_map_same {A B : Type} (g : list A -> list B) (ls : list (list A)) :
  (forall l, length (g l) = length l) ->
  length (concat (map g ls)) = length (concat ls).
Proof.
  intros Hg; induction ls as [|l ls IH]; simpl; [reflexivity|].
  rewrite !length_app, Hg, IH; reflexivity.
Qed.

Lemma normalizer_unfold (returns : list float) (window_size : Z) windows :
  np.array_split returns window_size = Ok windows ->
  calculate_normalized_returns_zero_mean returns window_size
  = Ok (stats.zscore (concat (map per_chunk_normalized windows))).
Proof.
  intros E. unfold calculate_normalized_returns_zero_mean. rewrite E; simpl.
  rewrite normalized_returns_loops. reflexivity.
Qed.

(** For a positive window size the normalizer returns, and its result is as
    long as its input. *)
Lemma normalizer_length_facts (returns : list float) (window_size : Z) :
  (0 < window_size)%Z ->
  exists out,
    calculate_normalized_returns_zero_mean returns window_size = Ok out /\
    length out = length returns.
Proof.
  intros HW.
  pose proof (array_split_split_by returns window_size HW) as E.
  eexists. split; [apply normalizer_unfold; exact E|].
  unfold stats.zscore. rewrite length_map, length_concat_map_same.
  - rewrite split_by_concat, chunk_sizes_sum by lia. rewrite firstn_all. reflexivity.
  - intros l; unfold per_chunk_normalized; apply length_map.
Qed.

(** C3: for a positive window size the normalizer returns a sequence as long
    as its input: the global z-score (mean subtracted, divided by the
    population standard deviation) of the in-order concatenation of the
    per-chunk values [(v - mean chunk) / std chunk]; [np.std] divides the sum
    of squared deviations by the number of elements. *)
Theorem normalizer_length_and_value (returns : list float) (window_size : Z) :
  (0 < window_size)%Z ->
  exists windows out,
    np.array_split returns window_size = Ok windows /\
    calculate_normalized_returns_zero_mean returns window_size = Ok out /\
    length out = length returns /\
    out = stats.zscore (concat (map per_chunk_normalized windows)) /\
    (forall a, stats.zscore a
               = map (fun v => ((v - np.mean a) / np.std a)%float) a) /\
    (forall a, np.std a
               = sqrt (np.add_reduce
                         (map (fun v => ((v - np.mean a) * (v - np.mean a))%float) a)
                       / np.float_of_nat (length a))%float).
Proof.
  intros HW.
  pose proof (array_split_split_by returns window_size HW) as E.
  destruct (normalizer_length_facts returns window_size HW) as (out & Eout & Hl).
  eexists. exists out.
  split; [exact E|]. split; [exact Eout|]. split; [exact Hl|].
  split; [|split].
  - rewrite (normalizer_unfold _ _ _ E) in Eout. congruence.
  - intros a; reflexivity.
  - intros a. unfold np.std, np.var. rewrite map_map. reflexivity.
Qed.

Lemma normalizer_length_and_value_witness :
  exists out,
    calculate_normalized_returns_zero_mean [1; 2; 3; 4; 5; 7]%float 2 = Ok out /\
    length out = 6.
Proof.
  destruct (normalizer_length_and_value [1; 2; 3; 4; 5; 7]%float 2 ltac:(lia))
    as (ws & out & _ & E & Hl & _).
  exists out. split; [exact E | exact Hl].
Defined.

(** ** Matrices *)

Lemma list_set_length {A : Type} (l : list A) (i : nat) (v : A) :
  length (list_set l i v) = length l.
Proof.
  revert i; induction l as [|x l IH]; intros [|i]; simpl; auto.
Qed.

Lemma list_set_nth_error {A : Type} (l : list A) (i k : nat) (v : A) :
  nth_error (list_set l i v) k =
  if (k =? i)%nat
  then match nth_error l i with Some _ => Some v | None => None end
  else nth_error l k.
Proof.
  revert i k; induction l as [|x l IH]; intros [|i] [|k]; simpl; auto.
  destruct (k =? i)%nat; reflexivity.
Qed.

Lemma zeros_square (n : nat) : square n (zeros n n).
Proof.
  unfold zeros; split; [apply repeat_length|].
  intros a row H. apply nth_error_In, repeat_spec in H. subst row.
  apply repeat_length.
Qed.

Lemma zeros_get_item (n a b : nat) :
  get_item (zeros n n) a b = if (a <? n)%nat && (b <? n)%nat then Some 0%float else None.
Proof.
  unfold get_item, zeros.
  destruct (Nat.ltb_spec a n) as [Ha|Ha]; simpl.
  - rewrite nth_error_repeat by exact Ha.
    destruct (Nat.ltb_spec b n) as [Hb|Hb].
    + apply nth_error_repeat; exact Hb.
    + apply nth_error_None. rewrite repeat_length; exact Hb.
  - replace (nth_error (repeat (repeat 0%float n) n) a) with (@None (list float));
      [reflexivity|].
    symmetry; apply nth_error_None. rewrite repeat_length; exact Ha.
Qed.

Lemma square_get_item (n : nat) (m : matrix) (a b : nat) :
  square n m -> a < n -> b < n -> exists v, get_item m a b = Some v.
Proof.
  intros [Hl Hr] Ha Hb. unfold get_item.
  destruct (nth_error m a) as [row|] eqn:E.
  - destruct (nth_error row b) as [v|] eqn:E'; [eauto|].
    apply nth_error_None in E'. rewrite (Hr _ _ E) in E'. lia.
  - apply nth_error_None in E. lia.
Qed.

(** What a successful [m[i, j] = v] does. *)
Lemma set_item_spec (n : nat) (m m' : matrix) (i j : nat) (v : float) :
  square n m ->
  set_item m i j v = Ok m' ->
  i < n /\ j < n /\ square n m' /\
  forall a b, get_item m' a b =
              if (a =? i)%nat && (b =? j)%nat then Some v else get_item m a b.
Proof.
  intros [Hl Hr]. unfold set_item.
  destruct (nth_error m i) as [row|] eqn:Ei; [|discriminate].
  destruct (Nat.ltb_spec j (length row)) as [Hj|Hj]; [|discriminate].
  intros H; injection H as <-.
  assert (Hi : i < n) by (rewrite <- Hl; apply nth_error_Some; congruence).
  pose proof (Hr _ _ Ei) as Hrow.
  split; [exact Hi|]. split; [lia|]. split.
  - split; [rewrite list_set_length; exact Hl|].
    intros a r. rewrite list_set_nth_error, Ei.
    destruct (a =? i)%nat; [|apply Hr].
    intros H; injection H as <-. rewrite list_set_length; exact Hrow.
  - intros a b. unfold get_item. rewrite list_set_nth_error, Ei.
    destruct (Nat.eqb_spec a i) as [->|Hne]; simpl; [|reflexivity].
    rewrite list_set_nth_error, Ei.
    destruct (Nat.eqb_spec b j) as [->|Hne]; [|reflexivity].
    destruct (nth_error row j) eqn:E; [reflexivity|].
    apply nth_error_None in E. lia.
Qed.

(** Inside the matrix the assignment does not raise. *)
Lemma set_item_total (n : nat) (m : matrix) (i j : nat) (v : float) :
  square n m -> i < n -> j < n -> exists m', set_item m i j v = Ok m'.
Proof.
  intros [Hl Hr] Hi Hj. unfold set_item.
  destruct (nth_error m i) as [row|] eqn:Ei.
  - rewrite (Hr _ _ Ei). destruct (Nat.ltb_spec j n); [eauto | lia].
  - apply nth_error_None in Ei. lia.
Qed.

(** ** Loops that may raise *)

(** A loop returns when every pass does, given an invariant. *)
Lemma for_each_total {A B : Type} (P : B -> Prop) (Q : A -> Prop)
  (body : B -> A -> result B) :
  (forall b a, P b -> Q a -> exists b', body b a = Ok b' /\ P b') ->
  forall l b, P b -> Forall Q l -> exists b', for_each l body b = Ok b' /\ P b'.
Proof.
  intros step; induction l as [|a l IH]; simpl; intros b Hb Hl.
  - eauto.
  - inversion Hl as [|? ? Ha Hl']; subst.
    destruct (step b a Hb Ha) as (b1 & E & Hb1). rewrite E; simpl.
    apply IH; assumption.
Qed.

(** A loop that appends one computed item per pass. *)
Lemma for_each_collect {A B C : Type} (f : A -> result B) (g : B -> C)
  (l : list A) (acc out : list C) :
  for_each l (fun acc x => y <- f x ;; Ok (acc ++ [g y])) acc = Ok out ->
  exists ys, Forall2 (fun x y => f x = Ok y) l ys /\ out = acc ++ map g ys.
Proof.
  revert acc; induction l as [|x l IH]; simpl; intros acc H.
  - injection H as <-. exists []. split; [constructor | symmetry; apply app_nil_r].
  - apply bind_Ok_inv in H as (acc1 & H1 & H2).
    apply bind_Ok_inv in H1 as (y & Hy & H1). injection H1 as <-.
    apply IH in H2 as (ys & Hys & ->).
    exists (y :: ys). split; [constructor; assumption|].
    rewrite <- app_assoc; reflexivity.
Qed.

Lemma for_each_collect_total {A B C : Type} (f : A -> result B) (g : B -> C)
  (l : list A) (acc : list C) :
  Forall (fun x => exists y, f x = Ok y) l ->
  exists out, for_each l (fun acc x => y <- f x ;; Ok (acc ++ [g y])) acc = Ok out.
Proof.
  revert acc; induction l as [|x l IH]; simpl; intros acc Hl; [eauto|].
  inversion Hl as [|? ? (y & Hy) Hl']; subst. rewrite Hy; simpl. apply IH; exact Hl'.
Qed.

(** ** The Windowed Correlation Engine: one window *)

Section OneWindow.
Variable stock_data : dict DataFrame.
Variable window_size : Z.
Variable win_num : nat.
Variable n : nat.

Let cell (i j : nat) : result float :=
  Cij_num_win stock_data (keys stock_data) window_size win_num i j.

(** The value of a pair, from the chunks of its two instruments. *)
Lemma Cij_of_chunks (i j : nat) (chunk_i chunk_j : list float) :
  instrument_chunk stock_data window_size win_num i = Ok chunk_i ->
  instrument_chunk stock_data window_size win_num j = Ok chunk_j ->
  cell i j = pair_value chunk_i chunk_j.
Proof.
  unfold instrument_chunk, cell, Cij_num_win, pair_value. intros Hi Hj.
  apply bind_Ok_inv in Hi as (name_i & -> & Hi); simpl.
  apply bind_Ok_inv in Hi as (df_i & -> & Hi); simpl.
  apply bind_Ok_inv in Hj as (name_j & -> & Hj); simpl.
  apply bind_Ok_inv in Hj as (df_j & -> & Hj); simpl.
  apply bind_Ok_inv in Hi as (s_i & -> & Hi); simpl.
  apply bind_Ok_inv in Hi as (w_i & -> & Hi); simpl.
  apply bind_Ok_inv in Hj as (s_j & -> & Hj); simpl.
  apply bind_Ok_inv in Hj as (w_j & -> & Hj); simpl.
  rewrite Hi, Hj; simpl.
  destruct (1 <? length chunk_i)%nat; reflexivity.
Qed.

(** A pair that has a value has the chunk of its first instrument; the
    second chunk is read only behind the first length test. *)
Lemma Cij_first_chunk (i j : nat) (v : float) :
  cell i j = Ok v ->
  exists chunk_i,
    instrument_chunk stock_data window_size win_num i = Ok chunk_i /\
    ((1 <? length chunk_i)%nat = true ->
     exists chunk_j,
       instrument_chunk stock_data window_size win_num j = Ok chunk_j).
Proof.
  unfold instrument_chunk, cell, Cij_num_win. intros H.
  apply bind_Ok_inv in H as (name_i & -> & H); simpl.
  apply bind_Ok_inv in H as (df_i & -> & H); simpl.
  apply bind_Ok_inv in H as (name_j & -> & H); simpl.
  apply bind_Ok_inv in H as (df_j & -> & H); simpl.
  apply bind_Ok_inv in H as (s_i & -> & H); simpl.
  apply bind_Ok_inv in H as (w_i & -> & H); simpl.
  apply bind_Ok_inv in H as (s_j & -> & H); simpl.
  apply bind_Ok_inv in H as (w_j & -> & H); simpl.
  apply bind_Ok_inv in H as (chunk_i & -> & H); simpl.
  exists chunk_i. split; [reflexivity|]. intros Hlen. rewrite Hlen in H.
  apply bind_Ok_inv in H as (chunk_j & -> & H). eauto.
Qed.

(** One pass of the inner loop writes the value of the pair in the two
    mirrored cells and nowhere else. *)
Lemma fill_cell_spec (m m' : matrix) (i j : nat) :
  square n m ->
  fill_cell stock_data (keys stock_data) window_size win_num i m j = Ok m' ->
  exists v,
    cell i j = Ok v /\ i < n /\ j < n /\ square n m' /\
    forall a b, get_item m' a b =
                if ((a =? i)%nat && (b =? j)%nat) || ((a =? j)%nat && (b =? i)%nat)
                then Some v else get_item m a b.
Proof.
  intros Hsq H. unfold fill_cell in H.
  apply bind_Ok_inv in H as (v & Hv & H).
  apply bind_Ok_inv in H as (m1 & H1 & H2).
  destruct (set_item_spec _ _ _ _ _ _ Hsq H1) as (Hi & Hj & Hsq1 & G1).
  destruct (set_item_spec _ _ _ _ _ _ Hsq1 H2) as (_ & _ & Hsq2 & G2).
  exists v. split; [exact Hv|]. split; [exact Hi|]. split; [exact Hj|].
  split; [exact Hsq2|]. intros a b. rewrite G2, G1.
  destruct ((a =? j)%nat && (b =? i)%nat), ((a =? i)%nat && (b =? j)%nat); reflexivity.
Qed.

Lemma fill_cell_total (m : matrix) (i j : nat) (v : float) :
  square n m -> i < n -> j < n -> cell i j = Ok v ->
  exists m', fill_cell stock_data (keys stock_data) window_size win_num i m j = Ok m'
             /\ square n m'.
Proof.
  intros Hsq Hi Hj Hv. unfold fill_cell. fold (cell i j). rewrite Hv; simpl.
  destruct (set_item_total _ _ _ _ v Hsq Hi Hj) as (m1 & E1). rewrite E1; simpl.
  destruct (set_item_spec _ _ _ _ _ _ Hsq E1) as (_ & _ & Hsq1 & _).
  destruct (set_item_total _ _ _ _ v Hsq1 Hj Hi) as (m2 & E2). rewrite E2.
  destruct (set_item_spec _ _ _ _ _ _ Hsq1 E2) as (_ & _ & Hsq2 & _). eauto.
Qed.

(** *** Symmetry *)

Lemma fill_cell_symmetric (m m' : matrix) (i j : nat) :
  square n m /\ symmetric m ->
  fill_cell stock_data (keys stock_data) window_size win_num i m j = Ok m' ->
  square n m' /\ symmetric m'.
Proof.
  intros [Hsq Hsym] H.
  destruct (fill_cell_spec _ _ _ _ Hsq H) as (v & _ & _ & _ & Hsq' & G).
  split; [exact Hsq'|]. intros a b. rewrite !G, (Hsym a b).
  rewrite (orb_comm ((a =? i)%nat && (b =? j)%nat)).
  rewrite (andb_comm (a =? j)%nat), (andb_comm (a =? i)%nat). reflexivity.
Qed.

Lemma zeros_symmetric : symmetric (zeros n n).
Proof.
  intros a b. rewrite !zeros_get_item, andb_comm. reflexivity.
Qed.

Lemma window_matrix_symmetric (m : matrix) :
  window_matrix stock_data (keys stock_data) window_size n win_num = Ok m ->
  square n m /\ symmetric m.
Proof.
  unfold window_matrix.
  apply (for_each_invariant (fun m => square n m /\ symmetric m)).
  - intros m0 i m1 Hinv. unfold fill_row.
    apply (for_each_invariant (fun m => square n m /\ symmetric m)); [|exact Hinv].
    intros m2 j m3. apply fill_cell_symmetric.
  - split; [apply zeros_square | apply zeros_symmetric].
Qed.

(** *** Contents *)

Lemma fill_cell_filled (m m' : matrix) (i j : nat) :
  i <= j -> filled stock_data window_size win_num n i j m ->
  fill_cell stock_data (keys stock_data) window_size win_num i m j = Ok m' ->
  filled stock_data window_size win_num n i (S j) m'.
Proof.
  intros Hij [Hsq Hf] H.
  destruct (fill_cell_spec _ _ _ _ Hsq H) as (v & Hv & Hi & Hj & Hsq' & G).
  split; [exact Hsq'|]. intros a b Hab Hb Hwhere.
  destruct (Nat.eq_dec a i) as [->|Hai]; [destruct (Nat.eq_dec b j) as [->|Hbj]|].
  - exists v. rewrite !G, !Nat.eqb_refl; simpl.
    rewrite orb_true_r. auto.
  - destruct (Hf i b Hab Hb) as (v0 & Hv0 & G1 & G2); [lia|].
    exists v0. rewrite !G, G1, G2. rewrite Nat.eqb_refl.
    destruct (Nat.eqb_spec b j) as [?|_]; [contradiction|]. simpl.
    destruct (Nat.eqb_spec i j) as [?|_]; simpl.
    + destruct (Nat.eqb_spec b i) as [?|_]; [lia | auto].
    + rewrite andb_false_r. auto.
  - destruct (Hf a b Hab Hb) as (v0 & Hv0 & G1 & G2); [lia|].
    exists v0. rewrite !G, G1, G2.
    destruct (Nat.eqb_spec a i) as [?|_]; [contradiction|]. simpl.
    rewrite andb_false_r; simpl.
    destruct (Nat.eqb_spec a j) as [?|_]; [lia|]. simpl.
    rewrite andb_false_r. auto.
Qed.

Lemma fill_row_filled_from (i : nat) (k j0 : nat) (m m' : matrix) :
  j0 + k = n -> i <= j0 -> filled stock_data window_size win_num n i j0 m ->
  for_each (seq j0 k)
    (fill_cell stock_data (keys stock_data) window_size win_num i) m = Ok m' ->
  filled stock_data window_size win_num n i n m'.
Proof.
  revert j0 m; induction k as [|k IH]; intros j0 m Hn Hij Hf H; simpl in H.
  - injection H as <-. replace j0 with n in Hf by lia. exact Hf.
  - apply bind_Ok_inv in H as (m1 & H1 & H2).
    apply (IH (S j0) m1); [lia | lia | | exact H2].
    eapply fill_cell_filled; eauto.
Qed.

Lemma filled_next_row (i : nat) (m : matrix) :
  filled stock_data window_size win_num n i n m ->
  filled stock_data window_size win_num n (S i) (S i) m.
Proof.
  intros [Hsq Hf]. split; [exact Hsq|]. intros a b Hab Hb Hw. apply Hf; lia.
Qed.

Lemma fill_rows_filled_from (k i : nat) (m m' : matrix) :
  i + k = n -> filled stock_data window_size win_num n i i m ->
  for_each (seq i k)
    (fill_row stock_data (keys stock_data) window_size win_num n) m = Ok m' ->
  filled stock_data window_size win_num n n n m'.
Proof.
  revert i m; induction k as [|k IH]; intros i m Hn Hf H; simpl in H.
  - injection H as <-. replace i with n in Hf by lia. exact Hf.
  - apply bind_Ok_inv in H as (m1 & H1 & H2).
    apply (IH (S i) m1); [lia | | exact H2].
    apply filled_next_row. unfold fill_row, range2 in H1.
    eapply (fill_row_filled_from i (n - i) i); [lia | lia | exact Hf | exact H1].
Qed.

(** When the matrix of a window is built, every pair has a value, and the
    value sits in both mirrored cells. *)
Lemma window_matrix_contents (m : matrix) :
  window_matrix stock_data (keys stock_data) window_size n win_num = Ok m ->
  square n m /\ forall a b, a <= b -> b < n -> cell_ok stock_data window_size win_num m a b.
Proof.
  unfold window_matrix, range2. rewrite Nat.sub_0_r. intros H.
  apply (fill_rows_filled_from n 0) in H; [|lia|].
  - destruct H as [Hsq Hf]. split; [exact Hsq|]. intros a b Hab Hb.
    apply Hf; lia.
  - split; [apply zeros_square|]. intros a b _ _ [Hlt|[_ Hlt]]; lia.
Qed.

(** The matrix of a window is built when every pair has a value. *)
Lemma window_matrix_total :
  (forall i j, i <= j -> j < n -> exists v, cell i j = Ok v) ->
  exists m, window_matrix stock_data (keys stock_data) window_size n win_num = Ok m.
Proof.
  intros Hcell. unfold window_matrix.
  destruct (for_each_total (square n) (fun i => i < n)
              (fill_row stock_data (keys stock_data) window_size win_num n))
    with (l := range2 0 n) (b := zeros n n) as (m & E & _).
  - intros m i Hsq Hi. unfold fill_row.
    apply (for_each_total (square n) (fun j => i <= j /\ j < n)).
    + intros m0 j Hsq0 [Hij Hj]. destruct (Hcell i j Hij Hj) as (v & Hv).
      eapply fill_cell_total; eauto.
    + exact Hsq.
    + apply Forall_forall. intros j Hj. unfold range2 in Hj.
      apply in_seq in Hj. lia.
  - apply zeros_square.
  - apply Forall_forall. intros i Hi. unfold range2 in Hi. apply in_seq in Hi. lia.
  - eauto.
Qed.

End OneWindow.

(** ** The Windowed Correlation Engine: all windows *)

Lemma Forall2_nth_error_r {A B : Type} (R : A -> B -> Prop) (l1 : list A) (l2 : list B)
  (k : nat) (y : B) :
  Forall2 R l1 l2 -> nth_error l2 k = Some y ->
  exists x, nth_error l1 k = Some x /\ R x y.
Proof.
  intros H; revert k; induction H as [|x0 y0 l1 l2 HR H IH]; intros [|k]; simpl;
    try discriminate.
  - intros E; injection E as <-. eauto.
  - apply IH.
Qed.

Lemma dict_get_head {V : Type} (name : string) (v : V) (rest : dict V) :
  dict_get ((name, v) :: rest) name = Ok v.
Proof.
  simpl. rewrite String.eqb_refl. reflexivity.
Qed.

(** Looking up one of the dictionary's own keys gives one of its values. *)
Lemma dict_get_keys {V : Type} (d : dict V) (i : nat) (name : string) :
  nth_error (keys d) i = Some name ->
  exists v, dict_get d name = Ok v /\ In v (map snd d).
Proof.
  revert i; induction d as [|[k v] d IH]; intros i H.
  - destruct i; discriminate.
  - simpl. destruct (String.eqb k name) eqn:E; [eauto|].
    destruct i as [|i]; simpl in H.
    + injection H as ->. rewrite String.eqb_refl in E. discriminate.
    + destruct (IH i H) as (v' & E' & Hin). eauto.
Qed.

(** With a first company, the engine is the loop over the windows counted on
    that company's series. *)
Lemma engine_first (name : string) (df : DataFrame) (rest : dict DataFrame)
  (window_size : Z) :
  let stock_data := (name, df) :: rest in
  calculate_correlation_matrices_per_window stock_data window_size =
  (windows_count <- floordiv (Z.of_nat (length (Normalized_Return df))) window_size ;;
   for_each (range windows_count)
     (fun correlation_matrices win_num =>
        correlation_matrix <-
          window_matrix stock_data (keys stock_data) window_size
            (length (keys stock_data)) win_num ;;
        Ok (correlation_matrices ++ [frame_of (keys stock_data) correlation_matrix]))
     []).
Proof.
  intros stock_data. unfold calculate_correlation_matrices_per_window.
  change (list_index (keys stock_data) 0) with (Ok (A:=string) name). cbn [bind].
  change (dict_get stock_data name) with (dict_get ((name, df) :: rest) name).
  rewrite dict_get_head. reflexivity.
Qed.

(** What a returned list of matrices tells: there is a first company, the
    window size is not 0, and matrix number [w] is the one built for window
    [w], for every [w] below the count. *)
Lemma engine_inv (stock_data : dict DataFrame) (window_size : Z)
  (ms : list CorrelationFrame) :
  calculate_correlation_matrices_per_window stock_data window_size = Ok ms ->
  exists name df rest mats,
    stock_data = (name, df) :: rest /\
    window_size <> 0%Z /\
    Forall2 (fun w m =>
               window_matrix stock_data (keys stock_data) window_size
                 (length (keys stock_data)) w = Ok m)
            (range (Z.of_nat (length (Normalized_Return df)) / window_size)) mats /\
    ms = map (frame_of (keys stock_data)) mats.
Proof.
  destruct stock_data as [|[name df] rest]; [discriminate|].
  rewrite engine_first. intros H.
  apply bind_Ok_inv in H as (count & Hc & H).
  unfold floordiv in Hc. destruct (Z.eqb_spec window_size 0) as [|Hne]; [discriminate|].
  injection Hc as <-.
  apply for_each_collect in H as (mats & HF & ->).
  exists name, df, rest, mats. auto.
Qed.

(** C10: on an empty mapping the engine raises [IndexError], at
    [company_names[0]], whatever the window size: it does not return an empty
    list. *)
Theorem engine_empty_raises (window_size : Z) :
  calculate_correlation_matrices_per_window [] window_size = Raise IndexError /\
  calculate_correlation_matrices_per_window [] window_size <> Ok [].
Proof.
  split; [reflexivity | discriminate].
Qed.

(** Every instrument has its chunk [win_num] when all series have the same
    length [L] and the window is below the count. *)
Lemma instrument_chunk_total (stock_data : dict DataFrame) (window_size : Z)
  (L win_num i : nat) :
  (0 < window_size)%Z ->
  Forall (fun df => len df = L) (map snd stock_data) ->
  i < length stock_data ->
  win_num < Z.to_nat (Z.of_nat L / window_size) ->
  exists chunk,
    instrument_chunk stock_data window_size win_num i = Ok chunk /\
    length chunk = chunk_size L (Z.to_nat (Z.of_nat L / window_size)) win_num.
Proof.
  intros HW Hall Hi Hw. unfold instrument_chunk, list_index.
  destruct (nth_error (keys stock_data) i) as [name|] eqn:En.
  2:{ apply nth_error_None in En. unfold keys in En. rewrite length_map in En. lia. }
  cbn [bind]. destruct (dict_get_keys _ _ _ En) as (df & -> & Hin). cbn [bind].
  rewrite Forall_forall in Hall. specialize (Hall df Hin).
  unfold floordiv. destruct (Z.eqb_spec window_size 0) as [|_]; [lia|]. cbn [bind].
  rewrite Hall.
  assert (Hpos : (0 < Z.of_nat L / window_size)%Z) by lia.
  destruct (array_split_nth (Normalized_Return df) _ _ Hpos Hw) as (ws & -> & Ek & Hb).
  cbn [bind]. rewrite Ek. eexists; split; [reflexivity|].
  unfold len in Hall. rewrite Hall in *.
  rewrite length_firstn, length_skipn. lia.
Qed.

Lemma corrcoef01_same_length (x y : list float) :
  length x = length y -> exists v, np.corrcoef01 x y = Ok v.
Proof.
  intros E. unfold np.corrcoef01. rewrite E, Nat.eqb_refl. eauto.
Qed.

Lemma corrcoef01_Ok_length (x y : list float) (v : float) :
  np.corrcoef01 x y = Ok v -> length x = length y.
Proof.
  unfold np.corrcoef01. destruct (Nat.eqb_spec (length x) (length y)); [auto|discriminate].
Qed.

Lemma range_nth_error (c : Z) (w x : nat) :
  nth_error (range c) w = Some x -> x = w /\ w < Z.to_nat c.
Proof.
  unfold range. intros H.
  assert (Hw : w < length (seq 0 (Z.to_nat c))) by (apply nth_error_Some; congruence).
  rewrite length_seq in Hw. split; [|exact Hw].
  rewrite (nth_error_nth' _ 0) in H by (rewrite length_seq; exact Hw).
  rewrite seq_nth in H by exact Hw. injection H as <-. reflexivity.
Qed.

(** C1: for a positive window size, whenever the engine returns it returns
    exactly [L // window_size] matrices, [L] being the length of the first
    company's normalized series; and it does return when the mapping is not
    empty and all its series have the first one's length [L], so that 440
    rows and a window of 44 (the default the main script runs with) give
    exactly 10 matrices. *)
Theorem engine_windows_count (stock_data : dict DataFrame) (window_size : Z) :
  (0 < window_size)%Z ->
  (forall ms,
      calculate_correlation_matrices_per_window stock_data window_size = Ok ms ->
      exists name df rest,
        stock_data = (name, df) :: rest /\
        Z.of_nat (length ms)
        = (Z.of_nat (length (Normalized_Return df)) / window_size)%Z) /\
  (forall L,
      stock_data <> [] ->
      Forall (fun df => length (Normalized_Return df) = L) (map snd stock_data) ->
      exists ms,
        calculate_correlation_matrices_per_window stock_data window_size = Ok ms /\
        Z.of_nat (length ms) = (Z.of_nat L / window_size)%Z /\
        (L = 440 -> window_size = 44%Z -> length ms = 10)) /\
  window_size_correlation = 44%Z.
Proof.
  intros HW. split; [|split; [|reflexivity]].
  - intros ms H. apply engine_inv in H as (name & df & rest & mats & -> & _ & HF & ->).
    exists name, df, rest. split; [reflexivity|].
    rewrite length_map, <- (Forall2_length HF). unfold range. rewrite length_seq.
    apply Z2Nat.id. apply Z.div_pos; lia.
  - intros L Hne Hall.
    destruct stock_data as [|[name df] rest] eqn:Esd; [contradiction|].
    rewrite <- Esd in *.
    assert (HL : length (Normalized_Return df) = L).
    { rewrite Esd in Hall. simpl in Hall. inversion Hall; assumption. }
    assert (Hrun : exists ms,
               calculate_correlation_matrices_per_window stock_data window_size = Ok ms).
    { rewrite Esd, engine_first, <- Esd. unfold floordiv.
      destruct (Z.eqb_spec window_size 0) as [|_]; [lia|]. cbn [bind]. rewrite HL.
      apply for_each_collect_total with (g := frame_of (keys stock_data)).
      apply Forall_forall. intros w Hw. unfold range in Hw. apply in_seq in Hw.
      apply window_matrix_total. intros i j Hij Hj.
      unfold keys in Hj. rewrite length_map in Hj.
      destruct (instrument_chunk_total stock_data window_size L w i HW Hall)
        as (ci & Eci & Hci); [lia | lia |].
      destruct (instrument_chunk_total stock_data window_size L w j HW Hall)
        as (cj & Ecj & Hcj); [lia | lia |].
      rewrite (Cij_of_chunks _ _ _ _ _ _ _ Eci Ecj). unfold pair_value.
      destruct ((1 <? length ci)%nat && (1 <? length cj)%nat); [|eauto].
      apply corrcoef01_same_length. congruence. }
    destruct Hrun as (ms & Hms). exists ms. split; [exact Hms|].
    pose proof Hms as H.
    apply engine_inv in H as (name' & df' & rest' & mats & E' & _ & HF & ->).
    rewrite Esd in E'. injection E' as <- <- <-.
    assert (Hlen : Z.of_nat (length (map (frame_of (keys stock_data)) mats))
                   = (Z.of_nat L / window_size)%Z).
    { rewrite length_map, <- (Forall2_length HF). unfold range. rewrite length_seq, HL.
      apply Z2Nat.id. apply Z.div_pos; lia. }
    split; [exact Hlen|]. intros -> ->. change (Z.of_nat 440 / 44)%Z with 10%Z in Hlen. lia.
Qed.

Lemma engine_windows_count_witness :
  exists ms,
    calculate_correlation_matrices_per_window sample_stock_data 2 = Ok ms /\
    Z.of_nat (length ms) = (Z.of_nat 4 / 2)%Z.
Proof.
  destruct (engine_windows_count sample_stock_data 2 ltac:(lia)) as (_ & H & _).
  destruct (H 4) as (ms & E & Hl & _).
  - discriminate.
  - repeat constructor.
  - exists ms. split; [exact E | exact Hl].
Defined.

(** C4: every matrix the engine returns is symmetric: cells [(i, j)] and
    [(j, i)] hold the same value, for all indices; within the matrix both
    cells are filled. *)
Theorem engine_matrices_symmetric (stock_data : dict DataFrame) (window_size : Z)
  (ms : list CorrelationFrame) (M : CorrelationFrame) :
  calculate_correlation_matrices_per_window stock_data window_size = Ok ms ->
  In M ms ->
  (forall i j, get_item (values M) i j = get_item (values M) j i) /\
  (forall i j, i < length stock_data -> j < length stock_data ->
     exists v, get_item (values M) i j = Some v /\ get_item (values M) j i = Some v).
Proof.
  intros H HM.
  apply engine_inv in H as (name & df & rest & mats & Esd & _ & HF & ->).
  apply in_map_iff in HM as (m & <- & Hm).
  apply In_nth_error in Hm as (w & Hw).
  destruct (Forall2_nth_error_r _ _ _ _ _ HF Hw) as (w' & _ & Hbuild).
  apply window_matrix_symmetric in Hbuild as [Hsq Hsym].
  split; [exact Hsym|]. intros i j Hi Hj. simpl.
  unfold keys in Hsq. rewrite length_map in Hsq.
  destruct (square_get_item _ _ i j Hsq Hi Hj) as (v & Hv).
  exists v. split; [exact Hv|]. rewrite <- Hsym. exact Hv.
Qed.

Lemma engine_matrices_symmetric_witness :
  exists ms M,
    calculate_correlation_matrices_per_window sample_stock_data 2 = Ok ms /\
    nth_error ms 1 = Some M /\
    get_item (values M) 0 1 = get_item (values M) 1 0.
Proof.
  destruct (calculate_correlation_matrices_per_window sample_stock_data 2)
    as [ms|e] eqn:E; [|vm_compute in E; discriminate].
  destruct (nth_error ms 1) as [M|] eqn:EM;
    [|vm_compute in E; injection E as <-; discriminate].
  exists ms, M. split; [reflexivity|]. split; [exact EM|].
  apply (engine_matrices_symmetric sample_stock_data 2 ms M E).
  eapply nth_error_In; exact EM.
Defined.

(** The two cells of a pair in the matrix of window [w] hold the value of
    the pair of chunks. *)
Lemma engine_pair_cells (stock_data : dict DataFrame) (window_size : Z)
  (ms : list CorrelationFrame) (w : nat) (M : CorrelationFrame) (i j : nat) :
  calculate_correlation_matrices_per_window stock_data window_size = Ok ms ->
  nth_error ms w = Some M ->
  i <= j -> j < length stock_data ->
  exists chunk_i chunk_j v,
    instrument_chunk stock_data window_size w i = Ok chunk_i /\
    instrument_chunk stock_data window_size w j = Ok chunk_j /\
    pair_value chunk_i chunk_j = Ok v /\
    get_item (values M) i j = Some v /\
    get_item (values M) j i = Some v.
Proof.
  intros H HM Hij Hj.
  apply engine_inv in H as (name & df & rest & mats & Esd & _ & HF & ->).
  rewrite nth_error_map in HM.
  destruct (nth_error mats w) as [m|] eqn:Hw; [|discriminate].
  injection HM as <-. simpl.
  destruct (Forall2_nth_error_r _ _ _ _ _ HF Hw) as (w' & Hw' & Hbuild).
  apply range_nth_error in Hw' as [-> _].
  apply window_matrix_contents in Hbuild as [Hsq Hcells].
  unfold keys in Hcells. rewrite length_map in Hcells.
  destruct (Hcells i i (le_n i) ltac:(lia)) as (vi & Hvi & _).
  destruct (Hcells j j (le_n j) Hj) as (vj & Hvj & _).
  destruct (Hcells i j Hij Hj) as (v & Hv & G1 & G2).
  destruct (Cij_first_chunk _ _ _ _ _ _ Hvi) as (ci & Eci & _).
  destruct (Cij_first_chunk _ _ _ _ _ _ Hvj) as (cj & Ecj & _).
  rewrite (Cij_of_chunks _ _ _ _ _ _ _ Eci Ecj) in Hv.
  exists ci, cj, v. auto.
Qed.

(** C5: in the matrix of window [w], the cells of a pair of instruments hold
    the value [np.corrcoef] gives chunk [w] of the first and chunk [w] of the
    second when both chunks have more than one element, and NaN otherwise;
    so two chunks of exactly one element give NaN. *)
Theorem engine_entry_value (stock_data : dict DataFrame) (window_size : Z)
  (ms : list CorrelationFrame) (w : nat) (M : CorrelationFrame) (i j : nat) :
  calculate_correlation_matrices_per_window stock_data window_size = Ok ms ->
  nth_error ms w = Some M ->
  i <= j -> j < length stock_data ->
  exists chunk_i chunk_j v,
    instrument_chunk stock_data window_size w i = Ok chunk_i /\
    instrument_chunk stock_data window_size w j = Ok chunk_j /\
    get_item (values M) i j = Some v /\
    get_item (values M) j i = Some v /\
    (if (1 <? length chunk_i)%nat && (1 <? length chunk_j)%nat
     then np.corrcoef01 chunk_i chunk_j = Ok v
     else v = nan) /\
    (length chunk_i = 1 -> length chunk_j = 1 -> v = nan).
Proof.
  intros H HM Hij Hj.
  destruct (engine_pair_cells _ _ _ _ _ _ _ H HM Hij Hj)
    as (ci & cj & v & Eci & Ecj & Hv & G1 & G2).
  exists ci, cj, v. unfold pair_value in Hv.
  split; [exact Eci|]. split; [exact Ecj|]. split; [exact G1|]. split; [exact G2|].
  split.
  - destruct ((1 <? length ci)%nat && (1 <? length cj)%nat);
      [exact Hv | congruence].
  - intros E1 E2. rewrite E1, E2 in Hv. simpl in Hv. congruence.
Qed.

Lemma engine_entry_value_witness :
  exists ms M v,
    calculate_correlation_matrices_per_window sample_stock_data 1 = Ok ms /\
    nth_error ms 0 = Some M /\
    get_item (values M) 0 1 = Some v /\ v = nan.
Proof.
  destruct (calculate_correlation_matrices_per_window sample_stock_data 1)
    as [ms|e] eqn:E; [|vm_compute in E; discriminate].
  destruct (nth_error ms 0) as [M|] eqn:EM;
    [|vm_compute in E; injection E as <-; discriminate].
  destruct (engine_entry_value sample_stock_data 1 ms 0 M 0 1 E EM)
    as (ci & cj & v & Eci & Ecj & G & _ & _ & Hnan).
  - lia.
  - simpl; lia.
  - exists ms, M, v. split; [reflexivity|]. split; [exact EM|]. split; [exact G|].
    vm_compute in Eci. injection Eci as <-.
    vm_compute in Ecj. injection Ecj as <-.
    apply Hnan; reflexivity.
Defined.

(** ** IEEE-754 facts about [float64] *)

Lemma SFcompare_refl_finite (s : bool) (m : positive) (e : Z) :
  SFcompare (S754_finite s m e) (S754_finite s m e) = Some Eq.
Proof.
  simpl. rewrite Z.compare_refl, Pos.compare_cont_refl. destruct s; reflexivity.
Qed.

Lemma is_finite_SF (x : float) : is_finite x = SF_finite (Prim2SF x).
Proof.
  unfold is_finite, is_nan, is_infinity. rewrite !eqb_spec, abs_spec.
  change (Prim2SF infinity) with (S754_infinity false).
  destruct (Prim2SF x) as [s|s| |s m e]; try reflexivity.
  - destruct s; reflexivity.
  - unfold SFeqb at 1. rewrite SFcompare_refl_finite. reflexivity.
Qed.

Lemma is_zero_SF (x : float) : (x =? 0)%float = SF_zero (Prim2SF x).
Proof.
  rewrite eqb_spec. change (Prim2SF 0) with (S754_zero false).
  destruct (Prim2SF x) as [s|s| |s m e]; try reflexivity; destruct s; reflexivity.
Qed.

Lemma is_nan_SF (x : float) : Prim2SF x = S754_nan -> x = nan.
Proof.
  intros H. apply Prim2SF_inj. rewrite H. reflexivity.
Qed.

Lemma add_nonfinite_l (x y : float) :
  is_finite x = false -> is_finite (x + y) = false.
Proof.
  rewrite !is_finite_SF, add_spec.
  float_cases x; float_cases y; simpl; congruence.
Qed.

Lemma add_nonfinite_r (x y : float) :
  is_finite y = false -> is_finite (x + y) = false.
Proof.
  rewrite !is_finite_SF, add_spec.
  float_cases x; float_cases y; simpl; congruence.
Qed.

Lemma sub_nonfinite_l (x y : float) :
  is_finite x = false -> is_finite (x - y) = false.
Proof.
  rewrite !is_finite_SF, sub_spec.
  float_cases x; float_cases y; simpl; congruence.
Qed.

Lemma sub_nonfinite_r (x y : float) :
  is_finite y = false -> is_finite (x - y) = false.
Proof.
  rewrite !is_finite_SF, sub_spec.
  float_cases x; float_cases y; simpl; congruence.
Qed.

Lemma mul_nonfinite_l (x y : float) :
  is_finite x = false -> is_finite (x * y) = false.
Proof.
  rewrite !is_finite_SF, mul_spec.
  float_cases x; float_cases y; simpl; congruence.
Qed.

Lemma div_nonfinite_l (x y : float) :
  is_finite x = false -> is_finite (x / y) = false.
Proof.
  rewrite !is_finite_SF, div_spec.
  float_cases x; float_cases y; simpl; congruence.
Qed.

Lemma div_zero_nonfinite (x y : float) :
  (y =? 0)%float = true -> is_finite (x / y) = false.
Proof.
  rewrite is_finite_SF, is_zero_SF, div_spec.
  float_cases x; float_cases y; simpl; congruence.
Qed.

Lemma div_nonfinite_nan (x y : float) :
  is_finite x = false -> is_finite y = false -> (x / y)%float = nan.
Proof.
  rewrite !is_finite_SF. intros Hx Hy. apply is_nan_SF. rewrite div_spec.
  revert Hx Hy. float_cases x; float_cases y; simpl; congruence.
Qed.

Lemma sqrt_nonfinite (x : float) :
  is_finite x = false -> is_finite (sqrt x) = false.
Proof.
  rewrite !is_finite_SF, sqrt_spec.
  float_cases x; simpl; congruence.
Qed.

Local Open Scope Z_scope.
Lemma div_eucl_pow (a b : Z) : 0 < b -> Z.div_eucl (a * b) b = (a, 0).
Proof.
  intros Hb. pose proof (Z.div_mul a b ltac:(lia)) as Hq.
  pose proof (Z.mod_mul a b ltac:(lia)) as Hr.
  unfold Z.div, Z.modulo in *. destruct (Z.div_eucl (a * b) b) as [q r].
  congruence.
Qed.

Lemma SFdiv_one (s : bool) (m : positive) (e : Z) :
  valid_binary (S754_finite s m e) = true ->
  SF64div (S754_finite s m e) (S754_finite false 4503599627370496 (-52))
  = S754_finite s m e.
Proof.
  unfold valid_binary, bounded, canonical_mantissa, fexp, emin, prec, emax.
  intros H. apply andb_prop in H as [Hc Hb].
  apply Z.eqb_eq in Hc. apply Z.leb_le in Hb.
  set (d := Z.pos (digits2_pos m)) in *.
  assert (Hd : 0 < d) by (unfold d; lia).
  unfold SF64div, SFdiv, SFdiv_core_binary.
  change (Zdigits2 (Z.pos m)) with d.
  change (Zdigits2 4503599627370496) with 53.
  unfold fexp, emin, prec, emax.
  set (e' := IntDef.Z.min _ _).
  assert (He' : (e' = e - 1 /\ d = 53 /\ -1074 < e) \/ e' = e) by (unfold e'; lia).
  rewrite xorb_false_r.
  destruct He' as [(He' & Hd53 & He) | He']; rewrite He'.
  - replace (e - -52 - (e - 1)) with 53 by lia.
    change (IntDef.Z.shiftl (Z.pos m) 53) with (Z.shiftl (Z.pos m) 53).
    rewrite Z.shiftl_mul_pow2 by lia.
    change (2 ^ 53) with (2 * 4503599627370496).
    rewrite Z.mul_assoc.
    change (IntDef.Z.div_eucl) with Z.div_eucl.
    rewrite div_eucl_pow by lia.
    change (new_location 4503599627370496 0) with loc_Exact.
    unfold binary_round_aux, shr_fexp.
    replace (Z.pos m * 2) with (Z.pos m~0) by lia.
    cbn [Zdigits2 digits2_pos]. rewrite Pos2Z.inj_succ. fold d.
    replace (fexp 53 1024 (Z.succ d + (e - 1)) - (e - 1)) with 1
      by (unfold fexp, emin; lia).
    cbn [shr shr_record_of_loc iter_pos shr_1 orb shr_m loc_of_shr_record
         round_nearest_even Zdigits2].
    fold d.
    replace (fexp 53 1024 (d + (e - 1 + 1)) - (e - 1 + 1)) with 0
      by (unfold fexp, emin; lia).
    cbn [shr shr_m].
    replace (e - 1 + 1) with e by lia.
    destruct (Z.leb_spec e (1024 - 53)); [reflexivity | lia].
  - replace (e - -52 - e) with 52 by lia.
    change (IntDef.Z.shiftl (Z.pos m) 52) with (Z.shiftl (Z.pos m) 52).
    rewrite Z.shiftl_mul_pow2 by lia.
    change (2 ^ 52) with 4503599627370496.
    change (IntDef.Z.div_eucl) with Z.div_eucl.
    rewrite div_eucl_pow by lia.
    change (new_location 4503599627370496 0) with loc_Exact.
    unfold binary_round_aux, shr_fexp.
    cbn [Zdigits2]. fold d.
    replace (fexp 53 1024 (d + e) - e) with 0 by (unfold fexp, emin; lia).
    cbn [shr shr_record_of_loc shr_m loc_of_shr_record round_nearest_even Zdigits2].
    fold d.
    replace (fexp 53 1024 (d + e) - e) with 0 by (unfold fexp, emin; lia).
    cbn [shr shr_m].
    destruct (Z.leb_spec e (1024 - 53)); [reflexivity | lia].
Qed.

Lemma div_one (x : float) : (x / 1)%float = x.
Proof.
  apply Prim2SF_inj. rewrite div_spec.
  change (Prim2SF 1) with (S754_finite false 4503599627370496 (-52)).
  pose proof (Prim2SF_valid x) as Hv.
  destruct (Prim2SF x) as [s|s| |s m e].
  - simpl. rewrite xorb_false_r. reflexivity.
  - simpl. rewrite xorb_false_r. reflexivity.
  - reflexivity.
  - apply SFdiv_one. exact Hv.
Qed.

Local Close Scope Z_scope.

Lemma add_reduce_from_nonfinite (a : list float) (acc : float) :
  is_finite acc = false \/ (exists x, In x a /\ is_finite x = false) ->
  is_finite (fold_left add a acc) = false.
Proof.
  revert acc; induction a as [|y a IH]; intros acc H; simpl.
  - destruct H as [H|(x & [] & _)]; exact H.
  - apply IH. destruct H as [H|(x & [<-|Hin] & Hx)].
    + left. apply add_nonfinite_l; exact H.
    + left. apply add_nonfinite_r; exact Hx.
    + right. eauto.
Qed.

Lemma add_reduce_nonfinite (a : list float) (x : float) :
  In x a -> is_finite x = false -> is_finite (np.add_reduce a) = false.
Proof.
  intros Hin Hx. apply add_reduce_from_nonfinite. right; eauto.
Qed.

Lemma mean_nonfinite (a : list float) (x : float) :
  In x a -> is_finite x = false -> is_finite (np.mean a) = false.
Proof.
  intros Hin Hx. apply div_nonfinite_l. eapply add_reduce_nonfinite; eauto.
Qed.

Lemma std_nonfinite (a : list float) (x : float) :
  In x a -> is_finite x = false -> is_finite (np.std a) = false.
Proof.
  intros Hin Hx. unfold np.std, np.var.
  apply sqrt_nonfinite, div_nonfinite_l.
  apply add_reduce_nonfinite
    with (x := ((x - np.mean a) * (x - np.mean a))%float).
  - rewrite map_map. apply in_map_iff. exists x. split; [reflexivity | exact Hin].
  - apply mul_nonfinite_l, sub_nonfinite_l, Hx.
Qed.

(** One non-finite value makes the whole z-score NaN. *)
Lemma zscore_nonfinite (a : list float) (x : float) :
  In x a -> is_finite x = false -> Forall (fun z => z = nan) (stats.zscore a).
Proof.
  intros Hin Hx. unfold stats.zscore. apply Forall_forall. intros z Hz.
  apply in_map_iff in Hz as (v & <- & _).
  apply div_nonfinite_nan.
  - apply sub_nonfinite_r. eapply mean_nonfinite; eauto.
  - eapply std_nonfinite; eauto.
Qed.

(** A chunk of one element: the deviation from the mean is a zero or NaN, and
    the normalized value is NaN. *)
Lemma per_chunk_normalized_singleton (x : float) :
  per_chunk_normalized [x] = [nan].
Proof.
  unfold per_chunk_normalized, np.std, np.var, np.mean, np.add_reduce.
  cbn [map fold_left length]. change (np.float_of_nat 1) with 1%float.
  rewrite !div_one. f_equal. apply is_nan_SF.
  rewrite div_spec, sqrt_spec, add_spec, mul_spec, sub_spec, add_spec.
  change (Prim2SF 0) with (S754_zero false).
  float_cases x; try reflexivity.
  - cbn [SF64add SFadd SF64sub SFsub]. cbn [cond_Zopp]. rewrite Z.sub_diag. reflexivity.
  - cbn [SF64add SFadd SF64sub SFsub]. cbn [cond_Zopp]. rewrite Z.sub_diag. reflexivity.
Qed.

Lemma SFcompare_antisym (x y : spec_float) (c : comparison) :
  SFcompare x y = Some c -> SFcompare y x = Some (CompOpp c).
Proof.
  destruct x as [sx|sx| |sx mx ex], y as [sy|sy| |sy my ey]; simpl;
    try discriminate;
    try (destruct sx; intros H; injection H as <-; reflexivity);
    try (destruct sy; intros H; injection H as <-; reflexivity);
    try (intros H; injection H as <-; reflexivity).
  - destruct sx, sy; intros H; injection H as <-; reflexivity.
  - rewrite (Z.compare_antisym ex ey).
    replace (Pos.compare_cont Eq my mx) with (CompOpp (Pos.compare_cont Eq mx my))
      by (rewrite Pos.compare_cont_antisym; reflexivity).
    destruct sx, sy; intros H; injection H as <-; try reflexivity;
      destruct (ex ?= ey)%Z; simpl; try reflexivity;
      destruct (Pos.compare_cont Eq mx my); reflexivity.
Qed.

Lemma leb_not_ltb (x y : float) : (x <=? y)%float = true -> (y <? x)%float = false.
Proof.
  rewrite leb_spec, ltb_spec. unfold SFleb, SFltb.
  destruct (SFcompare (Prim2SF x) (Prim2SF y)) as [c|] eqn:E; [|discriminate].
  rewrite (SFcompare_antisym _ _ _ E). destruct c; simpl; congruence.
Qed.

Lemma is_nan_ltb_r (x y : float) : is_nan y = true -> (x <? y)%float = false.
Proof.
  unfold is_nan. rewrite eqb_spec, ltb_spec. unfold SFeqb, SFltb.
  destruct (Prim2SF y) as [s|s| |s m e].
  - discriminate.
  - destruct s; discriminate.
  - intros _. destruct (Prim2SF x); reflexivity.
  - rewrite SFcompare_refl_finite. discriminate.
Qed.

Lemma is_nan_ltb_l (x y : float) : is_nan x = true -> (x <? y)%float = false.
Proof.
  unfold is_nan. rewrite eqb_spec, ltb_spec. unfold SFeqb, SFltb.
  destruct (Prim2SF x) as [s|s| |s m e].
  - discriminate.
  - destruct s; discriminate.
  - reflexivity.
  - rewrite SFcompare_refl_finite. discriminate.
Qed.

(** A clipped value is never above 1 nor below -1. *)
Lemma clip_bounds (x : float) :
  (1 <? np.clip x (-1) 1)%float = false /\ (np.clip x (-1) 1 <? -1)%float = false.
Proof.
  unfold np.clip, np.minimum.
  assert (Hy : (np.maximum x (-1) <? -1)%float = false).
  { unfold np.maximum. destruct (-1 <=? x)%float eqn:E; simpl.
    - apply leb_not_ltb; exact E.
    - destruct (is_nan x) eqn:N; [apply is_nan_ltb_l; exact N | reflexivity]. }
  destruct (np.maximum x (-1) <=? 1)%float eqn:E; simpl.
  - split; [apply leb_not_ltb; exact E | exact Hy].
  - destruct (is_nan (np.maximum x (-1))) eqn:N.
    + split; [apply is_nan_ltb_r; exact N | exact Hy].
    + split; reflexivity.
Qed.

(** ** The Return Series Builder *)

Lemma series_binop_length (f : float -> float -> float) (a b : list float) :
  length (series_binop f a b) = Nat.min (length a) (length b).
Proof.
  unfold series_binop. rewrite length_map. apply length_combine.
Qed.

Lemma series_binop_nth_error (f : float -> float -> float) (a b : list float)
  (t : nat) (x y : float) :
  nth_error a t = Some x -> nth_error b t = Some y ->
  nth_error (series_binop f a b) t = Some (f x y).
Proof.
  unfold series_binop. revert b t; induction a as [|x0 a IH]; intros [|y0 b] [|t];
    simpl; try discriminate.
  - intros E1 E2; injection E1 as ->; injection E2 as ->. reflexivity.
  - apply IH.
Qed.

(** C8: for aligned open and close columns of N prices the return series is
    a function of the two columns with exactly N values, value [t] being
    [(close[t] - open[t]) / open[t]]; where [open[t] == 0] that value is
    non-finite (an infinity or NaN): nothing raises. *)
Theorem return_series_values (df : PriceFrame) :
  length (Close df) = length (Open df) ->
  length (return_series df) = length (Open df) /\
  (forall t o c,
      nth_error (Open df) t = Some o -> nth_error (Close df) t = Some c ->
      nth_error (return_series df) t = Some ((c - o) / o)%float) /\
  (forall t o r,
      nth_error (Open df) t = Some o -> (o =? 0)%float = true ->
      nth_error (return_series df) t = Some r -> is_finite r = false).
Proof.
  intros Hlen. unfold return_series.
  assert (Hnth : forall t o c,
             nth_error (Open df) t = Some o -> nth_error (Close df) t = Some c ->
             nth_error (series_binop div (series_binop sub (Close df) (Open df))
                                     (Open df)) t
             = Some ((c - o) / o)%float).
  { intros t o c Ho Hc. apply series_binop_nth_error; [|exact Ho].
    apply series_binop_nth_error; assumption. }
  split; [|split].
  - rewrite !series_binop_length. lia.
  - exact Hnth.
  - intros t o r Ho Hz Hr.
    destruct (nth_error (Close df) t) as [c|] eqn:Hc.
    + rewrite (Hnth t o c Ho Hc) in Hr. injection Hr as <-.
      apply div_zero_nonfinite; exact Hz.
    + apply nth_error_None in Hc.
      assert (t < length (Open df)) by (apply nth_error_Some; congruence). lia.
Qed.

Lemma return_series_values_witness :
  length (return_series sample_prices) = 3 /\
  nth_error (return_series sample_prices) 0 = Some ((2 - 1) / 1)%float /\
  nth_error (return_series sample_prices) 1 = Some infinity /\
  is_finite infinity = false.
Proof.
  destruct (return_series_values sample_prices eq_refl) as (Hl & Hv & Hz).
  split; [exact Hl|]. split; [apply (Hv 0); reflexivity|].
  split; [reflexivity|].
  apply (Hz 1 0%float infinity); reflexivity.
Defined.

(** ** Degenerate chunks in the Window Normalizer *)

(** A chunk with a zero standard deviation is normalized to non-finite
    values only. *)
Lemma per_chunk_normalized_zero_std (chunk : list float) :
  (np.std chunk =? 0)%float = true ->
  Forall (fun r => is_finite r = false) (per_chunk_normalized chunk).
Proof.
  intros Hz. unfold per_chunk_normalized. apply Forall_forall. intros r Hr.
  apply in_map_iff in Hr as (v & <- & _). apply div_zero_nonfinite; exact Hz.
Qed.

(** One non-finite per-chunk value turns the whole result into NaN. *)
Lemma normalizer_all_nan (returns : list float) (window_size : Z)
  (windows : list (list float)) (chunk : list float) (r : float) :
  np.array_split returns window_size = Ok windows ->
  In chunk windows -> In r (per_chunk_normalized chunk) -> is_finite r = false ->
  exists out,
    calculate_normalized_returns_zero_mean returns window_size = Ok out /\
    Forall (fun z => z = nan) out.
Proof.
  intros E Hc Hr Hnf. eexists. split; [apply normalizer_unfold; exact E|].
  apply zscore_nonfinite with (x := r); [|exact Hnf].
  apply in_concat. exists (per_chunk_normalized chunk). split; [|exact Hr].
  apply in_map; exact Hc.
Qed.

(** C6 (counterexample): the chunk [[0.1; 0.1; 0.1]] is constant, yet its
    computed mean is 0.10000000000000002 and its computed deviation is not 0:
    its per-chunk values are the finite -1, and the whole result of the
    normalizer on [sample_returns] is finite. *)
Lemma constant_chunk_finite_values :
  np.array_split sample_returns 2
  = Ok [[0x1.999999999999ap-4; 0x1.999999999999ap-4; 0x1.999999999999ap-4];
        [1; 2; 3]]%float /\
  per_chunk_normalized
    [0x1.999999999999ap-4; 0x1.999999999999ap-4; 0x1.999999999999ap-4]%float
  = [-1; -1; -1]%float /\
  match calculate_normalized_returns_zero_mean sample_returns 2 with
  | Ok out => forallb is_finite out
  | Raise _ => false
  end = true.
Proof.
  repeat split; vm_compute; reflexivity.
Qed.

(** C6 (amended): a chunk of one element, and any chunk whose computed
    standard deviation is zero, is normalized to non-finite values only; the
    normalizer does not raise on it: for a positive window size it returns a
    result as long as its input, every entry of which is NaN. *)
Theorem degenerate_chunk_nonfinite (returns : list float) (window_size : Z)
  (windows : list (list float)) (chunk : list float) :
  (0 < window_size)%Z ->
  np.array_split returns window_size = Ok windows ->
  In chunk windows ->
  length chunk = 1 \/ (np.std chunk =? 0)%float = true ->
  Forall (fun r => is_finite r = false) (per_chunk_normalized chunk) /\
  exists out,
    calculate_normalized_returns_zero_mean returns window_size = Ok out /\
    length out = length returns /\
    Forall (fun z => z = nan) out.
Proof.
  intros HW E Hin Hdeg.
  assert (Hnf : Forall (fun r => is_finite r = false) (per_chunk_normalized chunk)).
  { destruct Hdeg as [H1|Hz].
    - destruct chunk as [|x [|y chunk]]; try discriminate.
      rewrite per_chunk_normalized_singleton. repeat constructor.
    - apply per_chunk_normalized_zero_std; exact Hz. }
  split; [exact Hnf|].
  assert (Hne : exists r, In r (per_chunk_normalized chunk)).
  { destruct chunk as [|x chunk].
    - destruct Hdeg as [H1|Hz]; [discriminate | vm_compute in Hz; discriminate].
    - eexists. left. reflexivity. }
  destruct Hne as (r & Hr).
  rewrite Forall_forall in Hnf.
  destruct (normalizer_all_nan returns window_size windows chunk r E Hin Hr (Hnf r Hr))
    as (out & Eout & Hnan).
  exists out. split; [exact Eout|]. split; [|exact Hnan].
  destruct (normalizer_length_facts returns window_size HW) as (out' & Eout' & Hl).
  congruence.
Qed.

Lemma degenerate_chunk_nonfinite_witness :
  exists out,
    calculate_normalized_returns_zero_mean [1; 2; 3]%float 3 = Ok out /\
    length out = 3 /\
    Forall (fun z => z = nan) out.
Proof.
  destruct (degenerate_chunk_nonfinite [1; 2; 3]%float 3 [[1]; [2]; [3]]%float [2]%float)
    as (_ & out & E & Hl & Hnan).
  - lia.
  - reflexivity.
  - right; left; reflexivity.
  - left; reflexivity.
  - exists out. split; [exact E|]. split; [exact Hl | exact Hnan].
Defined.

(** ** The diagonal of a correlation matrix *)

Lemma corrcoef01_self (x : list float) :
  np.corrcoef01 x x = Ok (self_correlation x).
Proof.
  unfold np.corrcoef01. rewrite Nat.eqb_refl. reflexivity.
Qed.

(** *** Rounding errors of division and square root

    The specification of [float64] division and square root rounds an
    integer significand with [binary_round_aux].  The lemmas below bound the
    distance of the rounded value to the exact one, over the reals, for
    results in the normal range. *)

Module RoundingError.

Local Open Scope Z_scope.

(** The number of bits of a positive integer. *)
Lemma digits2_pos_bounds (p : positive) :
  2 ^ (Z.pos (digits2_pos p) - 1) <= Z.pos p < 2 ^ Z.pos (digits2_pos p).
Proof.
  induction p as [p IH|p IH|]; cbn [digits2_pos].
  - rewrite Pos2Z.inj_succ.
    replace (Z.succ (Z.pos (digits2_pos p)) - 1)
      with (Z.succ (Z.pos (digits2_pos p) - 1)) by lia.
    rewrite !Z.pow_succ_r by lia. lia.
  - rewrite Pos2Z.inj_succ.
    replace (Z.succ (Z.pos (digits2_pos p)) - 1)
      with (Z.succ (Z.pos (digits2_pos p) - 1)) by lia.
    rewrite !Z.pow_succ_r by lia. lia.
  - simpl. lia.
Qed.

Lemma Zdigits2_unique (x d : Z) :
  0 < d -> 2 ^ (d - 1) <= x < 2 ^ d -> Zdigits2 x = d.
Proof.
  intros Hd [Hlo Hhi].
  assert (Hx : 0 < x) by (pose proof (Z.pow_pos_nonneg 2 (d - 1)); lia).
  destruct x as [|p|p]; try lia. cbn [Zdigits2].
  pose proof (digits2_pos_bounds p) as [Blo Bhi].
  set (d' := Z.pos (digits2_pos p)) in *.
  assert (d' - 1 < d) by (apply (Z.pow_lt_mono_r_iff 2); lia).
  assert (d - 1 < d') by (apply (Z.pow_lt_mono_r_iff 2); lia).
  lia.
Qed.

Lemma shr_1_m (mrs : shr_record) :
  0 <= shr_m mrs -> shr_m (shr_1 mrs) = shr_m mrs / 2.
Proof.
  destruct mrs as [m r s]. destruct m as [|[p|p|]|p]; cbn [shr_1 shr_m]; intros H;
    try reflexivity; try lia.
  - rewrite Pos2Z.inj_xI. apply (Z.div_unique _ 2 _ 1); lia.
  - rewrite Pos2Z.inj_xO. apply (Z.div_unique _ 2 _ 0); lia.
Qed.

Lemma iter_shr_1_m (p : positive) (mrs : shr_record) :
  0 <= shr_m mrs ->
  shr_m (iter_pos shr_1 p mrs) = shr_m mrs / 2 ^ Z.pos p.
Proof.
  revert mrs. induction p as [p IH|p IH|]; intros mrs H; cbn [iter_pos].
  - assert (H1 : 0 <= shr_m (shr_1 mrs)) by (rewrite shr_1_m by exact H; apply Z.div_pos; lia).
    assert (H2 : 0 <= shr_m (iter_pos shr_1 p (shr_1 mrs))).
    { rewrite IH by exact H1. apply Z.div_pos; [exact H1 | apply Z.pow_pos_nonneg; lia]. }
    rewrite IH by exact H2. rewrite IH by exact H1. rewrite shr_1_m by exact H.
    assert (P : 0 < 2 ^ Z.pos p) by (apply Z.pow_pos_nonneg; lia).
    rewrite !Z.div_div by lia. f_equal.
    replace (Z.pos p~1) with (1 + Z.pos p + Z.pos p) by lia.
    rewrite !Z.pow_add_r by lia. lia.
  - assert (H2 : 0 <= shr_m (iter_pos shr_1 p mrs)).
    { rewrite IH by exact H. apply Z.div_pos; [exact H | apply Z.pow_pos_nonneg; lia]. }
    rewrite IH by exact H2. rewrite IH by exact H.
    assert (P : 0 < 2 ^ Z.pos p) by (apply Z.pow_pos_nonneg; lia).
    rewrite !Z.div_div by lia. f_equal.
    replace (Z.pos p~0) with (Z.pos p + Z.pos p) by lia.
    rewrite !Z.pow_add_r by lia. lia.
  - rewrite shr_1_m by exact H. reflexivity.
Qed.

Lemma shr_m_shift (m e n : Z) (l : location) :
  0 <= m -> 0 <= n ->
  shr_m (fst (shr (shr_record_of_loc m l) e n)) = m / 2 ^ n /\
  snd (shr (shr_record_of_loc m l) e n) = e + n.
Proof.
  intros Hm Hn.
  assert (E : shr_m (shr_record_of_loc m l) = m) by (destruct l as [|[]]; reflexivity).
  destruct n as [|p|p]; try lia; cbn [shr fst snd].
  - rewrite E, Z.div_1_r. lia.
  - rewrite iter_shr_1_m by lia. rewrite E. lia.
Qed.

(** The significand after rounding: the [53] leading bits of [mx], or one
    more, renormalized when that reaches [2^53]. *)
Lemma round_nearest_even_cases (m : Z) (l : location) :
  round_nearest_even m l = m \/ round_nearest_even m l = m + 1.
Proof.
  destruct l as [|[]]; cbn [round_nearest_even]; auto.
  destruct (Z.even m); auto.
Qed.

Lemma binary_round_aux_finite (mx ex n : Z) (l : location) :
  0 <= n -> 2 ^ (52 + n) <= mx < 2 ^ (53 + n) ->
  -1074 <= ex + n -> ex + n <= 970 ->
  exists M E T,
    binary_round_aux 53 1024 false mx ex l = S754_finite false M E /\
    2 ^ 52 <= Z.pos M < 2 ^ 53 /\
    2 ^ 52 <= mx / 2 ^ n /\
    (T = mx / 2 ^ n \/ T = mx / 2 ^ n + 1) /\
    ((E = ex + n /\ Z.pos M = T) \/ (E = ex + n + 1 /\ 2 * Z.pos M = T)).
Proof.
  intros Hn [Hlo Hhi] Hemin Hemax.
  assert (P : 0 < 2 ^ n) by (apply Z.pow_pos_nonneg; lia).
  rewrite Z.pow_add_r in Hlo, Hhi by lia.
  set (t := mx / 2 ^ n).
  assert (Ht : 2 ^ 52 <= t < 2 ^ 53).
  { split.
    - apply Z.div_le_lower_bound; lia.
    - apply Z.div_lt_upper_bound; lia. }
  assert (Hmx : 0 <= mx) by nia.
  unfold binary_round_aux, shr_fexp.
  assert (Ed : Zdigits2 mx = 53 + n).
  { apply Zdigits2_unique; [lia|].
    replace (53 + n - 1) with (52 + n) by lia.
    rewrite !Z.pow_add_r by lia. lia. }
  rewrite Ed.
  replace (fexp 53 1024 (53 + n + ex) - ex) with n by (unfold fexp, emin; lia).
  destruct (shr_m_shift mx ex n l Hmx Hn) as [E1 E2].
  destruct (shr (shr_record_of_loc mx l) ex n) as [mrs' e'].
  cbn [fst snd] in E1, E2. fold t in E1. subst e'.
  rewrite E1.
  set (T := round_nearest_even t (loc_of_shr_record mrs')).
  assert (HT : T = t \/ T = t + 1) by apply round_nearest_even_cases.
  change (2 ^ 52) with 4503599627370496 in *.
  change (2 ^ 53) with 9007199254740992 in *.
  destruct (Z.eq_dec T 9007199254740992) as [ET|NT].
  - rewrite ET.
    exists 4503599627370496%positive, (ex + n + 1), T.
    split.
    { cbn [Zdigits2 digits2_pos Pos.succ].
      replace (fexp 53 1024 (54 + (ex + n)) - (ex + n)) with 1 by (unfold fexp, emin; lia).
      cbn [shr shr_record_of_loc iter_pos shr_1 shr_m].
      destruct (Z.leb_spec (ex + n + 1) (1024 - 53)); [reflexivity | lia]. }
    split; [lia|]. split; [lia|]. split; [exact HT|]. right. lia.
  - assert (HTr : 4503599627370496 <= T < 9007199254740992) by lia.
    destruct T as [|M|M] eqn:ETM; try lia.
    exists M, (ex + n), (Z.pos M).
    split.
    { replace (Zdigits2 (Z.pos M)) with 53
        by (symmetry; apply Zdigits2_unique; [lia | simpl; lia]).
      replace (fexp 53 1024 (53 + (ex + n)) - (ex + n)) with 0 by (unfold fexp, emin; lia).
      cbn [shr shr_record_of_loc shr_m].
      destruct (Z.leb_spec (ex + n) (1024 - 53)); [reflexivity | lia]. }
    split; [lia|]. split; [lia|]. split; [exact HT|]. left. lia.
Qed.

Import Reals Lra.
Local Open Scope R_scope.

Lemma pow2_pos (e : Z) : 0 < powerRZ 2 e.
Proof. apply powerRZ_lt. lra. Qed.

Lemma pow2_add (a b : Z) : powerRZ 2 (a + b) = powerRZ 2 a * powerRZ 2 b.
Proof. apply powerRZ_add. lra. Qed.

Lemma IZR_pow2 (n : Z) : (0 <= n)%Z -> IZR (2 ^ n) = powerRZ 2 n.
Proof.
  intros H. rewrite <- (Z2Nat.id n) by exact H.
  rewrite <- pow_IZR. apply pow_powerRZ.
Qed.

Lemma F2R_shift (m e n : Z) : (0 <= n)%Z -> F2R (m * 2 ^ n) e = F2R m (e + n).
Proof.
  intros H. unfold F2R. rewrite mult_IZR, IZR_pow2 by exact H.
  rewrite pow2_add. ring.
Qed.

Lemma F2R_le (m1 m2 e : Z) : (m1 <= m2)%Z -> F2R m1 e <= F2R m2 e.
Proof.
  intros H. unfold F2R. apply Rmult_le_compat_r.
  - apply Rlt_le, pow2_pos.
  - apply IZR_le, H.
Qed.

Lemma F2R_pos (m e : Z) : (0 < m)%Z -> 0 < F2R m e.
Proof.
  intros H. unfold F2R. apply Rmult_lt_0_compat.
  - apply IZR_lt, H.
  - apply pow2_pos.
Qed.

(** The rounding of the integer significand [mx], which has [53 + n] bits: the
    result is a normal number within one unit in the last place, that is a
    relative distance of [2^-52], of every value between [mx * 2^ex] and
    [(mx + 1) * 2^ex]. *)
Lemma binary_round_aux_real (mx ex n : Z) (l : location) :
  (0 <= n)%Z -> (2 ^ (52 + n) <= mx < 2 ^ (53 + n))%Z ->
  (-1074 <= ex + n)%Z -> (ex + n <= 970)%Z ->
  exists M E,
    binary_round_aux 53 1024 false mx ex l = S754_finite false M E /\
    (2 ^ 52 <= Z.pos M < 2 ^ 53)%Z /\
    (ex + n <= E <= ex + n + 1)%Z /\
    F2R (Z.pos M) E * (1 - / IZR (2 ^ 52)) <= F2R mx ex /\
    F2R (mx + 1) ex <= F2R (Z.pos M) E * (1 + / IZR (2 ^ 52)).
Proof.
  intros Hn Hmx Hemin Hemax.
  destruct (binary_round_aux_finite mx ex n l Hn Hmx Hemin Hemax)
    as (M & E & T & EQ & HM & Ht & HT & HE).
  exists M, E. split; [exact EQ|]. split; [exact HM|]. split; [lia|].
  assert (P : (0 < 2 ^ n)%Z) by (apply Z.pow_pos_nonneg; lia).
  set (t := (mx / 2 ^ n)%Z) in *.
  assert (Hdiv : (t * 2 ^ n <= mx < (t + 1) * 2 ^ n)%Z).
  { pose proof (Z.div_mod mx (2 ^ n) ltac:(lia)) as E1.
    pose proof (Z.mod_pos_bound mx (2 ^ n) P) as E2. fold t in E1. nia. }
  assert (EV : F2R (Z.pos M) E = F2R T (ex + n)).
  { destruct HE as [[-> ->] | [-> H2]]; [reflexivity|].
    rewrite <- H2. unfold F2R. rewrite mult_IZR, pow2_add.
    change (powerRZ 2 1) with (2 * 1). ring. }
  rewrite EV.
  set (u := powerRZ 2 (ex + n)).
  assert (Hu : 0 < u) by apply pow2_pos.
  assert (Hlo : F2R t (ex + n) <= F2R mx ex).
  { rewrite <- F2R_shift by exact Hn. apply F2R_le. lia. }
  assert (Hhi : F2R (mx + 1) ex <= F2R (t + 1) (ex + n)).
  { rewrite <- (F2R_shift (t + 1)) by exact Hn. apply F2R_le. lia. }
  assert (HTu : u <= F2R T (ex + n) * / IZR (2 ^ 52)).
  { unfold F2R. fold u.
    assert (IZR (2 ^ 52) <= IZR T) by (apply IZR_le; lia).
    assert (0 < IZR (2 ^ 52)) by (apply IZR_lt; reflexivity).
    apply (Rmult_le_reg_r (IZR (2 ^ 52))); [assumption|].
    replace (IZR T * u * / IZR (2 ^ 52) * IZR (2 ^ 52)) with (IZR T * u) by (field; lra).
    nra. }
  assert (HTt : F2R T (ex + n) - u <= F2R t (ex + n) /\
                F2R (t + 1) (ex + n) <= F2R T (ex + n) + u).
  { unfold F2R. fold u. destruct HT as [-> | ->]; rewrite ?plus_IZR; split; nra. }
  split; lra.
Qed.

(** Division of positive finite numbers with a quotient in the normal range:
    the result is within a relative distance of [2^-52] of the quotient. *)
Lemma SFdiv_real (m1 m2 : positive) (e1 e2 : Z) :
  let E0 := (Z.pos (digits2_pos m1) + e1 - (Z.pos (digits2_pos m2) + e2) - 53)%Z in
  (Z.pos (digits2_pos m1) <= 53)%Z ->
  (-1074 <= E0 <= 969)%Z ->
  exists M E,
    SFdiv 53 1024 (S754_finite false m1 e1) (S754_finite false m2 e2)
      = S754_finite false M E /\
    (2 ^ 52 <= Z.pos M < 2 ^ 53)%Z /\
    (E0 <= E <= E0 + 2)%Z /\
    F2R (Z.pos M) E * (1 - / IZR (2 ^ 52))
      <= F2R (Z.pos m1) e1 / F2R (Z.pos m2) e2
      <= F2R (Z.pos M) E * (1 + / IZR (2 ^ 52)).
Proof.
  intros E0 Hd1 HE0.
  pose proof (digits2_pos_bounds m1) as [B1lo B1hi].
  pose proof (digits2_pos_bounds m2) as [B2lo B2hi].
  set (d1 := Z.pos (digits2_pos m1)) in *.
  set (d2 := Z.pos (digits2_pos m2)) in *.
  assert (Hd2 : (1 <= d2)%Z) by (unfold d2; lia).
  assert (Hd1' : (1 <= d1)%Z) by (unfold d1; lia).
  unfold SFdiv, SFdiv_core_binary. cbn [Zdigits2 xorb]. fold d1 d2.
  replace (Z.min (fexp 53 1024 (d1 + e1 - (d2 + e2))) (e1 - e2)) with E0
    by (unfold fexp, emin, E0; lia).
  set (s := (53 + d2 - d1)%Z).
  replace (e1 - e2 - E0)%Z with s by (unfold s, E0; lia).
  assert (Hs : (0 < s)%Z) by (unfold s; lia).
  set (m' := (Z.pos m1 * 2 ^ s)%Z).
  assert (Em' : match s with
                | Z.pos _ => Z.shiftl (Z.pos m1) s
                | 0%Z => Z.pos m1
                | Z.neg _ => 0%Z
                end = m').
  { destruct s as [|p|p] eqn:Es; try lia. apply Z.shiftl_mul_pow2. lia. }
  rewrite Em'.
  assert (Hm' : (2 ^ (52 + d2) <= m' < 2 ^ (53 + d2))%Z).
  { unfold m'.
    replace (52 + d2)%Z with (d1 - 1 + s)%Z by (unfold s; lia).
    replace (53 + d2)%Z with (d1 + s)%Z by (unfold s; lia).
    rewrite !Z.pow_add_r by lia.
    assert (0 < 2 ^ s)%Z by (apply Z.pow_pos_nonneg; lia).
    nia. }
  pose proof (Z_div_mod m' (Z.pos m2) eq_refl) as Hqr.
  destruct (Z.div_eucl m' (Z.pos m2)) as [q r]. destruct Hqr as [Eqr Hr].
  assert (P2 : (0 < 2 ^ (d2 - 1))%Z) by (apply Z.pow_pos_nonneg; lia).
  assert (E2 : (2 ^ d2 = 2 * 2 ^ (d2 - 1))%Z).
  { replace d2 with (1 + (d2 - 1))%Z at 1 by lia. rewrite Z.pow_add_r by lia. reflexivity. }
  rewrite !Z.pow_add_r in Hm' by lia.
  change (2 ^ 52)%Z with 4503599627370496%Z in Hm'.
  change (2 ^ 53)%Z with 9007199254740992%Z in Hm'.
  assert (Hq : (4503599627370496 <= q < 18014398509481984)%Z) by nia.
  set (n := if (q <? 9007199254740992)%Z then 0%Z else 1%Z).
  assert (Hn : (0 <= n <= 1)%Z) by (unfold n; destruct (q <? 9007199254740992)%Z; lia).
  assert (Hqn : (2 ^ (52 + n) <= q < 2 ^ (53 + n))%Z).
  { unfold n. destruct (Z.ltb_spec q 9007199254740992).
    - change (2 ^ (52 + 0))%Z with 4503599627370496%Z.
      change (2 ^ (53 + 0))%Z with 9007199254740992%Z. lia.
    - change (2 ^ (52 + 1))%Z with 9007199254740992%Z.
      change (2 ^ (53 + 1))%Z with 18014398509481984%Z. lia. }
  destruct (binary_round_aux_real q E0 n (new_location (Z.pos m2) r))
    as (M & E & EQ & HM & HE & Hlo & Hhi); try lia.
  exists M, E. split; [exact EQ|]. split; [exact HM|]. split; [lia|].
  set (x := IZR m' / IZR (Z.pos m2)).
  assert (Hm2 : 0 < IZR (Z.pos m2)) by (apply IZR_lt; lia).
  assert (Ev : F2R (Z.pos m1) e1 / F2R (Z.pos m2) e2 = x * powerRZ 2 E0).
  { unfold x, m', F2R. rewrite mult_IZR, IZR_pow2 by lia.
    replace e1 with (E0 + s + e2)%Z by (unfold E0, s; lia).
    rewrite !pow2_add.
    pose proof (pow2_pos e2). pose proof (pow2_pos E0). pose proof (pow2_pos s).
    field. lra. }
  rewrite Ev.
  assert (Hx : IZR q <= x <= IZR q + 1).
  { assert (Ex : x * IZR (Z.pos m2) = IZR (Z.pos m2) * IZR q + IZR r).
    { unfold x. rewrite Eqr, plus_IZR, mult_IZR. field. lra. }
    assert (0 <= IZR r) by (apply IZR_le; lia).
    assert (IZR r <= IZR (Z.pos m2)) by (apply IZR_le; lia).
    split; nra. }
  pose proof (pow2_pos E0) as HpE.
  unfold F2R in Hlo, Hhi |- *. rewrite plus_IZR in Hhi.
  split; nra.
Qed.

(** The square root of a positive finite number: the square of the result is
    within a relative distance of [2^-52], taken twice, of the argument. *)
Lemma SFsqrt_real (m : positive) (e : Z) :
  let E0 := ((Z.pos (digits2_pos m) + e + 1) / 2 - 53)%Z in
  (Z.pos (digits2_pos m) <= 53)%Z ->
  (-1074 <= e <= 971)%Z ->
  exists M E,
    SFsqrt 53 1024 (S754_finite false m e) = S754_finite false M E /\
    (2 ^ 52 <= Z.pos M < 2 ^ 53)%Z /\
    (E0 <= E <= E0 + 1)%Z /\
    (F2R (Z.pos M) E * (1 - / IZR (2 ^ 52))) ^ 2 <= F2R (Z.pos m) e /\
    F2R (Z.pos m) e <= (F2R (Z.pos M) E * (1 + / IZR (2 ^ 52))) ^ 2.
Proof.
  intros E0 Hd He.
  pose proof (digits2_pos_bounds m) as [Blo Bhi].
  set (d := Z.pos (digits2_pos m)) in *.
  assert (Hd' : (1 <= d)%Z) by (unfold d; lia).
  unfold SFsqrt, SFsqrt_core_binary. cbn [Zdigits2]. fold d.
  rewrite !Z.div2_div.
  pose proof (Z.div_mod (d + e + 1) 2 ltac:(lia)) as D1.
  pose proof (Z.mod_pos_bound (d + e + 1) 2 ltac:(lia)) as D2.
  pose proof (Z.div_mod e 2 ltac:(lia)) as D3.
  pose proof (Z.mod_pos_bound e 2 ltac:(lia)) as D4.
  fold E0.
  replace (Z.min (fexp 53 1024 ((d + e + 1) / 2)) (e / 2)) with E0
    by (unfold fexp, emin, E0; lia).
  set (s := (e - 2 * E0)%Z).
  assert (Hs : (0 < s)%Z) by (unfold s, E0; lia).
  set (m' := (Z.pos m * 2 ^ s)%Z).
  assert (Em' : match s with
                | Z.pos _ => Z.shiftl (Z.pos m) s
                | 0%Z => Z.pos m
                | Z.neg _ => 0%Z
                end = m').
  { destruct s as [|p|p] eqn:Es; try lia. apply Z.shiftl_mul_pow2. lia. }
  rewrite Em'.
  assert (Hm' : (2 ^ 104 <= m' < 2 ^ 106)%Z).
  { unfold m'.
    assert (0 < 2 ^ s)%Z by (apply Z.pow_pos_nonneg; lia).
    assert (2 ^ 104 <= 2 ^ (d - 1 + s))%Z by (apply Z.pow_le_mono_r; unfold s, E0; lia).
    assert (2 ^ (d + s) <= 2 ^ 106)%Z by (apply Z.pow_le_mono_r; unfold s, E0; lia).
    rewrite !Z.pow_add_r in * by lia. nia. }
  pose proof (Z.sqrtrem_spec m' ltac:(lia)) as Hqr.
  destruct (Z.sqrtrem m') as [q r]. destruct Hqr as [Eqr Hr].
  change (2 ^ 104)%Z with 20282409603651670423947251286016%Z in Hm'.
  change (2 ^ 106)%Z with 81129638414606681695789005144064%Z in Hm'.
  assert (Hq : (4503599627370496 <= q < 9007199254740992)%Z) by nia.
  destruct (binary_round_aux_real q E0 0
              (if (r =? 0)%Z then loc_Exact
               else loc_Inexact (if (r <=? q)%Z then Lt else Gt)))
    as (M & E & EQ & HM & HE & Hlo & Hhi); try (unfold E0; lia).
  exists M, E. split; [exact EQ|]. split; [exact HM|]. split; [lia|].
  assert (Ev : F2R (Z.pos m) e = IZR m' * powerRZ 2 E0 ^ 2).
  { unfold m', F2R. rewrite mult_IZR, IZR_pow2 by lia.
    replace e with (E0 + E0 + s)%Z at 1 by (unfold s; lia).
    rewrite !pow2_add. ring. }
  rewrite Ev.
  pose proof (pow2_pos E0) as HpE.
  assert (Hm1 : IZR q * IZR q <= IZR m').
  { rewrite <- mult_IZR. apply IZR_le. lia. }
  assert (Hm2 : IZR m' <= (IZR q + 1) * (IZR q + 1)).
  { rewrite <- (plus_IZR q 1), <- mult_IZR. apply IZR_le. lia. }
  assert (Hq0 : 0 < IZR q) by (apply IZR_lt; lia).
  set (Rv := F2R (Z.pos M) E) in *.
  assert (HRv : 0 < Rv) by (apply F2R_pos; lia).
  assert (Hdelta : 0 < / IZR (2 ^ 52) < 1).
  { change (2 ^ 52)%Z with 4503599627370496%Z. split; lra. }
  unfold F2R in Hlo, Hhi. rewrite plus_IZR in Hhi.
  set (u := powerRZ 2 E0) in *.
  set (a := Rv * (1 - / IZR (2 ^ 52))) in *.
  set (b := Rv * (1 + / IZR (2 ^ 52))) in *.
  assert (Ha : 0 <= a) by (unfold a; nra).
  split.
  - apply Rle_trans with ((IZR q * u) ^ 2); nra.
  - apply Rle_trans with (((IZR q + 1) * u) ^ 2); nra.
Qed.

Lemma pow2_le (a b : Z) : (a <= b)%Z -> powerRZ 2 a <= powerRZ 2 b.
Proof.
  intros H. replace b with (a + (b - a))%Z by lia. rewrite pow2_add.
  rewrite <- (IZR_pow2 (b - a)) by lia.
  assert (1 <= IZR (2 ^ (b - a))).
  { apply IZR_le. pose proof (Z.pow_pos_nonneg 2 (b - a)). lia. }
  pose proof (pow2_pos a). nra.
Qed.

Lemma pow2_neg (n : Z) : (0 <= n)%Z -> powerRZ 2 (- n) = / IZR (2 ^ n).
Proof. intros H. rewrite powerRZ_neg', IZR_pow2 by exact H. reflexivity. Qed.

Lemma valid_finite (s : bool) (m : positive) (e : Z) :
  valid_binary (S754_finite s m e) = true ->
  (Z.pos (digits2_pos m) <= 53 /\ -1074 <= e <= 971)%Z.
Proof.
  unfold valid_binary, SpecFloat.valid_binary, bounded, canonical_mantissa.
  intros H. apply andb_prop in H as [H1 H2].
  apply Z.eqb_eq in H1. apply Z.leb_le in H2.
  unfold fexp, emin, FloatOps.prec, FloatOps.emax in *. lia.
Qed.

(** Dividing a positive finite number twice by its square root gives a number
    at least [1 - 2^-50]. *)
Lemma SF_self_ratio (m : positive) (e : Z) :
  valid_binary (S754_finite false m e) = true ->
  exists M E,
    SFdiv 53 1024
      (SFdiv 53 1024 (S754_finite false m e)
         (SFsqrt 53 1024 (S754_finite false m e)))
      (SFsqrt 53 1024 (S754_finite false m e)) = S754_finite false M E /\
    SFleb (S754_finite false 9007199254740984 (-53)) (S754_finite false M E) = true.
Proof.
  intros Hv. apply valid_finite in Hv as [Hd He].
  pose proof (digits2_pos_bounds m) as [_ _].
  assert (Hd1 : (1 <= Z.pos (digits2_pos m))%Z) by lia.
  destruct (SFsqrt_real m e Hd He) as (Ms & Es & EQs & HMs & HEs & Hs1 & Hs2).
  rewrite EQs.
  assert (Ds : Z.pos (digits2_pos Ms) = 53%Z).
  { apply (Zdigits2_unique (Z.pos Ms) 53); [lia | exact HMs]. }
  set (x := (Z.pos (digits2_pos m) + e)%Z) in *.
  pose proof (Z.div_mod (x + 1) 2 ltac:(lia)) as D1.
  pose proof (Z.mod_pos_bound (x + 1) 2 ltac:(lia)) as D2.
  destruct (SFdiv_real m Ms e Es) as (M1 & E1 & EQ1 & HM1 & HE1 & H1); [lia | rewrite Ds; lia |].
  rewrite EQ1. rewrite Ds in HE1.
  assert (D1' : Z.pos (digits2_pos M1) = 53%Z).
  { apply (Zdigits2_unique (Z.pos M1) 53); [lia | exact HM1]. }
  destruct (SFdiv_real M1 Ms E1 Es) as (M2 & E2 & EQ2 & HM2 & HE2 & H2);
    [lia | rewrite Ds, D1'; lia |].
  rewrite EQ2. rewrite Ds, D1' in HE2.
  exists M2, E2. split; [reflexivity|].
  set (Vc := F2R (Z.pos m) e) in *.
  set (Vs := F2R (Z.pos Ms) Es) in *.
  set (V1 := F2R (Z.pos M1) E1) in *.
  set (V2 := F2R (Z.pos M2) E2) in *.
  assert (HVs : 0 < Vs) by (apply F2R_pos; lia).
  assert (HV1 : 0 < V1) by (apply F2R_pos; lia).
  assert (HV2 : 0 < V2) by (apply F2R_pos; lia).
  change (2 ^ 52)%Z with 4503599627370496%Z in *.
  change (2 ^ 53)%Z with 9007199254740992%Z in *.
  set (dl := / 4503599627370496) in *.
  assert (Hdl : 0 < dl < / 4000000000000000) .
  { unfold dl. split; [lra|]. apply Rinv_lt_contravar; lra. }
  assert (HB : 1 - 4 * dl <= V2).
  { destruct H1 as [_ H1]. destruct H2 as [_ H2].
    assert (A1 : Vc <= V1 * (1 + dl) * Vs).
    { apply (Rmult_le_compat_r Vs) in H1; [|lra].
      replace (Vc / Vs * Vs) with Vc in H1 by (field; lra). exact H1. }
    assert (A2 : V1 <= V2 * (1 + dl) * Vs).
    { apply (Rmult_le_compat_r Vs) in H2; [|lra].
      replace (V1 / Vs * Vs) with V1 in H2 by (field; lra). exact H2. }
    assert (A3 : Vs * Vs * ((1 - dl) * (1 - dl)) <= V2 * ((1 + dl) * (1 + dl)) * (Vs * Vs)).
    { apply Rle_trans with Vc; [nra|].
      apply Rle_trans with (V1 * (1 + dl) * Vs); [exact A1|].
      assert (0 <= (1 + dl) * Vs) by nra.
      nra. }
    assert (A4 : (1 - dl) * (1 - dl) <= V2 * ((1 + dl) * (1 + dl))).
    { assert (0 < Vs * Vs) by nra.
      apply (Rmult_le_reg_r (Vs * Vs)); [assumption|]. nra. }
    assert (A5 : (1 - 4 * dl) * ((1 + dl) * (1 + dl)) <= (1 - dl) * (1 - dl)) by nra.
    assert (0 < (1 + dl) * (1 + dl)) by nra.
    apply (Rmult_le_reg_r ((1 + dl) * (1 + dl))); [assumption|]. lra. }
  unfold SFleb, SFcompare.
  destruct (Z.compare_spec (-53) E2) as [EE|LT|GT].
  - assert (HM : (9007199254740984 <= Z.pos M2)%Z).
    { apply le_IZR. unfold V2, F2R in HB. rewrite <- EE in HB.
      change (powerRZ 2 (-53)) with (powerRZ 2 (Z.opp 53)) in HB.
      rewrite (pow2_neg 53) in HB by lia.
      change (2 ^ 53)%Z with 9007199254740992%Z in HB.
      unfold dl in HB. lra. }
    change (PosDef.Pos.compare_cont Eq 9007199254740984 M2)
      with (Pos.compare 9007199254740984 M2).
    destruct (Pos.compare 9007199254740984 M2) eqn:C; try reflexivity.
    apply Pos.compare_gt_iff in C. exfalso. apply Pos2Z.pos_lt_pos in C.
    exact (Z.lt_irrefl _ (Z.le_lt_trans _ _ _ HM C)).
  - reflexivity.
  - exfalso.
    assert (powerRZ 2 E2 <= / 18014398509481984).
    { apply Rle_trans with (powerRZ 2 (-54)); [apply pow2_le; lia|].
      change (powerRZ 2 (-54)) with (powerRZ 2 (Z.opp 54)).
      rewrite (pow2_neg 54) by lia. apply Req_le. reflexivity. }
    assert (IZR (Z.pos M2) <= 9007199254740992) by (apply IZR_le; lia).
    assert (0 < IZR (Z.pos M2)) by (apply IZR_lt; lia).
    unfold V2, F2R in HB. pose proof (pow2_pos E2).
    unfold dl in *. nra.
Qed.

End RoundingError.

(** A positive variance that is not infinite: the value is at most [2^-50]
    below 1 and never above it. *)
Lemma self_ratio_bounds (c : float) :
  (0 <? c)%float = true -> (c <? infinity)%float = true ->
  (0x1.ffffffffffff8p-1 <=? np.clip ((c / sqrt c) / sqrt c) (-1) 1)%float = true /\
  (np.clip ((c / sqrt c) / sqrt c) (-1) 1 <=? 1)%float = true.
Proof.
  intros H0 H1.
  set (q := ((c / sqrt c) / sqrt c)%float).
  assert (Hq : exists M E,
             Prim2SF q = S754_finite false M E /\
             SFleb (S754_finite false 9007199254740984 (-53))
               (S754_finite false M E) = true).
  { unfold q. rewrite !div_spec, sqrt_spec.
    rewrite ltb_spec in H0, H1. revert H0 H1.
    change (Prim2SF 0) with (S754_zero false).
    change (Prim2SF infinity) with (S754_infinity false).
    float_cases c; try discriminate.
    intros _ _. apply RoundingError.SF_self_ratio. exact Hvalid. }
  destruct Hq as (M & E & EQ & HL).
  assert (Hlow : (0x1.ffffffffffff8p-1 <=? q)%float = true).
  { rewrite leb_spec, EQ. exact HL. }
  assert (Hneg : (-1 <=? q)%float = true).
  { rewrite leb_spec, EQ. reflexivity. }
  assert (Hnan : is_nan q = false).
  { unfold is_nan. rewrite eqb_spec, EQ. unfold SFeqb.
    rewrite SFcompare_refl_finite. reflexivity. }
  unfold np.clip, np.maximum, np.minimum. rewrite Hneg. cbn [orb].
  rewrite Hnan, orb_false_r.
  destruct (q <=? 1)%float eqn:Q.
  - split; [exact Hlow | exact Q].
  - split; reflexivity.
Qed.

(** Any other variance, a zero, a negative number, an infinity or NaN, gives
    NaN. *)
Lemma self_ratio_nan (c : float) :
  (0 <? c)%float && (c <? infinity)%float = false ->
  np.clip ((c / sqrt c) / sqrt c) (-1) 1 = nan.
Proof.
  intros H.
  assert (Hq : ((c / sqrt c) / sqrt c)%float = nan).
  { apply is_nan_SF. rewrite !div_spec, sqrt_spec.
    rewrite !ltb_spec in H. revert H.
    change (Prim2SF 0) with (S754_zero false).
    change (Prim2SF infinity) with (S754_infinity false).
    float_cases c; try reflexivity. intros H. discriminate H. }
  rewrite Hq. reflexivity.
Qed.

(** C7 (counterexample): the first matrix for a window of 2, on two inputs.
    For [sample_stock_data] the chunk of company A is [[0; 2]]: two elements,
    variance 1 ([np.cov] gives 2); its diagonal entry is 0.9999999999999999,
    not 1.0.  For [sample_large_stock_data] the chunk is [[2^600; -2^600]]:
    two elements, a variance greater than 0 (the squares overflow, [np.var]
    and [np.cov] give infinity); its diagonal entry is NaN, which is not 1.0
    within any tolerance. *)
Lemma diagonal_not_one :
  (instrument_chunk sample_stock_data 2 0 0 = Ok [0; 2]%float /\
   np.var [0; 2]%float = 1%float /\
   match calculate_correlation_matrices_per_window sample_stock_data 2 with
   | Ok (M :: _) => get_item (values M) 0 0
   | _ => None
   end = Some 0x1.fffffffffffffp-1%float /\
   (0x1.fffffffffffffp-1 =? 1)%float = false) /\
  (instrument_chunk sample_large_stock_data 2 0 0
     = Ok [0x1p+600; -0x1p+600]%float /\
   np.var [0x1p+600; -0x1p+600]%float = infinity /\
   np.cov_entry [0x1p+600; -0x1p+600]%float [0x1p+600; -0x1p+600]%float
     = infinity /\
   (0 <? infinity)%float = true /\
   match calculate_correlation_matrices_per_window sample_large_stock_data 2 with
   | Ok (M :: _) => get_item (values M) 0 0
   | _ => None
   end = Some nan).
Proof.
  repeat split; vm_compute; reflexivity.
Qed.

(** C7 (amended): the diagonal entry of instrument [i] in the matrix of
    window [w] is the self-correlation of its chunk.  With [c] the variance
    [np.cov] computes for the chunk, the entry is at least [1 - 2^-50] and at
    most 1.0 when the chunk has more than one element and [c] is greater than
    0 and not infinite; in every other case (one element, or a variance
    computed as 0, infinity or NaN) it is NaN.  The bounds use nothing of [c]
    but its sign and its finiteness ([self_ratio_bounds]), so they do not
    depend on the order in which the sums of [np.cov] are taken. *)
Theorem engine_diagonal_value (stock_data : dict DataFrame) (window_size : Z)
  (ms : list CorrelationFrame) (w : nat) (M : CorrelationFrame) (i : nat) :
  calculate_correlation_matrices_per_window stock_data window_size = Ok ms ->
  nth_error ms w = Some M ->
  i < length stock_data ->
  exists chunk v,
    instrument_chunk stock_data window_size w i = Ok chunk /\
    get_item (values M) i i = Some v /\
    let c := np.cov_entry chunk chunk in
    if (1 <? length chunk)%nat && ((0 <? c)%float && (c <? infinity)%float)
    then (0x1.ffffffffffff8p-1 <=? v)%float = true /\ (v <=? 1)%float = true
    else v = nan.
Proof.
  intros H HM Hi.
  destruct (engine_pair_cells _ _ _ _ _ _ _ H HM (le_n i) Hi)
    as (ci & cj & v & Eci & Ecj & Hv & G & _).
  assert (cj = ci) by congruence. subst cj.
  exists ci, v. split; [exact Eci|]. split; [exact G|].
  unfold pair_value in Hv. rewrite andb_diag, corrcoef01_self in Hv.
  cbv zeta.
  destruct (1 <? length ci)%nat; injection Hv as <-; cbn [andb].
  - unfold self_correlation.
    destruct ((0 <? np.cov_entry ci ci)%float
              && (np.cov_entry ci ci <? infinity)%float) eqn:C.
    + apply andb_prop in C as [C0 C1]. apply self_ratio_bounds; assumption.
    + apply self_ratio_nan. exact C.
  - reflexivity.
Qed.

Lemma engine_diagonal_value_witness :
  exists ms M v,
    calculate_correlation_matrices_per_window sample_stock_data 2 = Ok ms /\
    nth_error ms 0 = Some M /\
    get_item (values M) 0 0 = Some v /\
    (0x1.ffffffffffff8p-1 <=? v)%float = true /\
    (v <=? 1)%float = true.
Proof.
  destruct (calculate_correlation_matrices_per_window sample_stock_data 2)
    as [ms|e] eqn:E; [|vm_compute in E; discriminate].
  destruct (nth_error ms 0) as [M|] eqn:EM;
    [|vm_compute in E; injection E as <-; discriminate].
  destruct (engine_diagonal_value sample_stock_data 2 ms 0 M 0 E EM)
    as (chunk & v & Ec & G & Hv).
  - simpl; lia.
  - exists ms, M, v. split; [reflexivity|]. split; [exact EM|]. split; [exact G|].
    vm_compute in Ec. injection Ec as <-. exact Hv.
Defined.

(** ** Series of different lengths *)

Lemma sections_to_nat (L : nat) (W : Z) :
  (0 < W)%Z -> Z.to_nat (Z.of_nat L / W) = L / Z.to_nat W.
Proof.
  intros HW. rewrite <- (Z2Nat.id W) at 1 by lia.
  rewrite <- Nat2Z.inj_div. apply Nat2Z.id.
Qed.

Lemma sections_positive (L : nat) (W : Z) :
  (0 < Z.of_nat L / W)%Z -> (0 < W)%Z.
Proof.
  intros H. destruct (Z.lt_trichotomy W 0) as [Hneg|[->|Hpos]].
  - pose proof (Z.div_mod (Z.of_nat L) W ltac:(lia)) as E.
    pose proof (Z.mod_neg_bound (Z.of_nat L) W Hneg) as Hr. nia.
  - rewrite Z.div_0_r in H. lia.
  - exact Hpos.
Qed.

(** A section is at least as long as the window. *)
Lemma chunk_size_lower_bound (L W w : nat) :
  0 < W -> 0 < L / W -> W <= chunk_size L (L / W) w.
Proof.
  intros HW Hk. unfold chunk_size.
  assert (W <= L / (L / W)); [|lia].
  apply Nat.div_le_lower_bound; [lia|].
  rewrite Nat.mul_comm. apply Nat.Div0.mul_div_le.
Qed.

Lemma chunk_size_window_one (L w : nat) :
  0 < L -> chunk_size L (L / 1) w = 1.
Proof.
  intros HL. unfold chunk_size. rewrite Nat.div_1_r, Nat.div_same, Nat.Div0.mod_same by lia.
  reflexivity.
Qed.

(** What a chunk that was read tells about its frame. *)
Lemma instrument_chunk_inv (stock_data : dict DataFrame) (window_size : Z)
  (w i : nat) (name : string) (df : DataFrame) (chunk : list float) :
  instrument_chunk stock_data window_size w i = Ok chunk ->
  nth_error (keys stock_data) i = Some name ->
  dict_get stock_data name = Ok df ->
  let k := Z.to_nat (Z.of_nat (len df) / window_size) in
  (0 < Z.of_nat (len df) / window_size)%Z /\
  w < k /\
  chunk = firstn (chunk_size (len df) k w) (skipn (chunk_start (len df) k w)
                                              (Normalized_Return df)) /\
  length chunk = chunk_size (len df) k w.
Proof.
  unfold instrument_chunk, list_index. intros H En Ed. rewrite En in H. cbn [bind] in H.
  rewrite Ed in H. cbn [bind] in H.
  apply bind_Ok_inv in H as (kz & Hk & H).
  unfold floordiv in Hk. destruct (Z.eqb_spec window_size 0) as [|Hne]; [discriminate|].
  injection Hk as <-.
  apply bind_Ok_inv in H as (windows & Hsplit & H).
  destruct (Z.leb_spec (Z.of_nat (len df) / window_size) 0) as [Hle|Hpos].
  { rewrite array_split_nonpositive in Hsplit by exact Hle. discriminate. }
  destruct (nth_error windows w) as [c|] eqn:Ew; [|discriminate].
  injection H as ->.
  rewrite array_split_split_by in Hsplit by exact Hpos. injection Hsplit as <-.
  assert (Hw : w < Z.to_nat (Z.of_nat (len df) / window_size)).
  { rewrite <- (chunk_sizes_length (length (Normalized_Return df))
                  (Z.to_nat (Z.of_nat (len df) / window_size))) by lia.
    rewrite <- (split_by_length _ (Normalized_Return df)).
    apply nth_error_Some. congruence. }
  destruct (array_split_nth (Normalized_Return df) _ _ Hpos Hw) as (ws & E1 & E2 & Hb).
  rewrite array_split_split_by in E1 by exact Hpos. injection E1 as <-.
  unfold len in *. rewrite E2 in Ew. injection Ew as <-.
  repeat split; try assumption.
  rewrite length_firstn, length_skipn. lia.
Qed.

Lemma chunk_start_S (L k w : nat) :
  w < k ->
  chunk_start L k (S w) = chunk_start L k w + chunk_size L k w.
Proof.
  intros Hw. unfold chunk_start. rewrite list_sum_firstn_S, chunk_sizes_nth by exact Hw.
  reflexivity.
Qed.

(** Whenever the engine returns, every chunk it read was in range, as long
    as the first company's chunk of the same window, and at the same place. *)
Lemma engine_reads_aligned (name0 : string) (df0 : DataFrame) (rest : dict DataFrame)
  (window_size : Z) (ms : list CorrelationFrame) :
  let stock_data := (name0, df0) :: rest in
  calculate_correlation_matrices_per_window stock_data window_size = Ok ms ->
  forall w i name df,
    w < length ms ->
    nth_error (keys stock_data) i = Some name ->
    dict_get stock_data name = Ok df ->
    let k0 := Z.to_nat (Z.of_nat (len df0) / window_size) in
    let k := Z.to_nat (Z.of_nat (len df) / window_size) in
    w < k /\
    chunk_size (len df) k w = chunk_size (len df0) k0 w /\
    chunk_start (len df) k w = chunk_start (len df0) k0 w /\
    instrument_chunk stock_data window_size w i
    = Ok (firstn (chunk_size (len df) k w)
                 (skipn (chunk_start (len df) k w) (Normalized_Return df))).
Proof.
  intros stock_data H.
  assert (Hsize : forall w i name df,
             w < length ms ->
             nth_error (keys stock_data) i = Some name ->
             dict_get stock_data name = Ok df ->
             w < Z.to_nat (Z.of_nat (len df) / window_size) /\
             w < Z.to_nat (Z.of_nat (len df0) / window_size) /\
             chunk_size (len df) (Z.to_nat (Z.of_nat (len df) / window_size)) w
             = chunk_size (len df0) (Z.to_nat (Z.of_nat (len df0) / window_size)) w /\
             instrument_chunk stock_data window_size w i
             = Ok (firstn (chunk_size (len df)
                             (Z.to_nat (Z.of_nat (len df) / window_size)) w)
                          (skipn (chunk_start (len df)
                                    (Z.to_nat (Z.of_nat (len df) / window_size)) w)
                                 (Normalized_Return df)))).
  { intros w i name df Hw En Ed.
    assert (Hi : i < length stock_data).
    { unfold keys in En. rewrite <- (length_map fst). apply nth_error_Some. congruence. }
    destruct (nth_error ms w) as [M|] eqn:EM; [|apply nth_error_None in EM; lia].
    destruct (engine_pair_cells _ _ _ _ _ 0 i H EM (Nat.le_0_l i) Hi)
      as (c0 & ci & v & Ec0 & Eci & Hv & _).
    destruct (instrument_chunk_inv _ _ _ _ name0 df0 _ Ec0 eq_refl
                (dict_get_head name0 df0 rest)) as (Hp0 & Hw0 & _ & Hl0).
    destruct (instrument_chunk_inv _ _ _ _ name df _ Eci En Ed) as (Hp & Hwi & Hci & Hl).
    split; [exact Hwi|]. split; [exact Hw0|]. split; [|rewrite Eci, Hci; reflexivity].
    rewrite <- Hl, <- Hl0.
    unfold pair_value in Hv.
    destruct (Nat.ltb_spec 1 (length c0)) as [H0|H0];
      [destruct (Nat.ltb_spec 1 (length ci)) as [H1|H1]|]; cbn [andb] in Hv.
    - apply corrcoef01_Ok_length in Hv. congruence.
    - pose proof (sections_positive _ _ Hp) as HW.
      rewrite sections_to_nat in Hl, Hl0, Hwi, Hw0 by exact HW.
      pose proof (chunk_size_lower_bound (len df) (Z.to_nat window_size) w
                    ltac:(lia) ltac:(lia)) as B.
      pose proof (chunk_size_lower_bound (len df0) (Z.to_nat window_size) w
                    ltac:(lia) ltac:(lia)) as B0.
      assert (HW1 : Z.to_nat window_size = 1) by lia. rewrite HW1 in *.
      rewrite chunk_size_window_one in Hl, Hl0 by (rewrite Nat.div_1_r in *; lia).
      congruence.
    - pose proof (sections_positive _ _ Hp) as HW.
      rewrite sections_to_nat in Hl, Hl0, Hwi, Hw0 by exact HW.
      pose proof (chunk_size_lower_bound (len df) (Z.to_nat window_size) w
                    ltac:(lia) ltac:(lia)) as B.
      pose proof (chunk_size_lower_bound (len df0) (Z.to_nat window_size) w
                    ltac:(lia) ltac:(lia)) as B0.
      assert (HW1 : Z.to_nat window_size = 1) by lia. rewrite HW1 in *.
      rewrite chunk_size_window_one in Hl, Hl0 by (rewrite Nat.div_1_r in *; lia).
      congruence. }
  intros w i name df Hw En Ed k0 k.
  destruct (Hsize w i name df Hw En Ed) as (Hwk & Hwk0 & Hsz & Hchunk).
  split; [exact Hwk|]. split; [exact Hsz|]. split; [|exact Hchunk].
  clear Hsz Hchunk. unfold k, k0. clear k k0.
  induction w as [|u IH]; [reflexivity|].
  destruct (Hsize u i name df ltac:(lia) En Ed) as (Hu & Hu0 & Hsz & _).
  rewrite !chunk_start_S by assumption. rewrite IH by lia. rewrite Hsz. reflexivity.
Qed.

(** C9 (counterexample): no input makes the engine return after reading, for
    some window, a chunk outside an instrument's chunk list or a chunk that is
    not at the place, or not of the size, of the first company's chunk. *)
Lemma no_silent_misaligned_read :
  ~ (exists name0 df0 rest window_size ms w i name df,
        let stock_data := (name0, df0) :: rest in
        let k0 := Z.to_nat (Z.of_nat (len df0) / window_size) in
        let k := Z.to_nat (Z.of_nat (len df) / window_size) in
        calculate_correlation_matrices_per_window stock_data window_size = Ok ms /\
        w < length ms /\
        nth_error (keys stock_data) i = Some name /\
        dict_get stock_data name = Ok df /\
        len df <> len df0 /\
        (k <= w \/
         chunk_start (len df) k w <> chunk_start (len df0) k0 w \/
         chunk_size (len df) k w <> chunk_size (len df0) k0 w)).
Proof.
  intros (name0 & df0 & rest & W & ms & w & i & name & df & H).
  cbv zeta in H. destruct H as (E & Hw & En & Ed & _ & Hbad).
  destruct (engine_reads_aligned name0 df0 rest W ms E w i name df Hw En Ed)
    as (Hk & Hsz & Hst & _).
  destruct Hbad as [Hbad|[Hbad|Hbad]]; [lia | contradiction | contradiction].
Qed.

(** C9 (amended): the engine splits each instrument's series by that
    instrument's own length, in [len(df) // window_size] sections, and takes
    section [w].  Whenever it returns, each section it took was in range and
    at the place and of the size of the first company's section.  With series
    of different lengths it raises instead: [IndexError] when [w] is outside
    the shorter company's sections ([sample_short_stock_data]), [ValueError]
    from [np.corrcoef] when the sections have drifted to different sizes
    ([sample_drift_stock_data]: 3 rows against 2). *)
Theorem engine_own_length_split (name0 : string) (df0 : DataFrame)
  (rest : dict DataFrame) (window_size : Z) (ms : list CorrelationFrame)
  (w i : nat) (name : string) (df : DataFrame) :
  let stock_data := (name0, df0) :: rest in
  let k0 := Z.to_nat (Z.of_nat (len df0) / window_size) in
  let k := Z.to_nat (Z.of_nat (len df) / window_size) in
  calculate_correlation_matrices_per_window stock_data window_size = Ok ms ->
  w < length ms ->
  nth_error (keys stock_data) i = Some name ->
  dict_get stock_data name = Ok df ->
  (instrument_chunk stock_data window_size w i
   = Ok (firstn (chunk_size (len df) k w)
                (skipn (chunk_start (len df) k w) (Normalized_Return df))) /\
   w < k /\
   chunk_start (len df) k w = chunk_start (len df0) k0 w /\
   chunk_size (len df) k w = chunk_size (len df0) k0 w) /\
  (calculate_correlation_matrices_per_window sample_short_stock_data 2
   = Raise IndexError /\
   Z.to_nat (Z.of_nat 2 / 2) <= 1) /\
  (calculate_correlation_matrices_per_window sample_drift_stock_data 2
   = Raise ValueError /\
   chunk_size 5 (Z.to_nat (Z.of_nat 5 / 2)) 0 = 3 /\
   chunk_size 4 (Z.to_nat (Z.of_nat 4 / 2)) 0 = 2).
Proof.
  intros stock_data k0 k E Hw En Ed.
  destruct (engine_reads_aligned name0 df0 rest window_size ms E w i name df Hw En Ed)
    as (Hk & Hsz & Hst & Hc).
  split; [repeat split; assumption|].
  split; [split; [vm_compute; reflexivity | vm_compute; lia]|].
  repeat split; vm_compute; reflexivity.
Qed.

Lemma engine_own_length_split_witness :
  exists ms,
    calculate_correlation_matrices_per_window sample_long_stock_data 2 = Ok ms /\
    instrument_chunk sample_long_stock_data 2 1 1 = Ok [4; 3]%float.
Proof.
  destruct (calculate_correlation_matrices_per_window sample_long_stock_data 2)
    as [ms|e] eqn:E; [|vm_compute in E; discriminate].
  exists ms. split; [reflexivity|].
  destruct (engine_own_length_split "A"%string (sample_frame [0; 2; 1; 5]%float)
              [("B"%string, sample_frame [1; 2; 4; 3; 7; 9]%float)] 2 ms 1 1
              "B"%string (sample_frame [1; 2; 4; 3; 7; 9]%float) E)
    as ((Hc & _) & _).
  - vm_compute in E. injection E as <-. simpl; lia.
  - reflexivity.
  - reflexivity.
  - exact Hc.
Defined.

(** * Further properties *)

(** ** What the cells of a matrix can hold *)

Lemma clip_in_scale (x : float) : in_scale (np.clip x (-1) 1) = true.
Proof.
  unfold in_scale, np.clip, np.minimum.
  assert (Hy : is_nan (np.maximum x (-1)) = true
               \/ (-1 <=? np.maximum x (-1))%float = true).
  { unfold np.maximum. destruct (-1 <=? x)%float eqn:E; simpl; [right; exact E|].
    destruct (is_nan x) eqn:N; [left; exact N | right; reflexivity]. }
  destruct (np.maximum x (-1) <=? 1)%float eqn:E; simpl.
  - destruct Hy as [->| ->]; [reflexivity|]. rewrite E. apply orb_true_r.
  - destruct (is_nan (np.maximum x (-1))) eqn:N; simpl; [rewrite N|]; reflexivity.
Qed.

Lemma corrcoef01_in_scale (x y : list float) (v : float) :
  np.corrcoef01 x y = Ok v -> in_scale v = true.
Proof.
  unfold np.corrcoef01. destruct (length x =? length y)%nat; [|discriminate].
  intros H; injection H as <-. apply clip_in_scale.
Qed.

Lemma pair_value_in_scale (x y : list float) (v : float) :
  pair_value x y = Ok v -> in_scale v = true.
Proof.
  unfold pair_value. destruct ((1 <? length x)%nat && (1 <? length y)%nat).
  - apply corrcoef01_in_scale.
  - intros H; injection H as <-. reflexivity.
Qed.

Lemma get_item_Some_range (n : nat) (m : matrix) (a b : nat) (v : float) :
  square n m -> get_item m a b = Some v -> a < n /\ b < n.
Proof.
  intros [Hl Hr]. unfold get_item.
  destruct (nth_error m a) as [row|] eqn:E; [|discriminate].
  intros E'. split.
  - rewrite <- Hl. apply nth_error_Some. congruence.
  - rewrite <- (Hr _ _ E). apply nth_error_Some. congruence.
Qed.

(** The matrix number [w] of a returned list: its shape, and its cells as
    values of pairs. *)
Lemma engine_matrix_cells (stock_data : dict DataFrame) (window_size : Z)
  (ms : list CorrelationFrame) (w : nat) (M : CorrelationFrame) :
  calculate_correlation_matrices_per_window stock_data window_size = Ok ms ->
  nth_error ms w = Some M ->
  M = frame_of (keys stock_data) (values M) /\
  square (length stock_data) (values M) /\
  forall a b, a <= b -> b < length stock_data ->
              cell_ok stock_data window_size w (values M) a b.
Proof.
  intros H HM.
  apply engine_inv in H as (name & df & rest & mats & Esd & _ & HF & ->).
  rewrite nth_error_map in HM.
  destruct (nth_error mats w) as [m|] eqn:Hw; [|discriminate].
  injection HM as <-. simpl.
  destruct (Forall2_nth_error_r _ _ _ _ _ HF Hw) as (w' & Hw' & Hbuild).
  apply range_nth_error in Hw' as [-> _].
  apply window_matrix_contents in Hbuild as [Hsq Hcells].
  unfold keys in Hsq, Hcells. rewrite length_map in Hsq, Hcells.
  split; [reflexivity|]. split; assumption.
Qed.

(** X1: every cell of every matrix the engine returns holds NaN or a number
    from -1 to 1, the range [heat_map] gives its colour scale. *)
Theorem engine_entries_in_scale (stock_data : dict DataFrame) (window_size : Z)
  (ms : list CorrelationFrame) (M : CorrelationFrame) (i j : nat) (v : float) :
  calculate_correlation_matrices_per_window stock_data window_size = Ok ms ->
  In M ms ->
  get_item (values M) i j = Some v ->
  in_scale v = true.
Proof.
  intros H HM G. apply In_nth_error in HM as (w & Hw).
  destruct (engine_matrix_cells _ _ _ _ _ H Hw) as (_ & Hsq & Hcells).
  destruct (get_item_Some_range _ _ _ _ _ Hsq G) as [Hi Hj].
  assert (Hcell : exists a b v',
             Cij_num_win stock_data (keys stock_data) window_size w a b = Ok v'
             /\ v' = v).
  { destruct (Nat.le_gt_cases i j) as [Hij|Hji].
    - destruct (Hcells i j Hij Hj) as (v' & Hv' & G1 & _).
      exists i, j, v'. split; [exact Hv' | congruence].
    - destruct (Hcells j i ltac:(lia) Hi) as (v' & Hv' & _ & G2).
      exists j, i, v'. split; [exact Hv' | congruence]. }
  destruct Hcell as (a & b & v' & Hv' & <-).
  destruct (Cij_first_chunk _ _ _ _ _ _ Hv') as (ca & Eca & Hb).
  unfold Cij_num_win, instrument_chunk in *.
  apply bind_Ok_inv in Hv' as (name_a & Ena & Hv'). rewrite Ena in Eca. cbn [bind] in Eca.
  apply bind_Ok_inv in Hv' as (df_a & Eda & Hv'). rewrite Eda in Eca. cbn [bind] in Eca.
  apply bind_Ok_inv in Hv' as (name_b & Enb & Hv').
  apply bind_Ok_inv in Hv' as (df_b & Edb & Hv').
  apply bind_Ok_inv in Hv' as (sa & Esa & Hv'). rewrite Esa in Eca. cbn [bind] in Eca.
  apply bind_Ok_inv in Hv' as (wa & Ewa & Hv'). rewrite Ewa in Eca. cbn [bind] in Eca.
  apply bind_Ok_inv in Hv' as (sb & Esb & Hv').
  apply bind_Ok_inv in Hv' as (wb & Ewb & Hv').
  rewrite Eca in Hv'. cbn [bind] in Hv'.
  destruct (1 <? length ca)%nat; [|injection Hv' as <-; reflexivity].
  apply bind_Ok_inv in Hv' as (cb & Ecb & Hv').
  destruct (1 <? length cb)%nat; [|injection Hv' as <-; reflexivity].
  apply corrcoef01_in_scale in Hv'. exact Hv'.
Qed.

Lemma engine_entries_in_scale_witness :
  exists ms M v,
    calculate_correlation_matrices_per_window sample_stock_data 2 = Ok ms /\
    nth_error ms 1 = Some M /\
    get_item (values M) 0 1 = Some v /\
    in_scale v = true.
Proof.
  destruct (calculate_correlation_matrices_per_window sample_stock_data 2)
    as [ms|e] eqn:E; [|vm_compute in E; discriminate].
  destruct (nth_error ms 1) as [M|] eqn:EM;
    [|vm_compute in E; injection E as <-; discriminate].
  destruct (get_item (values M) 0 1) as [v|] eqn:G;
    [|vm_compute in E; injection E as <-; vm_compute in EM; injection EM as <-;
      discriminate].
  exists ms, M, v. split; [reflexivity|]. split; [exact EM|]. split; [exact G|].
  apply (engine_entries_in_scale sample_stock_data 2 ms M 0 1 v E);
    [eapply nth_error_In; exact EM | exact G].
Defined.

(** X2: every frame the engine returns is labelled, on both axes, with the
    keys of [stock_data] in insertion order, and its matrix has one row and
    one column per company. *)
Theorem engine_frames_labelled (stock_data : dict DataFrame) (window_size : Z)
  (ms : list CorrelationFrame) (M : CorrelationFrame) :
  calculate_correlation_matrices_per_window stock_data window_size = Ok ms ->
  In M ms ->
  index M = keys stock_data /\
  columns M = keys stock_data /\
  length (values M) = length stock_data /\
  Forall (fun row => length row = length stock_data) (values M).
Proof.
  intros H HM. apply In_nth_error in HM as (w & Hw).
  destruct (engine_matrix_cells _ _ _ _ _ H Hw) as (EM & [Hl Hr] & _).
  split; [rewrite EM; reflexivity|]. split; [rewrite EM; reflexivity|].
  split; [exact Hl|]. apply Forall_forall. intros row Hrow.
  apply In_nth_error in Hrow as (a & Ha). exact (Hr a row Ha).
Qed.

Lemma engine_frames_labelled_witness :
  exists ms M,
    calculate_correlation_matrices_per_window sample_stock_data 2 = Ok ms /\
    nth_error ms 0 = Some M /\
    index M = ["A"; "B"]%string /\
    length (values M) = 2.
Proof.
  destruct (calculate_correlation_matrices_per_window sample_stock_data 2)
    as [ms|e] eqn:E; [|vm_compute in E; discriminate].
  destruct (nth_error ms 0) as [M|] eqn:EM;
    [|vm_compute in E; injection E as <-; discriminate].
  destruct (engine_frames_labelled sample_stock_data 2 ms M E)
    as (Hi & _ & Hl & _); [eapply nth_error_In; exact EM|].
  exists ms, M. split; [reflexivity|]. split; [exact EM|]. split; [exact Hi | exact Hl].
Defined.

(** ** Window sizes the engine does not expect *)

(** X3: with at least one company, a window size of 0 makes the engine raise
    [ZeroDivisionError]; a negative window size, or one larger than the first
    company's series, makes it return the empty list, without looking at any
    other company. *)
Theorem engine_window_size_edges (name : string) (df : DataFrame)
  (rest : dict DataFrame) (window_size : Z) :
  (window_size = 0%Z ->
   calculate_correlation_matrices_per_window ((name, df) :: rest) window_size
   = Raise ZeroDivisionError) /\
  ((window_size < 0)%Z \/ (Z.of_nat (length (Normalized_Return df)) < window_size)%Z ->
   calculate_correlation_matrices_per_window ((name, df) :: rest) window_size
   = Ok []).
Proof.
  split.
  - intros ->. rewrite engine_first. reflexivity.
  - intros HW. rewrite engine_first. unfold floordiv.
    destruct (Z.eqb_spec window_size 0) as [->|Hne]; [lia|]. cbn [bind].
    assert (Hc : (Z.of_nat (length (Normalized_Return df)) / window_size <= 0)%Z).
    { destruct HW as [Hneg|Hbig].
      - destruct (Z.le_gt_cases
                    (Z.of_nat (length (Normalized_Return df)) / window_size) 0)
          as [Hle|Hgt]; [exact Hle|].
        apply sections_positive in Hgt. lia.
      - rewrite Z.div_small by lia. lia. }
    unfold range. replace (Z.to_nat _) with 0 by lia. reflexivity.
Qed.

Lemma engine_window_size_edges_witness :
  calculate_correlation_matrices_per_window sample_stock_data 5 = Ok [].
Proof.
  apply (engine_window_size_edges "A"%string (sample_frame [0; 2; 1; 5]%float)
           [("B"%string, sample_frame [1; 2; 4; 3]%float)] 5).
  right. simpl. lia.
Defined.

(** ** The exceptions of the engine *)

(** A loop that raises does so in one of its passes, on a state the
    invariant holds for. *)
Lemma for_each_Raise_inv {A B : Type} (P : B -> Prop) (body : B -> A -> result B)
  (e : exn) :
  (forall b a b', P b -> body b a = Ok b' -> P b') ->
  forall l b, P b -> for_each l body b = Raise e ->
  exists b0 a, In a l /\ P b0 /\ body b0 a = Raise e.
Proof.
  intros step; induction l as [|a l IH]; simpl; intros b Hb H; [discriminate|].
  destruct (body b a) as [b1|e1] eqn:E; simpl in H.
  - destruct (IH b1 (step _ _ _ Hb E) H) as (b0 & a0 & Hin & Hb0 & Hr).
    exists b0, a0. auto.
  - injection H as <-. exists b, a. auto.
Qed.

(** The value of a pair of companies of the mapping: the look-ups by name do
    not fail, and a division by zero is the window size's. *)
Lemma Cij_Raise_inv (stock_data : dict DataFrame) (window_size : Z)
  (win_num i j : nat) (e : exn) :
  i < length stock_data -> j < length stock_data ->
  Cij_num_win stock_data (keys stock_data) window_size win_num i j = Raise e ->
  e = IndexError \/ e = ValueError \/ (e = ZeroDivisionError /\ window_size = 0%Z).
Proof.
  intros Hi Hj. unfold Cij_num_win, list_index.
  destruct (nth_error (keys stock_data) i) as [name_i|] eqn:Ei.
  2:{ apply nth_error_None in Ei. unfold keys in Ei. rewrite length_map in Ei. lia. }
  cbn [bind]. destruct (dict_get_keys _ _ _ Ei) as (df_i & -> & _). cbn [bind].
  destruct (nth_error (keys stock_data) j) as [name_j|] eqn:Ej.
  2:{ apply nth_error_None in Ej. unfold keys in Ej. rewrite length_map in Ej. lia. }
  cbn [bind]. destruct (dict_get_keys _ _ _ Ej) as (df_j & -> & _). cbn [bind].
  unfold floordiv. destruct (Z.eqb_spec window_size 0) as [->|Hne]; cbn [bind].
  { intros H; injection H as <-. auto. }
  unfold np.array_split at 1.
  destruct (Z.of_nat (len df_i) / window_size <=? 0)%Z; cbn [bind].
  { intros H; injection H as <-. auto. }
  unfold np.array_split at 1.
  destruct (Z.of_nat (len df_j) / window_size <=? 0)%Z; cbn [bind].
  { intros H; injection H as <-. auto. }
  match goal with |- context [nth_error ?l win_num] =>
    destruct (nth_error l win_num) as [chunk_i|] end; cbn [bind].
  2:{ intros H; injection H as <-. auto. }
  destruct (1 <? length chunk_i)%nat; [|discriminate].
  match goal with |- context [nth_error ?l win_num] =>
    destruct (nth_error l win_num) as [chunk_j|] end; cbn [bind].
  2:{ intros H; injection H as <-. auto. }
  destruct (1 <? length chunk_j)%nat; [|discriminate].
  unfold np.corrcoef01. destruct (length chunk_i =? length chunk_j)%nat; [discriminate|].
  intros H; injection H as <-. auto.
Qed.

Lemma fill_cell_Raise_inv (stock_data : dict DataFrame) (window_size : Z)
  (win_num n i j : nat) (m : matrix) (e : exn) :
  square n m -> i < n -> j < n ->
  fill_cell stock_data (keys stock_data) window_size win_num i m j = Raise e ->
  Cij_num_win stock_data (keys stock_data) window_size win_num i j = Raise e.
Proof.
  intros Hsq Hi Hj. unfold fill_cell.
  destruct (Cij_num_win stock_data (keys stock_data) window_size win_num i j)
    as [v|e'] eqn:Ev; cbn [bind]; [|intros H; injection H as <-; reflexivity].
  destruct (set_item_total _ _ _ _ v Hsq Hi Hj) as (m1 & E1). rewrite E1. cbn [bind].
  destruct (set_item_spec _ _ _ _ _ _ Hsq E1) as (_ & _ & Hsq1 & _).
  destruct (set_item_total _ _ _ _ v Hsq1 Hj Hi) as (m2 & E2). rewrite E2.
  discriminate.
Qed.

Lemma fill_row_square (stock_data : dict DataFrame) (window_size : Z)
  (win_num n i : nat) (m m' : matrix) :
  square n m ->
  fill_row stock_data (keys stock_data) window_size win_num n m i = Ok m' ->
  square n m'.
Proof.
  intros Hsq. unfold fill_row. apply (for_each_invariant (square n)); [|exact Hsq].
  intros m0 j m1 Hsq0 H.
  destruct (fill_cell_spec _ _ _ _ _ _ _ _ Hsq0 H) as (_ & _ & _ & _ & Hsq1 & _).
  exact Hsq1.
Qed.

Lemma window_matrix_Raise_inv (stock_data : dict DataFrame) (window_size : Z)
  (win_num : nat) (e : exn) :
  window_matrix stock_data (keys stock_data) window_size
    (length (keys stock_data)) win_num = Raise e ->
  exists i j,
    i < length stock_data /\ j < length stock_data /\
    Cij_num_win stock_data (keys stock_data) window_size win_num i j = Raise e.
Proof.
  unfold window_matrix, keys. rewrite length_map. fold (keys stock_data).
  set (n := length stock_data). intros H.
  apply (for_each_Raise_inv (square n)) in H as (m & i & Hi & Hsq & H).
  - unfold range2 in Hi. apply in_seq in Hi. unfold fill_row in H.
    apply (for_each_Raise_inv (square n)) in H as (m' & j & Hj & Hsq' & H).
    + unfold range2 in Hj. apply in_seq in Hj.
      exists i, j. split; [lia|]. split; [lia|].
      apply (fill_cell_Raise_inv _ _ _ n _ _ m'); [exact Hsq' | lia | lia | exact H].
    + intros m0 j0 m1 Hsq0 H0.
      destruct (fill_cell_spec _ _ _ _ _ _ _ _ Hsq0 H0) as (_ & _ & _ & _ & Hsq1 & _).
      exact Hsq1.
    + exact Hsq.
  - intros m0 i0 m1. apply fill_row_square.
  - apply zeros_square.
Qed.

(** X4: the engine raises nothing but [IndexError], [ValueError] and
    [ZeroDivisionError]: never [KeyError], the names it looks up being the
    mapping's own keys.  It raises [ZeroDivisionError] exactly when the window
    size is 0 and the mapping is not empty; on the empty mapping it is
    [IndexError]. *)
Theorem engine_exceptions (stock_data : dict DataFrame) (window_size : Z) (e : exn) :
  calculate_correlation_matrices_per_window stock_data window_size = Raise e ->
  (e = IndexError \/ e = ValueError \/ e = ZeroDivisionError) /\
  e <> KeyError /\
  (e = ZeroDivisionError <-> window_size = 0%Z /\ stock_data <> []) /\
  (stock_data = [] -> e = IndexError).
Proof.
  intros H.
  assert (Hcases : (stock_data = [] /\ e = IndexError)
                   \/ (stock_data <> [] /\ window_size = 0%Z /\ e = ZeroDivisionError)
                   \/ (stock_data <> [] /\ window_size <> 0%Z
                       /\ (e = IndexError \/ e = ValueError))).
  { destruct stock_data as [|[name df] rest] eqn:Esd.
    - left. split; [reflexivity|]. vm_compute in H. congruence.
    - right. rewrite <- Esd in *.
      assert (Hne : stock_data <> []) by (rewrite Esd; discriminate).
      rewrite Esd, engine_first, <- Esd in H. unfold floordiv in H.
      destruct (Z.eqb_spec window_size 0) as [HW|HW]; cbn [bind] in H.
      + left. injection H as <-. auto.
      + right. split; [exact Hne|]. split; [exact HW|].
        apply (for_each_Raise_inv (fun _ => True)) in H as (acc & w & _ & _ & H);
          [|auto|exact I].
        destruct (window_matrix stock_data (keys stock_data) window_size
                    (length (keys stock_data)) w) as [m|e'] eqn:Ew;
          cbn [bind] in H; [discriminate|]. injection H as ->.
        apply window_matrix_Raise_inv in Ew as (i & j & Hi & Hj & Hc).
        apply Cij_Raise_inv in Hc as [->|[->|[_ HW0]]]; auto. contradiction. }
  destruct Hcases as [[Hsd ->]|[(Hsd & HW & ->)|(Hsd & HW & [->| ->])]];
    (split; [auto|]); (split; [discriminate|]);
    (split; [split; [intros H0 | intros [H0 H1]] | intros H0]);
    try discriminate; try contradiction; auto.
Qed.

Lemma engine_exceptions_witness :
  calculate_correlation_matrices_per_window sample_short_stock_data 2
  = Raise IndexError /\
  IndexError <> KeyError.
Proof.
  assert (H : calculate_correlation_matrices_per_window sample_short_stock_data 2
              = Raise IndexError) by (vm_compute; reflexivity).
  split; [exact H|].
  exact (proj1 (proj2 (engine_exceptions sample_short_stock_data 2 IndexError H))).
Defined.

(** ** Non-finite values in the engine *)

Lemma mul_nonfinite_r (x y : float) :
  is_finite y = false -> is_finite (x * y) = false.
Proof.
  rewrite !is_finite_SF, mul_spec.
  float_cases x; float_cases y; simpl; congruence.
Qed.

Lemma div_nan_l (y : float) : (nan / y)%float = nan.
Proof.
  apply is_nan_SF. rewrite div_spec. change (Prim2SF nan) with S754_nan.
  reflexivity.
Qed.

Lemma dot_nonfinite_l (xc yc : list float) :
  Forall (fun v => is_finite v = false) xc -> xc <> [] -> yc <> [] ->
  is_finite (np.dot xc yc) = false.
Proof.
  intros Hall Hx Hy. destruct xc as [|x xc]; [contradiction|].
  destruct yc as [|y yc]; [contradiction|].
  unfold np.dot. apply add_reduce_nonfinite with (x := (x * y)%float).
  - left; reflexivity.
  - apply mul_nonfinite_l. inversion Hall; assumption.
Qed.

Lemma dot_nonfinite_r (xc yc : list float) :
  Forall (fun v => is_finite v = false) yc -> xc <> [] -> yc <> [] ->
  is_finite (np.dot xc yc) = false.
Proof.
  intros Hall Hx Hy. destruct xc as [|x xc]; [contradiction|].
  destruct yc as [|y yc]; [contradiction|].
  unfold np.dot. apply add_reduce_nonfinite with (x := (x * y)%float).
  - left; reflexivity.
  - apply mul_nonfinite_r. inversion Hall; assumption.
Qed.

(** Centring a row that holds a non-finite value leaves no finite value. *)
Lemma centred_nonfinite (a : list float) (x : float) :
  In x a -> is_finite x = false ->
  Forall (fun v => is_finite v = false) (map (fun v => (v - np.mean a)%float) a).
Proof.
  intros Hin Hx. apply Forall_forall. intros d Hd.
  apply in_map_iff in Hd as (v & <- & _).
  apply sub_nonfinite_r. eapply mean_nonfinite; eauto.
Qed.

Lemma cov_entry_nonfinite_l (a b : list float) (x : float) :
  In x a -> is_finite x = false -> b <> [] ->
  is_finite (np.cov_entry a b) = false.
Proof.
  intros Hin Hx Hb. unfold np.cov_entry. apply mul_nonfinite_l.
  apply dot_nonfinite_l.
  - eapply centred_nonfinite; eauto.
  - destruct a; [contradiction | discriminate].
  - destruct b; [contradiction | discriminate].
Qed.

Lemma cov_entry_nonfinite_r (a b : list float) (x : float) :
  In x b -> is_finite x = false -> a <> [] ->
  is_finite (np.cov_entry a b) = false.
Proof.
  intros Hin Hx Ha. unfold np.cov_entry. apply mul_nonfinite_l.
  apply dot_nonfinite_r.
  - eapply centred_nonfinite; eauto.
  - destruct a; [contradiction | discriminate].
  - destruct b; [contradiction | discriminate].
Qed.

(** [np.corrcoef] of two rows of one length is NaN as soon as one of the rows
    holds a non-finite value. *)
Lemma corrcoef01_nonfinite (a b : list float) (x : float) :
  length a = length b ->
  In x a \/ In x b -> is_finite x = false ->
  np.corrcoef01 a b = Ok nan.
Proof.
  intros Hlen Hin Hx. unfold np.corrcoef01. rewrite Hlen, Nat.eqb_refl. f_equal.
  assert (Ha : a <> []).
  { destruct a; [|discriminate]. destruct b; [|discriminate].
    destruct Hin as [[]|[]]. }
  assert (Hb : b <> []) by (destruct b; [destruct a; [contradiction|discriminate]
                                        | discriminate]).
  destruct Hin as [Hin|Hin].
  - rewrite (div_nonfinite_nan (np.cov_entry a b) (sqrt (np.cov_entry a a))).
    + rewrite div_nan_l. reflexivity.
    + eapply cov_entry_nonfinite_l; eauto.
    + apply sqrt_nonfinite. eapply cov_entry_nonfinite_l; eauto.
  - rewrite (div_nonfinite_nan (np.cov_entry a b / sqrt (np.cov_entry a a))
               (sqrt (np.cov_entry b b))).
    + reflexivity.
    + apply div_nonfinite_l. eapply cov_entry_nonfinite_r; eauto.
    + apply sqrt_nonfinite. eapply cov_entry_nonfinite_r; eauto.
Qed.

Lemma pair_value_nonfinite (a b : list float) (x v : float) :
  In x a \/ In x b -> is_finite x = false ->
  pair_value a b = Ok v -> v = nan.
Proof.
  intros Hin Hx. unfold pair_value.
  destruct ((1 <? length a)%nat && (1 <? length b)%nat).
  - intros H. pose proof (corrcoef01_Ok_length _ _ _ H) as Hlen.
    rewrite (corrcoef01_nonfinite a b x Hlen Hin Hx) in H. congruence.
  - congruence.
Qed.

(** X5: when chunk [w] of a company holds a non-finite value (a NaN or an
    infinity), the whole row and the whole column of that company in the
    matrix of window [w] are NaN. *)
Theorem engine_nonfinite_row (stock_data : dict DataFrame) (window_size : Z)
  (ms : list CorrelationFrame) (w : nat) (M : CorrelationFrame) (i j : nat)
  (chunk : list float) (x : float) :
  calculate_correlation_matrices_per_window stock_data window_size = Ok ms ->
  nth_error ms w = Some M ->
  instrument_chunk stock_data window_size w i = Ok chunk ->
  In x chunk -> is_finite x = false ->
  i < length stock_data -> j < length stock_data ->
  get_item (values M) i j = Some nan /\ get_item (values M) j i = Some nan.
Proof.
  intros H HM Ec Hin Hx Hi Hj.
  destruct (Nat.le_gt_cases i j) as [Hij|Hji].
  - destruct (engine_pair_cells _ _ _ _ _ _ _ H HM Hij Hj)
      as (ci & cj & v & Eci & Ecj & Hv & G1 & G2).
    assert (ci = chunk) by congruence. subst ci.
    rewrite (pair_value_nonfinite chunk cj x v (or_introl Hin) Hx Hv) in G1, G2. auto.
  - destruct (engine_pair_cells _ _ _ _ _ j i H HM ltac:(lia) Hi)
      as (cj & ci & v & Ecj & Eci & Hv & G1 & G2).
    assert (ci = chunk) by congruence. subst ci.
    rewrite (pair_value_nonfinite cj chunk x v (or_intror Hin) Hx Hv) in G1, G2. auto.
Qed.

Lemma engine_nonfinite_row_witness :
  exists ms M,
    calculate_correlation_matrices_per_window sample_nan_stock_data 2 = Ok ms /\
    nth_error ms 1 = Some M /\
    get_item (values M) 0 1 = Some nan /\ get_item (values M) 1 0 = Some nan.
Proof.
  destruct (calculate_correlation_matrices_per_window sample_nan_stock_data 2)
    as [ms|e] eqn:E; [|vm_compute in E; discriminate].
  destruct (nth_error ms 1) as [M|] eqn:EM;
    [|vm_compute in E; injection E as <-; discriminate].
  exists ms, M. split; [reflexivity|]. split; [exact EM|].
  apply (engine_nonfinite_row sample_nan_stock_data 2 ms 1 M 0 1 [nan; 5]%float nan E EM).
  - reflexivity.
  - left; reflexivity.
  - reflexivity.
  - simpl; lia.
  - simpl; lia.
Defined.

(** ** Further properties of the Window Normalizer *)

(** X6: the normalizer raises exactly when the window size is not positive,
    and then it is [np.array_split]'s [ValueError]; no value of the series (NaN,
    infinity) and no length makes it raise, and the empty series gives the
    empty result. *)
Theorem normalizer_exceptions (returns : list float) (window_size : Z) :
  (forall e,
      calculate_normalized_returns_zero_mean returns window_size = Raise e
      <-> e = ValueError /\ (window_size <= 0)%Z) /\
  ((0 < window_size)%Z ->
   calculate_normalized_returns_zero_mean [] window_size = Ok []).
Proof.
  split.
  - intros e. destruct (Z.le_gt_cases window_size 0) as [Hle|Hgt].
    + unfold calculate_normalized_returns_zero_mean.
      rewrite array_split_nonpositive by exact Hle. cbn [bind].
      split; [intros H; injection H as <-; auto | intros [-> _]; reflexivity].
    + destruct (normalizer_length_facts returns window_size ltac:(lia))
        as (out & -> & _).
      split; [discriminate | intros [_ H]; lia].
  - intros HW.
    destruct (normalizer_length_facts [] window_size HW) as (out & -> & Hl).
    destruct out; [reflexivity | discriminate].
Qed.

(** A non-finite value of the series gives its chunk a non-finite per-chunk
    value. *)
Lemma nonfinite_value_chunk (returns : list float) (window_size : Z) (x : float) :
  (0 < window_size)%Z ->
  In x returns -> is_finite x = false ->
  exists windows chunk r,
    np.array_split returns window_size = Ok windows /\
    In chunk windows /\ In r (per_chunk_normalized chunk) /\ is_finite r = false.
Proof.
  intros HW Hin Hx.
  pose proof (array_split_split_by returns window_size HW) as E.
  set (windows := split_by _ returns) in E.
  assert (Hcat : concat windows = returns).
  { unfold windows. rewrite split_by_concat, chunk_sizes_sum by lia. apply firstn_all. }
  rewrite <- Hcat in Hin. apply in_concat in Hin as (chunk & Hchunk & Hxc).
  exists windows, chunk, ((x - np.mean chunk) / np.std chunk)%float.
  split; [exact E|]. split; [exact Hchunk|]. split.
  - unfold per_chunk_normalized. apply in_map_iff. exists x. auto.
  - apply div_nonfinite_l, sub_nonfinite_l, Hx.
Qed.

(** X7: one non-finite value anywhere in the series, and the normalizer
    returns NaN at every position. *)
Theorem normalizer_nonfinite_input (returns : list float) (window_size : Z)
  (x : float) :
  (0 < window_size)%Z ->
  In x returns -> is_finite x = false ->
  exists out,
    calculate_normalized_returns_zero_mean returns window_size = Ok out /\
    length out = length returns /\
    Forall (fun z => z = nan) out.
Proof.
  intros HW Hin Hx.
  destruct (nonfinite_value_chunk returns window_size x HW Hin Hx)
    as (windows & chunk & r & E & Hchunk & Hr & Hnf).
  destruct (normalizer_all_nan returns window_size windows chunk r E Hchunk Hr Hnf)
    as (out & Eout & Hnan).
  exists out. split; [exact Eout|]. split; [|exact Hnan].
  destruct (normalizer_length_facts returns window_size HW) as (out' & Eout' & Hl).
  congruence.
Qed.

Lemma normalizer_nonfinite_input_witness :
  exists out,
    calculate_normalized_returns_zero_mean [1; 2; infinity; 4; 5; 7]%float 2 = Ok out /\
    length out = 6 /\
    Forall (fun z => z = nan) out.
Proof.
  apply (normalizer_nonfinite_input [1; 2; infinity; 4; 5; 7]%float 2 infinity).
  - lia.
  - right; right; left; reflexivity.
  - reflexivity.
Defined.

(** A series shorter than two windows has a chunk of exactly one element. *)
Lemma short_series_singleton_chunk (returns : list float) (window_size : Z) :
  (0 < window_size)%Z ->
  0 < length returns ->
  (Z.of_nat (length returns) < 2 * window_size)%Z ->
  exists windows chunk,
    np.array_split returns window_size = Ok windows /\
    In chunk windows /\ length chunk = 1.
Proof.
  intros HW HN Hshort.
  set (W := Z.to_nat window_size). set (N := length returns).
  assert (HWn : 0 < W) by (unfold W; lia).
  assert (HNW : N < 2 * W) by (unfold W, N; lia).
  set (k := if (N <? W)%nat then 0 else W - 1).
  assert (Hk : k < W) by (unfold k; destruct (N <? W)%nat; lia).
  assert (Hsize : chunk_size N W k = 1).
  { unfold chunk_size, k. destruct (Nat.ltb_spec N W) as [Hlt|Hge].
    - rewrite Nat.div_small, Nat.mod_small by exact Hlt.
      destruct (Nat.ltb_spec 0 N); lia.
    - assert (Hq : N / W = 1).
      { symmetry. apply (Nat.div_unique N W 1 (N - W)); lia. }
      assert (Hr : N mod W = N - W).
      { symmetry. apply (Nat.mod_unique N W 1 (N - W)); lia. }
      rewrite Hq, Hr. destruct (Nat.ltb_spec (W - 1) (N - W)); lia. }
  destruct (array_split_nth returns window_size k HW Hk) as (windows & E & Ek & Hb).
  fold W N in Ek, Hb. rewrite Hsize in Ek, Hb.
  exists windows. eexists. split; [exact E|]. split.
  - eapply nth_error_In; exact Ek.
  - rewrite length_firstn, length_skipn. fold N. lia.
Qed.

(** X8: a series of at least one and fewer than [2 * window_size] values is
    normalized to NaN at every position: one of its chunks has a single
    element.  With the main script's 13 windows, that is every company with
    fewer than 26 rows. *)
Theorem normalizer_short_series (returns : list float) (window_size : Z) :
  (0 < window_size)%Z ->
  0 < length returns ->
  (Z.of_nat (length returns) < 2 * window_size)%Z ->
  exists out,
    calculate_normalized_returns_zero_mean returns window_size = Ok out /\
    length out = length returns /\
    Forall (fun z => z = nan) out.
Proof.
  intros HW HN Hshort.
  destruct (short_series_singleton_chunk returns window_size HW HN Hshort)
    as (windows & chunk & E & Hin & Hlen).
  destruct chunk as [|x [|y chunk]]; try discriminate.
  destruct (normalizer_all_nan returns window_size windows [x] nan E Hin)
    as (out & Eout & Hnan).
  - rewrite per_chunk_normalized_singleton. left; reflexivity.
  - reflexivity.
  - exists out. split; [exact Eout|]. split; [|exact Hnan].
    destruct (normalizer_length_facts returns window_size HW) as (out' & Eout' & Hl).
    congruence.
Qed.

Lemma normalizer_short_series_witness :
  exists out,
    calculate_normalized_returns_zero_mean [1; 2; 3; 4; 5]%float 3 = Ok out /\
    length out = 5 /\
    Forall (fun z => z = nan) out.
Proof.
  apply (normalizer_short_series [1; 2; 3; 4; 5]%float 3).
  - lia.
  - simpl; lia.
  - simpl; lia.
Defined.

(** ** The main script *)

Lemma return_series_length (df : PriceFrame) :
  length (Close df) = length (Open df) ->
  length (return_series df) = length (Open df).
Proof.
  intros H. unfold return_series. rewrite !series_binop_length. lia.
Qed.

(** What the loop body makes of one frame. *)
Lemma add_return_columns_Ok (df : PriceFrame) :
  exists normalized,
    calculate_normalized_returns_zero_mean (return_series df) window_size_normalize
    = Ok normalized /\
    length normalized = length (return_series df) /\
    add_return_columns df
    = Ok {| prices := df; Return := return_series df;
            Normalized_Return := normalized |}.
Proof.
  destruct (normalizer_length_facts (return_series df) window_size_normalize
              ltac:(reflexivity)) as (normalized & E & Hl).
  exists normalized. split; [exact E|]. split; [exact Hl|].
  unfold add_return_columns. rewrite E. reflexivity.
Qed.

(** X9: the loop body of the main script never raises, whatever the prices;
    it keeps the price columns, and for aligned columns of N prices both
    columns it adds have N rows, as pandas requires of a new column. *)
Theorem add_return_columns_rows (df : PriceFrame) :
  exists df',
    add_return_columns df = Ok df' /\
    prices df' = df /\
    Return df' = return_series df /\
    length (Normalized_Return df') = length (Return df') /\
    (length (Close df) = length (Open df) ->
     length (Return df') = length (Open df) /\
     length (Normalized_Return df') = length (Open df)).
Proof.
  destruct (add_return_columns_Ok df) as (normalized & _ & Hl & E).
  eexists. split; [exact E|]. cbn [prices Return Normalized_Return].
  repeat split; try assumption.
  - apply return_series_length; assumption.
  - rewrite Hl. apply return_series_length; assumption.
Qed.

(** An opening price of 0 leaves no normalized return but NaN. *)
Lemma zero_open_all_nan (df : PriceFrame) (t : nat) (o : float) :
  length (Close df) = length (Open df) ->
  nth_error (Open df) t = Some o ->
  (o =? 0)%float = true ->
  exists normalized,
    add_return_columns df
    = Ok {| prices := df; Return := return_series df;
            Normalized_Return := normalized |} /\
    length normalized = length (return_series df) /\
    Forall (fun z => z = nan) normalized.
Proof.
  intros Hlen Ho Hz.
  destruct (nth_error (Close df) t) as [c|] eqn:Hc.
  2:{ apply nth_error_None in Hc.
      assert (t < length (Open df)) by (apply nth_error_Some; congruence). lia. }
  assert (Hr : nth_error (return_series df) t = Some ((c - o) / o)%float).
  { unfold return_series. apply series_binop_nth_error; [|exact Ho].
    apply series_binop_nth_error; assumption. }
  apply nth_error_In in Hr.
  destruct (nonfinite_value_chunk (return_series df) window_size_normalize
              ((c - o) / o)%float ltac:(reflexivity) Hr (div_zero_nonfinite _ _ Hz))
    as (windows & chunk & r & E & Hchunk & Hin & Hnf).
  destruct (normalizer_all_nan _ _ windows chunk r E Hchunk Hin Hnf)
    as (out & Eout & Hnan).
  destruct (add_return_columns_Ok df) as (normalized & En & Hl & Edf).
  assert (normalized = out) by congruence. subst normalized.
  exists out. auto.
Qed.

(** X10: one opening price of 0 in a frame with aligned columns, and every
    normalized return of that company is NaN. *)
Theorem zero_open_poisons_company (df : PriceFrame) (t : nat) (o : float) :
  length (Close df) = length (Open df) ->
  nth_error (Open df) t = Some o ->
  (o =? 0)%float = true ->
  exists df',
    add_return_columns df = Ok df' /\
    length (Normalized_Return df') = length (Open df) /\
    Forall (fun z => z = nan) (Normalized_Return df').
Proof.
  intros Hlen Ho Hz.
  destruct (zero_open_all_nan df t o Hlen Ho Hz) as (normalized & Edf & Hl & Hnan).
  eexists. split; [exact Edf|]. cbn [Normalized_Return].
  split; [|exact Hnan]. rewrite Hl. apply return_series_length; exact Hlen.
Qed.

Lemma zero_open_poisons_company_witness :
  exists df',
    add_return_columns sample_prices = Ok df' /\
    length (Normalized_Return df') = 3 /\
    Forall (fun z => z = nan) (Normalized_Return df').
Proof.
  apply (zero_open_poisons_company sample_prices 1 0%float); reflexivity.
Defined.

(** The loop over the mapping keeps the keys and their order. *)
Lemma add_return_columns_all_Ok (stock_data : dict PriceFrame) :
  exists stock_data',
    add_return_columns_all stock_data = Ok stock_data' /\
    keys stock_data' = keys stock_data /\
    Forall2 (fun df df' => add_return_columns df = Ok df')
            (map snd stock_data) (map snd stock_data').
Proof.
  induction stock_data as [|[company df] rest (rest' & E & Hk & HF)];
    cbn [add_return_columns_all].
  - exists []. repeat split; constructor.
  - destruct (add_return_columns_Ok df) as (normalized & _ & _ & Edf).
    rewrite Edf, E. cbn [bind]. eexists. split; [reflexivity|].
    unfold keys in *. cbn [map fst snd]. split; [rewrite Hk; reflexivity|].
    constructor; [exact Edf | exact HF].
Qed.

(** On a mapping that is not empty and whose series all have [L] values, the
    engine returns, one matrix per window. *)
Lemma engine_returns_equal_lengths (stock_data : dict DataFrame) (window_size : Z)
  (L : nat) :
  (0 < window_size)%Z ->
  stock_data <> [] ->
  Forall (fun df => len df = L) (map snd stock_data) ->
  exists ms,
    calculate_correlation_matrices_per_window stock_data window_size = Ok ms /\
    length ms = Z.to_nat (Z.of_nat L / window_size).
Proof.
  intros HW Hne Hall.
  destruct stock_data as [|[name df] rest] eqn:Esd; [contradiction|].
  rewrite <- Esd in *.
  assert (HL : length (Normalized_Return df) = L).
  { rewrite Esd in Hall. simpl in Hall. inversion Hall; assumption. }
  assert (Hrun : exists ms,
             calculate_correlation_matrices_per_window stock_data window_size = Ok ms).
  { rewrite Esd, engine_first, <- Esd. unfold floordiv.
    destruct (Z.eqb_spec window_size 0) as [|_]; [lia|]. cbn [bind]. rewrite HL.
    apply for_each_collect_total with (g := frame_of (keys stock_data)).
    apply Forall_forall. intros w Hw. unfold range in Hw. apply in_seq in Hw.
    apply window_matrix_total. intros i j Hij Hj.
    unfold keys in Hj. rewrite length_map in Hj.
    destruct (instrument_chunk_total stock_data window_size L w i HW Hall)
      as (ci & Eci & Hci); [lia | lia |].
    destruct (instrument_chunk_total stock_data window_size L w j HW Hall)
      as (cj & Ecj & Hcj); [lia | lia |].
    rewrite (Cij_of_chunks _ _ _ _ _ _ _ Eci Ecj). unfold pair_value.
    destruct ((1 <? length ci)%nat && (1 <? length cj)%nat); [|eauto].
    apply corrcoef01_same_length. congruence. }
  destruct Hrun as (ms & Hms). exists ms. split; [exact Hms|].
  apply engine_inv in Hms as (name' & df' & rest' & mats & E' & _ & HF & ->).
  rewrite Esd in E'. injection E' as <- <- <-.
  rewrite length_map, <- (Forall2_length HF). unfold range. rewrite length_seq, HL.
  reflexivity.
Qed.

(** X11: the whole computation of the main script, on a mapping that is not
    empty and whose frames all have N aligned rows, raises nothing and returns
    [N // 44] frames, each labelled with the companies in the mapping's order;
    with fewer than 44 rows it returns no frame at all.  On the empty mapping
    it raises [IndexError]. *)
Theorem correlation_results_count (stock_data : dict PriceFrame) (N : nat) :
  correlation_results [] = Raise IndexError /\
  (stock_data <> [] ->
   Forall (fun df => length (Open df) = N /\ length (Close df) = N)
          (map snd stock_data) ->
   exists ms,
     correlation_results stock_data = Ok ms /\
     length ms = N / 44 /\
     Forall (fun M => index M = keys stock_data /\ columns M = keys stock_data) ms /\
     (N < 44 -> ms = [])).
Proof.
  split; [reflexivity|]. intros Hne Hall.
  destruct (add_return_columns_all_Ok stock_data) as (sd' & E & Hk & HF).
  assert (Hne' : sd' <> []).
  { intros ->. destruct stock_data; [contradiction | discriminate]. }
  assert (Hall' : Forall (fun df => len df = N) (map snd sd')).
  { clear - Hall HF. induction HF as [|df df' l l' Hdf HF IH]; [constructor|].
    inversion Hall as [|? ? [Ho Hc] Hall']; subst. constructor; [|apply IH; exact Hall'].
    destruct (add_return_columns_Ok df) as (normalized & _ & Hl & Edf).
    rewrite Edf in Hdf. injection Hdf as <-. unfold len. cbn [Normalized_Return].
    rewrite Hl. rewrite return_series_length; congruence. }
  destruct (engine_returns_equal_lengths sd' window_size_correlation N
              ltac:(reflexivity) Hne' Hall') as (ms & Ems & Hlen).
  exists ms. unfold correlation_results. rewrite E. cbn [bind].
  split; [exact Ems|].
  assert (HlenN : length ms = N / 44).
  { rewrite Hlen. apply (sections_to_nat N 44). lia. }
  split; [exact HlenN|]. split.
  - apply Forall_forall. intros M HM. apply In_nth_error in HM as (w & Hw).
    destruct (engine_matrix_cells _ _ _ _ _ Ems Hw) as (EM & _).
    rewrite EM, <- Hk. split; reflexivity.
  - intros Hsmall. rewrite Nat.div_small in HlenN by exact Hsmall.
    destruct ms; [reflexivity | discriminate].
Qed.

(** ** Python dictionaries *)

Lemma dict_get_set_same {V : Type} (d : dict V) (k : string) (v : V) :
  dict_get (dict_set d k v) k = Ok v.
Proof.
  induction d as [|[k' v'] d IH]; simpl.
  - rewrite String.eqb_refl. reflexivity.
  - destruct (String.eqb k' k) eqn:E; simpl; rewrite E; [reflexivity | exact IH].
Qed.

Lemma dict_get_set_other {V : Type} (d : dict V) (k k0 : string) (v : V) :
  k0 <> k -> dict_get (dict_set d k v) k0 = dict_get d k0.
Proof.
  intros Hne. induction d as [|[k' v'] d IH]; simpl.
  - destruct (String.eqb_spec k k0); [congruence | reflexivity].
  - destruct (String.eqb_spec k' k) as [->|Hk]; simpl.
    + destruct (String.eqb_spec k k0); [congruence | reflexivity].
    + destruct (String.eqb k' k0); [reflexivity | exact IH].
Qed.

Lemma dict_set_keys {V : Type} (d : dict V) (k k0 : string) (v : V) :
  In k0 (keys (dict_set d k v)) <-> k0 = k \/ In k0 (keys d).
Proof.
  unfold keys. induction d as [|[k' v'] d IH]; simpl.
  - intuition congruence.
  - destruct (String.eqb_spec k' k) as [->|Hk]; simpl; [intuition congruence|].
    rewrite IH. intuition.
Qed.

Lemma dict_set_NoDup {V : Type} (d : dict V) (k : string) (v : V) :
  NoDup (keys d) -> NoDup (keys (dict_set d k v)).
Proof.
  unfold keys. induction d as [|[k' v'] d IH]; simpl; intros H.
  - constructor; [intros [] | constructor].
  - destruct (String.eqb_spec k' k) as [->|Hk]; simpl; [exact H|].
    inversion H as [|? ? Hnin Hnd]; subst. constructor; [|apply IH; exact Hnd].
    intros Hin. apply (dict_set_keys d k k' v) in Hin as [Heq|Hin]; [congruence|].
    exact (Hnin Hin).
Qed.

Lemma dict_get_not_key {V : Type} (d : dict V) (k : string) :
  ~ In k (keys d) -> dict_get d k = Raise KeyError.
Proof.
  unfold keys. induction d as [|[k' v'] d IH]; simpl; intros H; [reflexivity|].
  destruct (String.eqb_spec k' k) as [->|Hk]; [tauto|]. apply IH. tauto.
Qed.

(** ** File names *)

Lemma endswith_spec (s suffix : string) :
  endswith s suffix = true <-> exists p, s = (p ++ suffix)%string.
Proof.
  induction s as [|c s IH]; cbn [endswith].
  - rewrite orb_false_r. split.
    + intros H. apply String.eqb_eq in H. exists ""%string. exact H.
    + intros (p & H). apply String.eqb_eq. destruct p; simpl in H; [exact H|discriminate].
  - rewrite orb_true_iff, IH, String.eqb_eq. split.
    + intros [H|(p & H)].
      * exists ""%string. exact H.
      * exists (String c p). simpl. rewrite H. reflexivity.
    + intros (p & H). destruct p as [|c' p]; simpl in H; [left; exact H|].
      right. exists p. congruence.
Qed.

Lemma before_dot_idempotent (s : string) : before_dot (before_dot s) = before_dot s.
Proof.
  induction s as [|c s IH]; simpl; [reflexivity|].
  destruct (Ascii.eqb c ".") eqn:E; simpl; [reflexivity|]. rewrite E, IH. reflexivity.
Qed.

Lemma before_dot_append (p rest : string) :
  exists rest', (p ++ String "." rest)%string
                = (before_dot (p ++ String "." rest) ++ String "." rest')%string.
Proof.
  induction p as [|c p (rest' & IH)]; simpl.
  - exists rest. reflexivity.
  - destruct (Ascii.eqb_spec c ".") as [->|Hc]; simpl.
    + eexists. reflexivity.
    + exists rest'. congruence.
Qed.

(** The name of a [*.csv] file is its key, a dot, and the rest. *)
Lemma csv_name_key (company_file : string) :
  endswith company_file ".csv" = true ->
  exists rest,
    company_file = (before_dot company_file ++ String "." rest)%string.
Proof.
  intros H. apply endswith_spec in H as (p & ->).
  apply (before_dot_append p "csv").
Qed.

(** ** Reading the data *)

Section ExtractDataFacts.
Variable E : Type.
Variable load_frame : node -> E + PriceFrame.

Lemma load_all_app (l1 l2 : list (string * node)) (acc : dict PriceFrame) :
  load_all E load_frame (l1 ++ l2) acc =
  match load_all E load_frame l1 acc with
  | inr stock_data => load_all E load_frame l2 stock_data
  | inl e => inl e
  end.
Proof.
  revert acc; induction l1 as [|[k n] l1 IH]; intros acc; simpl; [reflexivity|].
  destruct (load_frame n); [reflexivity | apply IH].
Qed.

Lemma inner_loop_load_all (entries : list (string * node)) (acc : dict PriceFrame) :
  for_each_file E entries (extract_file E load_frame) acc =
  load_all E load_frame
    (map (fun company_file => (before_dot (fst company_file), snd company_file))
         (filter (fun company_file => endswith (fst company_file) ".csv"%string)
                 entries))
    acc.
Proof.
  revert acc; induction entries as [|[file n] entries IH]; intros acc; [reflexivity|].
  cbn [for_each_file filter]. unfold extract_file at 1. cbn [fst snd].
  destruct (endswith file ".csv"); [|apply IH].
  cbn [map load_all fst snd]. destruct (load_frame n); [reflexivity | apply IH].
Qed.

(** The two loops of [extract_data] load the visited files in order. *)
Lemma extract_data_load_all (main_folder : list (string * node)) :
  extract_data E load_frame main_folder
  = load_all E load_frame (visited_files main_folder) [].
Proof.
  unfold extract_data, visited_files.
  generalize (@nil (string * PriceFrame)) as acc.
  induction (filter (fun d => isdir (snd d)) main_folder) as [|c dirs IH];
    intros acc; [reflexivity|].
  cbn [for_each_file flat_map]. rewrite load_all_app, inner_loop_load_all.
  destruct (load_all E load_frame _ acc); [reflexivity | apply IH].
Qed.

(** What a successful run stores under each key. *)
Lemma load_all_lookup (l : list (string * node)) (acc stock_data : dict PriceFrame) :
  load_all E load_frame l acc = inr stock_data ->
  (forall k, ~ In k (map fst l) -> dict_get stock_data k = dict_get acc k) /\
  (forall l1 k n l2,
      l = l1 ++ (k, n) :: l2 -> ~ In k (map fst l2) ->
      exists df, load_frame n = inr df /\ dict_get stock_data k = Ok df).
Proof.
  revert acc; induction l as [|[k0 n0] l IH]; intros acc H; simpl in H.
  - injection H as <-. split; [reflexivity|].
    intros l1 k n l2 E0. destruct l1; discriminate.
  - destruct (load_frame n0) as [e|df0] eqn:E0; [discriminate|].
    destruct (IH _ H) as [IH1 IH2]. split.
    + intros k Hk. simpl in Hk. rewrite IH1 by tauto.
      apply dict_get_set_other. intros ->. tauto.
    + intros l1 k n l2 El Hk. destruct l1 as [|p l1]; simpl in El.
      * injection El as Ek En El. subst k0 n0 l. exists df0. split; [exact E0|].
        rewrite IH1 by exact Hk. apply dict_get_set_same.
      * injection El as Ep El. subst p l. eapply IH2; eauto.
Qed.

Lemma load_all_keys (l : list (string * node)) (acc stock_data : dict PriceFrame) :
  load_all E load_frame l acc = inr stock_data ->
  NoDup (keys acc) ->
  NoDup (keys stock_data) /\
  forall k, In k (keys stock_data) <-> In k (keys acc) \/ In k (map fst l).
Proof.
  revert acc; induction l as [|[k0 n0] l IH]; intros acc H Hnd; simpl in H.
  - injection H as <-. split; [exact Hnd|]. simpl. tauto.
  - destruct (load_frame n0) as [e|df0]; [discriminate|].
    destruct (IH _ H (dict_set_NoDup acc k0 df0 Hnd)) as [Hnd' Hk].
    split; [exact Hnd'|]. intros k. rewrite Hk, dict_set_keys. simpl. intuition.
Qed.

(** A run raises the exception of the first file that does not load. *)
Lemma load_all_Raise (l : list (string * node)) (acc : dict PriceFrame) (e : E) :
  load_all E load_frame l acc = inl e <->
  exists l1 k n l2,
    l = l1 ++ (k, n) :: l2 /\
    Forall (fun p => exists df, load_frame (snd p) = inr df) l1 /\
    load_frame n = inl e.
Proof.
  revert acc; induction l as [|[k0 n0] l IH]; intros acc; simpl.
  - split; [discriminate|]. intros (l1 & k & n & l2 & El & _). destruct l1; discriminate.
  - destruct (load_frame n0) as [e0|df0] eqn:E0.
    + split.
      * intros H; injection H as <-. exists [], k0, n0, l. repeat split; [constructor | exact E0].
      * intros (l1 & k & n & l2 & El & Hl1 & En). destruct l1 as [|p l1]; simpl in El.
        -- injection El as Ek0 En0 El. subst. congruence.
        -- injection El as Ep El. subst. inversion Hl1 as [|? ? (df & Hdf) ?]; subst.
           simpl in Hdf. congruence.
    + rewrite IH. split.
      * intros (l1 & k & n & l2 & -> & Hl1 & En).
        exists ((k0, n0) :: l1), k, n, l2. repeat split; [|exact En].
        constructor; [exists df0; exact E0 | exact Hl1].
      * intros (l1 & k & n & l2 & El & Hl1 & En). destruct l1 as [|p l1]; simpl in El.
        -- injection El as Ek0 En0 El. subst. congruence.
        -- injection El as Ep El. subst. inversion Hl1; subst.
           exists l1, k, n, l2. auto.
Qed.

End ExtractDataFacts.

(** The visited files are the [*.csv] entries of the directories of the main
    folder, under the part of their names before the first dot. *)
Lemma visited_files_spec (main_folder : list (string * node)) (k : string) (n : node) :
  In (k, n) (visited_files main_folder) <->
  exists category entries company_file,
    In (category, Dir entries) main_folder /\
    In (company_file, n) entries /\
    endswith company_file ".csv" = true /\
    k = before_dot company_file.
Proof.
  unfold visited_files. rewrite in_flat_map. split.
  - intros ([category c] & Hc & Hin). apply filter_In in Hc as [Hc Hdir].
    apply in_map_iff in Hin as ([file n'] & Heq & Hf).
    apply filter_In in Hf as [Hf Hcsv]. cbn [fst snd] in *.
    injection Heq as <- <-. destruct c as [|entries]; [discriminate|].
    exists category, entries, file. auto.
  - intros (category & entries & file & Hc & Hf & Hcsv & ->).
    exists (category, Dir entries). split.
    + apply filter_In. auto.
    + apply in_map_iff. exists (file, n). split; [reflexivity|].
      apply filter_In. auto.
Qed.

Lemma last_occurrence {V : Type} (l : list (string * V)) (k : string) :
  In k (map fst l) ->
  exists l1 v l2, l = l1 ++ (k, v) :: l2 /\ ~ In k (map fst l2).
Proof.
  induction l as [|[k0 v0] l IH]; simpl; [intros []|].
  intros H. destruct (in_dec string_dec k (map fst l)) as [Hin|Hnin].
  - destruct (IH Hin) as (l1 & v & l2 & -> & Hl2).
    exists ((k0, v0) :: l1), v, l2. auto.
  - destruct H as [->|H]; [|contradiction]. exists [], v0, l. auto.
Qed.

(** X12: the keys of the mapping [extract_data] returns are distinct, contain
    no dot, and are exactly the names, cut at their first dot, of the entries
    called [*.csv] in the directories of the main folder: files of the main
    folder itself and entries with another ending give no key. *)
Theorem extract_data_keys (E : Type) (load_frame : node -> E + PriceFrame)
  (main_folder : list (string * node)) (stock_data : dict PriceFrame) :
  extract_data E load_frame main_folder = inr stock_data ->
  NoDup (keys stock_data) /\
  (forall k, In k (keys stock_data) <->
             exists category entries company_file n,
               In (category, Dir entries) main_folder /\
               In (company_file, n) entries /\
               endswith company_file ".csv" = true /\
               k = before_dot company_file) /\
  (forall k, In k (keys stock_data) -> before_dot k = k).
Proof.
  rewrite extract_data_load_all. intros H.
  destruct (load_all_keys E load_frame _ _ _ H (NoDup_nil _)) as [Hnd Hk].
  assert (Hiff : forall k, In k (keys stock_data) <->
                           exists category entries company_file n,
                             In (category, Dir entries) main_folder /\
                             In (company_file, n) entries /\
                             endswith company_file ".csv" = true /\
                             k = before_dot company_file).
  { intros k. rewrite Hk. simpl. rewrite in_map_iff. split.
    - intros [[]|([k' n] & <- & Hin)].
      apply visited_files_spec in Hin as (c & es & f & H1 & H2 & H3 & H4).
      exists c, es, f, n. auto.
    - intros (c & es & f & n & H1 & H2 & H3 & H4). right. exists (k, n).
      split; [reflexivity|]. apply visited_files_spec. exists c, es, f. auto. }
  split; [exact Hnd|]. split; [exact Hiff|].
  intros k Hin. apply Hiff in Hin as (_ & _ & f & _ & _ & _ & _ & ->).
  apply before_dot_idempotent.
Qed.

Lemma extract_data_keys_witness :
  exists stock_data,
    extract_data string sample_load_frame sample_main_folder = inr stock_data /\
    keys stock_data = ["AAPL"; "XOM"]%string /\
    NoDup (keys stock_data).
Proof.
  destruct (extract_data string sample_load_frame sample_main_folder)
    as [e|stock_data] eqn:E; [vm_compute in E; discriminate|].
  exists stock_data. split; [reflexivity|]. split.
  - vm_compute in E. injection E as <-. reflexivity.
  - exact (proj1 (extract_data_keys string sample_load_frame sample_main_folder
                    stock_data E)).
Defined.

(** X13: under each key the returned mapping holds the frame loaded from the
    last visited file with that key: a later file whose name starts the same
    up to the first dot, in the same or in another category, replaces the
    earlier one. *)
Theorem extract_data_last_wins (E : Type) (load_frame : node -> E + PriceFrame)
  (main_folder : list (string * node)) (stock_data : dict PriceFrame) :
  extract_data E load_frame main_folder = inr stock_data ->
  (forall l1 k n l2,
      visited_files main_folder = l1 ++ (k, n) :: l2 -> ~ In k (map fst l2) ->
      exists df, load_frame n = inr df /\ dict_get stock_data k = Ok df) /\
  (forall k, In k (keys stock_data) ->
             exists l1 n l2 df,
               visited_files main_folder = l1 ++ (k, n) :: l2 /\
               ~ In k (map fst l2) /\
               load_frame n = inr df /\ dict_get stock_data k = Ok df) /\
  (forall k, ~ In k (keys stock_data) -> dict_get stock_data k = Raise KeyError).
Proof.
  rewrite extract_data_load_all. intros H.
  destruct (load_all_lookup E load_frame _ _ _ H) as [_ Hlast].
  destruct (load_all_keys E load_frame _ _ _ H (NoDup_nil _)) as [_ Hk].
  split; [exact Hlast|]. split; [|apply dict_get_not_key].
  intros k Hin. apply Hk in Hin as [[]|Hin].
  destruct (last_occurrence _ _ Hin) as (l1 & n & l2 & El & Hl2).
  destruct (Hlast l1 k n l2 El Hl2) as (df & Hdf & Hget).
  exists l1, n, l2, df. auto.
Qed.

Lemma extract_data_last_wins_witness :
  exists stock_data,
    extract_data string sample_load_frame sample_main_folder = inr stock_data /\
    dict_get stock_data "AAPL"
    = Ok {| Date := ["2019-12-31"]%string; Open := [1]%float; Close := [2]%float |}.
Proof.
  destruct (extract_data string sample_load_frame sample_main_folder)
    as [e|stock_data] eqn:E; [vm_compute in E; discriminate|].
  exists stock_data. split; [reflexivity|].
  destruct (extract_data_last_wins string sample_load_frame sample_main_folder
              stock_data E) as (Hlast & _).
  destruct (Hlast [("AAPL"%string, File "2020-01-02"); ("XOM"%string, File "2020-01-03")]
              "AAPL"%string (File "2019-12-31") [] eq_refl) as (df & Hdf & Hget).
  - intros [].
  - vm_compute in Hdf. injection Hdf as <-. exact Hget.
Defined.

(** X14: [extract_data] raises exactly when a visited file does not load,
    with the exception of the first such file; entries that are not visited
    (no [.csv] ending, or outside the directories of the main folder) are
    never loaded and cannot make it raise. *)
Theorem extract_data_raises (E : Type) (load_frame : node -> E + PriceFrame)
  (main_folder : list (string * node)) :
  (forall e,
      extract_data E load_frame main_folder = inl e <->
      exists l1 k n l2,
        visited_files main_folder = l1 ++ (k, n) :: l2 /\
        Forall (fun p => exists df, load_frame (snd p) = inr df) l1 /\
        load_frame n = inl e) /\
  ((forall p, In p (visited_files main_folder) ->
              exists df, load_frame (snd p) = inr df) ->
   exists stock_data, extract_data E load_frame main_folder = inr stock_data).
Proof.
  rewrite extract_data_load_all. split.
  - intros e. apply load_all_Raise.
  - intros Hall.
    destruct (load_all E load_frame (visited_files main_folder) []) as [e|sd] eqn:H;
      [|eauto].
    apply load_all_Raise in H as (l1 & k & n & l2 & El & _ & Hn).
    destruct (Hall (k, n)) as (df & Hdf).
    + rewrite El. apply in_or_app. right. left. reflexivity.
    + simpl in Hdf. congruence.
Qed.

(** ** Drawing the matrices *)

Lemma string_length_append (a b : string) :
  String.length (a ++ b) = String.length a + String.length b.
Proof.
  induction a as [|c a IH]; simpl; [reflexivity | rewrite IH; reflexivity].
Qed.

Lemma string_append_inv_tail (a b s : string) :
  (a ++ s)%string = (b ++ s)%string -> a = b.
Proof.
  revert b; induction a as [|c a IH]; intros [|c' b] H; simpl in H.
  - reflexivity.
  - apply (f_equal String.length) in H. simpl in H.
    rewrite string_length_append in H. lia.
  - apply (f_equal String.length) in H. simpl in H.
    rewrite string_length_append in H. lia.
  - injection H as -> H. f_equal. apply IH; exact H.
Qed.

Lemma str_inj (a b : nat) : str a = str b -> a = b.
Proof.
  unfold str. intros H. apply DecimalNat.Unsigned.to_uint_inj.
  apply (f_equal NilEmpty.uint_of_string) in H.
  rewrite !NilEmpty.usu in H. congruence.
Qed.

Lemma window_file_inj (a b : nat) :
  ("Window_" ++ str a ++ ".png")%string = ("Window_" ++ str b ++ ".png")%string ->
  a = b.
Proof.
  intros H. simpl in H. injection H as H.
  apply string_append_inv_tail in H. apply str_inj; exact H.
Qed.

Lemma NoDup_map_injective {A B : Type} (f : A -> B) (l : list A) :
  (forall a b, f a = f b -> a = b) -> NoDup l -> NoDup (map f l).
Proof.
  intros Hinj H. induction H as [|a l Hnin Hnd IH]; simpl; constructor; [|exact IH].
  intros Hin. apply in_map_iff in Hin as (b & Hb & Hin).
  apply Hinj in Hb. subst b. exact (Hnin Hin).
Qed.

Lemma saved_files_from (ms : list CorrelationFrame) (start : nat) :
  saved_files
    (flat_map (fun item => heat_map_window (fst item) (snd item))
              (combine (seq start (length ms)) ms))
  = map (fun num => ("Window_" ++ str num ++ ".png")%string) (seq start (length ms)).
Proof.
  revert start; induction ms as [|M ms IH]; intros start; [reflexivity|].
  cbn [length seq combine flat_map map]. unfold saved_files at 1.
  rewrite flat_map_app.
  fold (saved_files (flat_map (fun item => heat_map_window (fst item) (snd item))
                              (combine (seq (S start) (length ms)) ms))).
  rewrite IH. reflexivity.
Qed.

Lemma drawn_images_from (ms : list CorrelationFrame) (start : nat) :
  drawn_images
    (flat_map (fun item => heat_map_window (fst item) (snd item))
              (combine (seq start (length ms)) ms))
  = map (fun M => (values M, (-1)%float, 1%float)) ms.
Proof.
  revert start; induction ms as [|M ms IH]; intros start; [reflexivity|].
  cbn [length seq combine flat_map map]. unfold drawn_images at 1.
  rewrite flat_map_app.
  fold (drawn_images (flat_map (fun item => heat_map_window (fst item) (snd item))
                               (combine (seq (S start) (length ms)) ms))).
  rewrite IH. reflexivity.
Qed.

(** X15: [heat_map] saves one file per matrix, [Window_0.png],
    [Window_1.png], ... in the order of the list, under names that are all
    different, so that no figure of a run replaces another; and it draws the
    matrices in that order, each with the colour scale from -1 to 1. *)
Theorem heat_map_files (correlation_matrices : list CorrelationFrame)
  (stock_data : dict DataFrame) :
  saved_files (heat_map correlation_matrices stock_data)
  = map (fun num => ("Window_" ++ str num ++ ".png")%string)
        (seq 0 (length correlation_matrices)) /\
  NoDup (saved_files (heat_map correlation_matrices stock_data)) /\
  drawn_images (heat_map correlation_matrices stock_data)
  = map (fun M => (values M, (-1)%float, 1%float)) correlation_matrices.
Proof.
  unfold heat_map. rewrite saved_files_from, drawn_images_from.
  split; [reflexivity|]. split; [|reflexivity].
  apply NoDup_map_injective; [|apply seq_NoDup].
  intros a b. apply window_file_inj.
Qed.

(** ** The length of the windows *)

Lemma chunk_size_upper_bound (L W w : nat) :
  0 < W -> 0 < L / W -> chunk_size L (L / W) w < 2 * W.
Proof.
  intros HW Hk. unfold chunk_size.
  set (k := L / W) in *.
  pose proof (Nat.div_mod_eq L W) as HLW. fold k in HLW.
  pose proof (Nat.mod_upper_bound L W ltac:(lia)) as HrW.
  pose proof (Nat.div_mod_eq L k) as HLk.
  pose proof (Nat.mod_upper_bound L k ltac:(lia)) as Hrk.
  set (q := L / k) in *. set (r := L mod k) in *. set (r0 := L mod W) in *.
  destruct (Nat.ltb_spec w r) as [Hw|Hw]; [|nia].
  assert (2 <= k) by lia.
  destruct (Nat.eq_dec W 1) as [->|HW1]; [nia|].
  assert (k * (q + 1) < k * (2 * W)); [|nia].
  nia.
Qed.

Lemma chunk_size_divisible (k W w : nat) :
  0 < W -> w < k ->
  chunk_size (k * W) k w = W /\ chunk_start (k * W) k w = w * W.
Proof.
  intros HW Hw.
  assert (Hsize : forall u, chunk_size (k * W) k u = W).
  { intros u. unfold chunk_size. rewrite Nat.mul_comm, Nat.div_mul, Nat.Div0.mod_mul by lia.
    simpl. lia. }
  split; [apply Hsize|].
  induction w as [|w IH]; [reflexivity|].
  rewrite chunk_start_S, IH, Hsize by lia. lia.
Qed.

(** X16: a window the engine reads is not always [window_size] rows long:
    the chunk of any company it reads holds at least [window_size] and fewer
    than [2 * window_size] values; it holds exactly the rows
    [w * window_size .. (w + 1) * window_size - 1] when the company's number of
    rows is a multiple of the window size. *)
Theorem instrument_chunk_length (stock_data : dict DataFrame) (window_size : Z)
  (w i : nat) (name : string) (df : DataFrame) (chunk : list float) :
  nth_error (keys stock_data) i = Some name ->
  dict_get stock_data name = Ok df ->
  instrument_chunk stock_data window_size w i = Ok chunk ->
  (window_size <= Z.of_nat (length chunk) < 2 * window_size)%Z /\
  ((Z.of_nat (len df) mod window_size = 0)%Z ->
   chunk = firstn (Z.to_nat window_size)
                  (skipn (w * Z.to_nat window_size) (Normalized_Return df))).
Proof.
  intros En Ed Hc.
  destruct (instrument_chunk_inv _ _ _ _ _ _ _ Hc En Ed) as (Hpos & Hw & Hchunk & Hlen).
  pose proof (sections_positive _ _ Hpos) as HW.
  rewrite sections_to_nat in Hw, Hchunk, Hlen by exact HW.
  assert (Hk : 0 < len df / Z.to_nat window_size) by lia.
  split.
  - pose proof (chunk_size_lower_bound (len df) (Z.to_nat window_size) w
                  ltac:(lia) Hk).
    pose proof (chunk_size_upper_bound (len df) (Z.to_nat window_size) w
                  ltac:(lia) Hk).
    lia.
  - intros Hmod.
    assert (Hmul : len df = len df / Z.to_nat window_size * Z.to_nat window_size).
    { apply Nat2Z.inj. rewrite Nat2Z.inj_mul, Nat2Z.inj_div, Z2Nat.id by lia.
      rewrite Z.mul_comm. apply Z.div_exact; [lia | exact Hmod]. }
    destruct (chunk_size_divisible (len df / Z.to_nat window_size)
                (Z.to_nat window_size) w ltac:(lia) Hw) as [Hs Hst].
    rewrite <- Hmul in Hs, Hst. rewrite Hchunk, Hs, Hst. reflexivity.
Qed.

Lemma instrument_chunk_length_witness :
  (2 <= Z.of_nat (length [1; 2; 3]%float) < 2 * 2)%Z.
Proof.
  apply (instrument_chunk_length sample_drift_stock_data 2 0 1 "B"%string
           (sample_frame [1; 2; 3; 4; 5]%float) [1; 2; 3]%float);
    reflexivity.
Defined.

(** ** A zero opening price, from the prices to the matrices *)

Lemma Forall2_nth_error_l {A B : Type} (R : A -> B -> Prop) (l1 : list A) (l2 : list B)
  (k : nat) (x : A) :
  Forall2 R l1 l2 -> nth_error l1 k = Some x ->
  exists y, nth_error l2 k = Some y /\ R x y.
Proof.
  intros H; revert k; induction H as [|x0 y0 l1 l2 HR H IH]; intros [|k]; simpl;
    try discriminate.
  - intros E; injection E as <-. eauto.
  - apply IH.
Qed.

Lemma dict_get_nth {V : Type} (d : dict V) (i : nat) (k : string) (v : V) :
  NoDup (keys d) ->
  nth_error (keys d) i = Some k -> nth_error (map snd d) i = Some v ->
  dict_get d k = Ok v.
Proof.
  unfold keys. revert i; induction d as [|[k0 v0] d IH]; intros i Hnd Hk Hv.
  - destruct i; discriminate.
  - simpl in Hnd. inversion Hnd as [|? ? Hnin Hnd']; subst.
    destruct i as [|i]; simpl in Hk, Hv.
    + injection Hk as ->. injection Hv as ->. apply dict_get_head.
    + simpl. destruct (String.eqb_spec k0 k) as [->|Hne].
      * exfalso. apply Hnin. eapply nth_error_In; exact Hk.
      * eapply IH; eauto.
Qed.

(** The values of a chunk are values of the series, and there is one. *)
Lemma instrument_chunk_values (stock_data : dict DataFrame) (window_size : Z)
  (w i : nat) (name : string) (df : DataFrame) (chunk : list float) :
  nth_error (keys stock_data) i = Some name ->
  dict_get stock_data name = Ok df ->
  instrument_chunk stock_data window_size w i = Ok chunk ->
  chunk <> [] /\ forall x, In x chunk -> In x (Normalized_Return df).
Proof.
  intros En Ed Hc.
  destruct (instrument_chunk_inv _ _ _ _ _ _ _ Hc En Ed) as (Hpos & Hw & Hchunk & Hlen).
  pose proof (sections_positive _ _ Hpos) as HW.
  rewrite sections_to_nat in Hlen, Hw by exact HW.
  pose proof (chunk_size_lower_bound (len df) (Z.to_nat window_size) w
                ltac:(lia) ltac:(lia)) as Hlow.
  split.
  - intros ->. simpl in Hlen. lia.
  - intros x Hx. rewrite Hchunk in Hx.
    rewrite <- (firstn_skipn (chunk_start (len df)
                                (Z.to_nat (Z.of_nat (len df) / window_size)) w)
                  (Normalized_Return df)).
    apply in_or_app. right.
    match type of Hx with In _ (firstn ?a ?l) => rewrite <- (firstn_skipn a l) end.
    apply in_or_app. left. exact Hx.
Qed.

(** X17: through the whole computation of the main script, one opening
    price of 0 blanks its company: in every matrix returned, the row and the
    column of that company hold NaN only. *)
Theorem zero_open_blanks_company (stock_data : dict PriceFrame) (i : nat)
  (name : string) (df : PriceFrame) (t : nat) (o : float)
  (ms : list CorrelationFrame) (w : nat) (M : CorrelationFrame) (j : nat) :
  NoDup (keys stock_data) ->
  nth_error stock_data i = Some (name, df) ->
  length (Close df) = length (Open df) ->
  nth_error (Open df) t = Some o ->
  (o =? 0)%float = true ->
  correlation_results stock_data = Ok ms ->
  nth_error ms w = Some M ->
  j < length stock_data ->
  get_item (values M) i j = Some nan /\ get_item (values M) j i = Some nan.
Proof.
  intros Hnd Hi Hlen Ho Hz Hms HM Hj.
  destruct (add_return_columns_all_Ok stock_data) as (sd' & E & Hk & HF).
  unfold correlation_results in Hms. rewrite E in Hms. cbn [bind] in Hms.
  assert (Hlen' : length sd' = length stock_data).
  { rewrite <- (length_map fst sd'), <- (length_map fst stock_data).
    fold (keys sd') (keys stock_data). rewrite Hk. reflexivity. }
  assert (Hname : nth_error (keys sd') i = Some name).
  { rewrite Hk. unfold keys. rewrite nth_error_map, Hi. reflexivity. }
  assert (Hdf : nth_error (map snd stock_data) i = Some df)
    by (rewrite nth_error_map, Hi; reflexivity).
  destruct (Forall2_nth_error_l _ _ _ _ _ HF Hdf) as (df' & Hdf' & Eadd).
  assert (Hget : dict_get sd' name = Ok df').
  { apply (dict_get_nth sd' i); [rewrite Hk; exact Hnd | exact Hname | exact Hdf']. }
  destruct (zero_open_all_nan df t o Hlen Ho Hz) as (normalized & Edf & _ & Hnan).
  rewrite Edf in Eadd. injection Eadd as <-.
  assert (Hin : i < length sd').
  { rewrite Hlen'. apply nth_error_Some. congruence. }
  assert (Hchunk : forall chunk,
             instrument_chunk sd' window_size_correlation w i = Ok chunk ->
             exists x, In x chunk /\ is_finite x = false).
  { intros chunk Hc.
    destruct (instrument_chunk_values _ _ _ _ _ _ _ Hname Hget Hc) as [Hne Hsub].
    destruct chunk as [|x chunk]; [contradiction|].
    exists x. split; [left; reflexivity|].
    rewrite Forall_forall in Hnan.
    rewrite (Hnan x (Hsub x (or_introl eq_refl))). reflexivity. }
  destruct (Nat.le_gt_cases i j) as [Hij|Hji].
  - destruct (engine_pair_cells _ _ _ _ _ _ _ Hms HM Hij ltac:(lia))
      as (ci & cj & v & Eci & Ecj & Hv & G1 & G2).
    destruct (Hchunk ci Eci) as (x & Hx & Hnf).
    rewrite (pair_value_nonfinite ci cj x v (or_introl Hx) Hnf Hv) in G1, G2. auto.
  - destruct (engine_pair_cells _ _ _ _ _ j i Hms HM ltac:(lia) Hin)
      as (cj & ci & v & Ecj & Eci & Hv & G1 & G2).
    destruct (Hchunk ci Eci) as (x & Hx & Hnf).
    rewrite (pair_value_nonfinite cj ci x v (or_intror Hx) Hnf Hv) in G1, G2. auto.
Qed.

Lemma zero_open_blanks_company_witness :
  exists ms M,
    correlation_results sample_long_price_data = Ok ms /\
    nth_error ms 0 = Some M /\
    get_item (values M) 0 1 = Some nan /\ get_item (values M) 1 0 = Some nan.
Proof.
  destruct (correlation_results sample_long_price_data) as [ms|e] eqn:E;
    [|vm_compute in E; discriminate].
  destruct (nth_error ms 0) as [M|] eqn:EM;
    [|vm_compute in E; injection E as <-; discriminate].
  exists ms, M. split; [reflexivity|]. split; [exact EM|].
  apply (zero_open_blanks_company sample_long_price_data 0 "A"%string
           sample_zero_open_prices 0 0%float ms 0 M 1).
  - repeat constructor; simpl; intuition discriminate.
  - reflexivity.
  - reflexivity.
  - reflexivity.
  - reflexivity.
  - exact E.
  - exact EM.
  - simpl; lia.
Defined.

Lemma correlation_results_count_witness :
  exists ms,
    correlation_results sample_long_price_data = Ok ms /\ length ms = 44 / 44.
Proof.
  destruct (correlation_results_count sample_long_price_data 44) as [_ H].
  destruct H as (ms & E & Hl & _).
  - discriminate.
  - repeat constructor.
  - exists ms. split; [exact E | exact Hl].
Defined.
